(** * Resume rater: the skill matcher and the scoring engine

    A shallow embedding of [skills.py] and [scoring.py], with the parts of
    Python's [re] and [difflib] they call, and of the code around them that
    computes without a model or a file: [sanitize_filename] of [utils.py], the
    cleaning of the extracted skills and the fallback justification of
    [llm_utils.py], the missing requirements and the feedback test of
    [service.py], [should_recommend] of [app.py] and [parse_resume_file] of
    [parsing.py], whose two extractors are parameters.

    - Strings are lists of characters with code points below 256; [lower],
      [isspace] and the regular-expression classes follow Python's behaviour
      on that range. On that range [lower] keeps the length of a string,
      which Python's [str.lower] does not do on every string; no property
      below uses it.
    - Python numbers, floats and ints, are modelled as exact rationals ([Q]):
      every score of the program is a sum, product or quotient of small
      integers and decimal literals. The rounding of binary floating point is
      not modelled. A number beyond the range of floats is an int, and its
      conversion to a float in arithmetic with a float raises.
    - Python dicts are association lists in insertion order; Python sets are
      duplicate-free lists in insertion order (the order in which Python
      iterates a set of strings is not fixed; no property below depends on
      it).
    - Operations that can raise in Python (division, [max] of an empty
      sequence, arithmetic on a non-number, the conversion of an int to a
      float) live in the error monad [res]. *)

From Stdlib Require Import String Ascii.
From Stdlib Require Import List Sorted Bool Arith PeanoNat Lia ZArith QArith Qminmax Qround Lqa.
Import ListNotations.

Set Implicit Arguments.
Close Scope Q_scope.
Open Scope nat_scope.

(* ================================================================== *)
(** * Part I: definitions *)
(* ================================================================== *)

(** ** Strings *)

Definition str := list ascii.

Definition lit (s : string) : str := list_ascii_of_string s.
Arguments lit s%_string.

Fixpoint str_eqb (a b : str) : bool :=
  match a, b with
  | [], [] => true
  | x :: a', y :: b' => Ascii.eqb x y && str_eqb a' b'
  | _, _ => false
  end.

(** [x in l] for a list of strings. *)
Fixpoint mem (x : str) (l : list str) : bool :=
  match l with
  | [] => false
  | y :: l' => str_eqb x y || mem x l'
  end.

(** [set.add]: the element is appended unless present. *)
Definition set_add (x : str) (l : list str) : list str :=
  if mem x l then l else l ++ [x].

(** [set.update] and [set(iterable)]. *)
Definition set_update (l xs : list str) : list str := fold_left (fun acc x => set_add x acc) xs l.
Definition set_of (xs : list str) : list str := set_update [] xs.

(** [a.intersection(b)]. *)
Definition intersection (a b : list str) : list str := filter (fun x => mem x b) a.

(** [c.lower()] for one character: A-Z and the Latin-1 capitals. *)
Definition lower_char (c : ascii) : ascii :=
  let n := nat_of_ascii c in
  if ((65 <=? n) && (n <=? 90)) || ((192 <=? n) && (n <=? 222) && negb (n =? 215))
  then ascii_of_nat (n + 32) else c.

Definition lower (s : str) : str := map lower_char s.

(** [c.isspace()], which is also the class [\s]. *)
Definition isspace (c : ascii) : bool :=
  let n := nat_of_ascii c in
  ((9 <=? n) && (n <=? 13)) || ((28 <=? n) && (n <=? 32)) || (n =? 133) || (n =? 160).

(** [\d]. *)
Definition isdigit (c : ascii) : bool :=
  let n := nat_of_ascii c in (48 <=? n) && (n <=? 57).

(** [\w]: alphanumeric characters and the underscore. *)
Definition isword (c : ascii) : bool :=
  let n := nat_of_ascii c in
  ((48 <=? n) && (n <=? 57)) || ((65 <=? n) && (n <=? 90)) || ((97 <=? n) && (n <=? 122))
  || (n =? 95) || (n =? 170) || (n =? 178) || (n =? 179) || (n =? 181) || (n =? 185)
  || (n =? 186) || ((188 <=? n) && (n <=? 190))
  || ((192 <=? n) && (n <=? 255) && negb (n =? 215) && negb (n =? 247)).

Definition newline : ascii := ascii_of_nat 10.

Fixpoint lstrip (s : str) : str :=
  match s with
  | c :: s' => if isspace c then lstrip s' else s
  | [] => []
  end.

Definition rstrip (s : str) : str := rev (lstrip (rev s)).

(** [s.strip()]. *)
Definition strip (s : str) : str := rstrip (lstrip s).

(** [s.startswith(p)], returning what follows the prefix. *)
Fixpoint strip_prefix (p s : str) : option str :=
  match p, s with
  | [], _ => Some s
  | x :: p', y :: s' => if Ascii.eqb x y then strip_prefix p' s' else None
  | _ :: _, [] => None
  end.

Definition startswith (p s : str) : bool :=
  match strip_prefix p s with Some _ => true | None => false end.

(** [p in s] for strings: [p] occurs as a substring of [s]. *)
Fixpoint contains (s p : str) : bool :=
  startswith p s || match s with [] => false | _ :: s' => contains s' p end.

(** [s[start:end_]] for non-negative bounds. *)
Definition slice (s : str) (start end_ : nat) : str := skipn start (firstn end_ s).

(** [s.split()]: the maximal runs of non-blank characters. *)
Fixpoint split_go (cur : str) (s : str) : list str :=
  match s with
  | [] => match cur with [] => [] | _ => [rev cur] end
  | c :: s' =>
      if isspace c then
        match cur with [] => split_go [] s' | _ => rev cur :: split_go [] s' end
      else split_go (c :: cur) s'
  end.

Definition split (s : str) : list str := split_go [] s.

(** [s.replace(' ', r)]. *)
Definition replace_space (r : str) (s : str) : str :=
  flat_map (fun c => if Ascii.eqb c " "%char then r else [c]) s.

(* ------------------------------------------------------------------ *)
(** ** Regular expressions ([re])

    A backtracking matcher for the constructs the program's patterns use.
    The repeated item of a star is always a single character class, and no
    pattern of the program matches both the empty string and a longer one. *)

Inductive regex : Type :=
| Eps
| Cls (p : ascii -> bool)
| Seq (r1 r2 : regex)
| Alt (r1 r2 : regex)
| Rep (greedy : bool) (p : ascii -> bool)
| Bol
| Eol
| Wordb.

Definition isword_opt (c : option ascii) : bool :=
  match c with Some x => isword x | None => false end.

(** [rmatch r prev s k] matches [r] at the head of [s], [prev] being the
    character before it, and hands what is left to [k]; alternatives are tried
    in Python's order and the first success wins. *)
Fixpoint rmatch (r : regex) (prev : option ascii) (s : str)
         (k : option ascii -> str -> option str) {struct r} : option str :=
  match r with
  | Eps => k prev s
  | Cls p =>
      match s with
      | c :: s' => if p c then k (Some c) s' else None
      | [] => None
      end
  | Seq r1 r2 => rmatch r1 prev s (fun prev' s' => rmatch r2 prev' s' k)
  | Alt r1 r2 =>
      match rmatch r1 prev s k with
      | Some x => Some x
      | None => rmatch r2 prev s k
      end
  | Rep greedy p =>
      (fix rep (prev : option ascii) (s : str) {struct s} : option str :=
         match s with
         | c :: s' =>
             if p c then
               if greedy then
                 match rep (Some c) s' with
                 | Some x => Some x
                 | None => k prev s
                 end
               else
                 match k prev s with
                 | Some x => Some x
                 | None => rep (Some c) s'
                 end
             else k prev s
         | [] => k prev s
         end) prev s
  | Bol => match prev with None => k prev s | Some _ => None end
  | Eol =>
      match s with
      | [] => k prev s
      | [c] => if Ascii.eqb c newline then k prev s else None
      | _ => None
      end
  | Wordb => if xorb (isword_opt prev) (isword_opt (hd_error s)) then k prev s else None
  end.

(** The match of [r] that starts exactly here: what is left after it. *)
Definition match_here (r : regex) (prev : option ascii) (s : str) : option str :=
  rmatch r prev s (fun _ rest => Some rest).

(** [re.finditer]: the spans (start, end) of the non-overlapping matches, left
    to right. [skip] counts the characters still inside the last match. *)
Fixpoint finditer_from (r : regex) (pos : nat) (prev : option ascii) (s : str) (skip : nat)
  : list (nat * nat) :=
  match skip with
  | S k =>
      match s with
      | c :: s' => finditer_from r (S pos) (Some c) s' k
      | [] => []
      end
  | 0 =>
      match match_here r prev s with
      | Some rest =>
          let n := length s - length rest in
          (pos, pos + n) ::
          match s with
          | c :: s' => finditer_from r (S pos) (Some c) s' (n - 1)
          | [] => []
          end
      | None =>
          match s with
          | c :: s' => finditer_from r (S pos) (Some c) s' 0
          | [] => []
          end
      end
  end.

Definition finditer (r : regex) (s : str) : list (nat * nat) := finditer_from r 0 None s 0.

(** [len(re.findall(r, s))]. *)
Definition findall_count (r : regex) (s : str) : nat := length (finditer r s).

(** [re.search(r, s)] as a truth value. *)
Fixpoint search_from (r : regex) (prev : option ascii) (s : str) : bool :=
  match match_here r prev s with
  | Some _ => true
  | None =>
      match s with
      | c :: s' => search_from r (Some c) s'
      | [] => false
      end
  end.

Definition search (r : regex) (s : str) : bool := search_from r None s.

(** [re.sub(r, '', s)]: the text outside the matches. *)
Fixpoint sub_from (r : regex) (prev : option ascii) (s : str) (skip : nat) : str :=
  match skip with
  | S k =>
      match s with
      | c :: s' => sub_from r (Some c) s' k
      | [] => []
      end
  | 0 =>
      match match_here r prev s with
      | Some rest =>
          match length s - length rest with
          | 0 => match s with c :: s' => c :: sub_from r (Some c) s' 0 | [] => [] end
          | S k => match s with c :: s' => sub_from r (Some c) s' k | [] => [] end
          end
      | None =>
          match s with
          | c :: s' => c :: sub_from r (Some c) s' 0
          | [] => []
          end
      end
  end.

Definition sub_empty (r : regex) (s : str) : str := sub_from r None s 0.

(** Pattern builders. *)
Definition chr (c : ascii) : regex := Cls (Ascii.eqb c).
(** A literal character under [re.IGNORECASE]. *)
Definition ichr (c : ascii) : regex := Cls (fun x => Ascii.eqb (lower_char x) (lower_char c)).

Fixpoint seqs (rs : list regex) : regex :=
  match rs with
  | [] => Eps
  | [r] => r
  | r :: rs' => Seq r (seqs rs')
  end.

Fixpoint alts (rs : list regex) : regex :=
  match rs with
  | [] => Eps
  | [r] => r
  | r :: rs' => Alt r (alts rs')
  end.

Definition word (w : string) : regex := seqs (map chr (lit w)).
Definition iword (w : string) : regex := seqs (map ichr (lit w)).
Arguments word w%_string.
Arguments iword w%_string.
Definition plus (p : ascii -> bool) : regex := Seq (Cls p) (Rep true p).
Definition star (p : ascii -> bool) : regex := Rep true p.
Definition lazy_star (p : ascii -> bool) : regex := Rep false p.
Definition opt (r : regex) : regex := Alt r Eps.
Definition dot (c : ascii) : bool := negb (Ascii.eqb c newline).

(** [re.escape(v)] compiled: the literal [v]. *)
Definition escape (v : str) : regex := seqs (map chr v).

(* ------------------------------------------------------------------ *)
(** ** Numbers, dicts and errors *)

Definition Qn (n : nat) : Q := inject_Z (Z.of_nat n).

Definition Qltb (x y : Q) : bool := negb (Qle_bool y x).

Inductive exn : Type :=
| ZeroDivisionError
| ValueError
| TypeError
| KeyError
| OverflowError.

(** The outcome of a Python expression that may raise. *)
Inductive res (A : Type) : Type :=
| Ok (a : A)
| Raise (e : exn).
Arguments Ok {A} a.
Arguments Raise {A} e.

Definition bind {A B : Type} (m : res A) (f : A -> res B) : res B :=
  match m with
  | Ok a => f a
  | Raise e => Raise e
  end.

Notation "x <- m ;; k" := (bind m (fun x => k))
  (at level 61, m at next level, right associativity).

(** [x / y] on numbers. *)
Definition py_div (x y : Q) : res Q :=
  if Qeq_bool y 0 then Raise ZeroDivisionError else Ok (x / y)%Q.

(** A number of the program is a Python float or a Python int. In a product
    or a difference with a float an int is converted to a float first, and
    [float(n)] raises [OverflowError] for an int that rounds to 2^1024, that
    is, from 2^1024 - 2^970 on in magnitude. No finite float is that large,
    so a number of that magnitude is an int. *)
Definition float_limit : Q := inject_Z (2 ^ 1024 - 2 ^ 970).

(** The operand [x] of arithmetic with a float. *)
Definition to_float (x : Q) : res Q :=
  if Qltb (- float_limit) x && Qltb x float_limit then Ok x else Raise OverflowError.
Arguments float_limit : simpl never.
Arguments to_float x : simpl never.

(** A dict keyed by strings, in insertion order. *)
Definition dict (V : Type) := list (str * V).

Fixpoint dict_get {V : Type} (d : dict V) (k : str) : option V :=
  match d with
  | [] => None
  | (k', v) :: d' => if str_eqb k k' then Some v else dict_get d' k
  end.

(** [d[k] = v]: an existing key keeps its place. *)
Fixpoint dict_set {V : Type} (d : dict V) (k : str) (v : V) : dict V :=
  match d with
  | [] => [(k, v)]
  | (k', v') :: d' => if str_eqb k k' then (k', v) :: d' else (k', v') :: dict_set d' k v
  end.

Definition dict_values {V : Type} (d : dict V) : list V := map snd d.

Definition Qsum (l : list Q) : Q := fold_left Qplus l 0%Q.

(* ------------------------------------------------------------------ *)
(** ** skills.py *)

Definition SKILL_ALIASES : dict (list str) :=
  map (fun e : string * list string => (lit (fst e), map lit (snd e)))
  [ ("javascript", ["js"; "ecmascript"; "node.js"; "nodejs"; "node js"]);
    ("typescript", ["ts"]);
    ("python", ["py"; "python3"; "python2"]);
    ("java", ["java8"; "java11"; "java17"; "jdk"; "jre"]);
    ("c#", ["csharp"; "c sharp"; ".net"; "dotnet"]);
    ("c++", ["cpp"; "c plus plus"]);
    ("objective-c", ["objc"; "objective c"]);
    ("go", ["golang"]);
    ("ruby", ["rb"]);
    ("php", ["php7"; "php8"]);
    ("swift", ["ios"; "swiftui"]);
    ("kotlin", ["kt"]);
    ("scala", ["sc"]);
    ("r", ["r-lang"; "rstudio"]);

    ("react", ["reactjs"; "react.js"; "react js"]);
    ("vue", ["vuejs"; "vue.js"; "vue js"]);
    ("angular", ["angularjs"; "angular.js"; "angular js"]);
    ("express", ["expressjs"; "express.js"]);
    ("django", ["python django"]);
    ("flask", ["python flask"]);
    ("spring", ["spring boot"; "springboot"; "spring framework"]);
    ("laravel", ["php laravel"]);
    ("rails", ["ruby on rails"; "rubyonrails"; "ror"]);
    ("asp.net", ["aspnet"; "asp net"]);
    ("jquery", ["jquery.js"]);
    ("bootstrap", ["bootstrap css"]);
    ("tailwind", ["tailwindcss"; "tailwind css"]);

    ("postgresql", ["postgres"; "psql"]);
    ("mysql", ["my sql"]);
    ("mongodb", ["mongo"; "mongo db"]);
    ("redis", ["redis cache"]);
    ("elasticsearch", ["elastic search"; "es"]);
    ("oracle", ["oracle db"; "oracledb"]);
    ("sql server", ["sqlserver"; "mssql"; "ms sql"]);
    ("sqlite", ["sqlite3"]);
    ("dynamodb", ["dynamo db"; "dynamo"]);
    ("cassandra", ["apache cassandra"]);

    ("aws", ["amazon web services"; "amazon aws"]);
    ("azure", ["microsoft azure"; "ms azure"]);
    ("gcp", ["google cloud"; "google cloud platform"]);
    ("docker", ["containerization"]);
    ("kubernetes", ["k8s"; "k8"]);
    ("jenkins", ["ci/cd"; "cicd"]);
    ("terraform", ["iac"; "infrastructure as code"]);
    ("ansible", ["configuration management"]);
    ("git", ["github"; "gitlab"; "bitbucket"; "version control"]);
    ("ci/cd", ["continuous integration"; "continuous deployment"; "cicd"]);

    ("rest", ["rest api"; "restful"; "restful api"]);
    ("graphql", ["graph ql"]);
    ("microservices", ["micro services"; "service oriented architecture"; "soa"]);
    ("machine learning", ["ml"; "artificial intelligence"; "ai"]);
    ("deep learning", ["dl"; "neural networks"]);
    ("data science", ["ds"; "data analysis"]);
    ("big data", ["bigdata"; "hadoop"; "spark"]);
    ("blockchain", ["bitcoin"; "ethereum"; "crypto"]);
    ("api", ["apis"; "web services"]);
    ("json", ["javascript object notation"]);
    ("xml", ["extensible markup language"]);
    ("html", ["html5"; "hypertext markup language"]);
    ("css", ["css3"; "cascading style sheets"]);
    ("sass", ["scss"]);
    ("less", ["lesscss"]);
    ("webpack", ["bundler"]);
    ("babel", ["transpiler"]);
    ("npm", ["node package manager"]);
    ("yarn", ["package manager"]);
    ("agile", ["scrum"; "kanban"]);
    ("tdd", ["test driven development"]);
    ("bdd", ["behavior driven development"])
  ]%string.

(** [^(using|with|in)\s+] *)
Definition filler_prefix : regex :=
  seqs [Bol; alts [word "using"; word "with"; word "in"]; plus isspace].

(** [\s+(programming|development|framework|library|database|tool)$] *)
Definition trailing_suffix : regex :=
  seqs [plus isspace;
        alts [word "programming"; word "development"; word "framework";
              word "library"; word "database"; word "tool"];
        Eol].

(** The loop over [SKILL_ALIASES.items()]: the first entry that names [s]. *)
Fixpoint lookup_alias (tbl : dict (list str)) (s : str) : option str :=
  match tbl with
  | [] => None
  | (canonical, aliases) :: tbl' =>
      if str_eqb s canonical || mem s aliases then Some canonical
      else lookup_alias tbl' s
  end.

Definition normalize_skill (skill : str) : str :=
  let skill_lower := strip (lower skill) in
  let skill_lower := sub_empty filler_prefix skill_lower in
  let skill_lower := sub_empty trailing_suffix skill_lower in
  match lookup_alias SKILL_ALIASES skill_lower with
  | Some canonical => canonical
  | None => skill_lower
  end.

Definition has_space (s : str) : bool := existsb (Ascii.eqb " "%char) s.

Definition create_skill_variants (skill : str) : list str :=
  let normalized := normalize_skill skill in
  let variants := set_add normalized [] in
  let variants := set_add (strip (lower skill)) variants in
  let variants :=
    match dict_get SKILL_ALIASES normalized with
    | Some aliases => set_update variants aliases
    | None => variants
    end in
  if has_space normalized then
    let variants := set_add (replace_space [] normalized) variants in
    let variants := set_add (replace_space (lit ".") normalized) variants in
    set_add (replace_space (lit "-") normalized) variants
  else variants.

(* ------------------------------------------------------------------ *)
(** ** difflib.SequenceMatcher

    [SequenceMatcher(None, a, b)] as in CPython's [Lib/difflib.py]: no junk
    predicate, [autojunk] on. Indices are natural numbers; [i - k + 1] is
    written [i + 1 - k]. *)

Module Difflib.

Definition zero : ascii := Ascii.zero.

Definition Match : Type := (nat * nat * nat)%type.

(** [b2j]: element of [b] -> ascending list of its indices. *)
Definition b2j_t : Type := list (ascii * list nat).

(** [b2j.get(c, nothing)] *)
Fixpoint b2j_get (d : b2j_t) (c : ascii) : list nat :=
  match d with
  | [] => []
  | (x, l) :: d' => if Ascii.eqb x c then l else b2j_get d' c
  end.

(** [b2j.setdefault(c, []).append(i)] *)
Fixpoint b2j_append (d : b2j_t) (c : ascii) (i : nat) : b2j_t :=
  match d with
  | [] => [(c, [i])]
  | (x, l) :: d' =>
      if Ascii.eqb x c then (x, l ++ [i]) :: d' else (x, l) :: b2j_append d' c i
  end.

Fixpoint chain_loop (b : str) (i : nat) (d : b2j_t) : b2j_t :=
  match b with
  | [] => d
  | elt :: b' => chain_loop b' (S i) (b2j_append d elt i)
  end.

(** [__chain_b]: the index of [b], popular elements purged when [b] has 200
    elements or more. The junk set stays empty. *)
Definition chain_b (b : str) : b2j_t :=
  let b2j := chain_loop b 0 [] in
  let n := length b in
  if 200 <=? n then
    let ntest := n / 100 + 1 in
    filter (fun e : ascii * list nat => negb (ntest <? length (snd e))) b2j
  else b2j.

Definition isbjunk (c : ascii) : bool := false.

(** [j2len] is only read through [get], never iterated: the newest binding of
    a key is found first. *)
Definition j2len_t : Type := list (nat * nat).

Fixpoint j2len_get (d : j2len_t) (j : nat) : nat :=
  match d with
  | [] => 0
  | (j', k) :: d' => if j' =? j then k else j2len_get d' j
  end.

(** [j2len.get(j-1, 0)]; the key [-1] is never present. *)
Definition j2len_prev (d : j2len_t) (j : nat) : nat :=
  match j with
  | 0 => 0
  | S j' => j2len_get d j'
  end.

Section Matcher.
Variables a b : str.
Variable b2j : b2j_t.

(** [for j in b2j.get(a[i], nothing)] *)
Fixpoint inner_loop (js : list nat) (i blo bhi : nat) (j2len newj2len : j2len_t)
         (best : Match) : j2len_t * Match :=
  match js with
  | [] => (newj2len, best)
  | j :: js' =>
      if j <? blo then inner_loop js' i blo bhi j2len newj2len best
      else if bhi <=? j then (newj2len, best)
      else
        let k := j2len_prev j2len j + 1 in
        let newj2len := (j, k) :: newj2len in
        let '(_, _, bestsize) := best in
        let best := if bestsize <? k then (i + 1 - k, j + 1 - k, k) else best in
        inner_loop js' i blo bhi j2len newj2len best
  end.

(** [for i in range(alo, ahi)], [n] rows still to do. *)
Fixpoint outer_loop (n i blo bhi : nat) (j2len : j2len_t) (best : Match) : Match :=
  match n with
  | 0 => best
  | S n' =>
      let '(newj2len, best) :=
        inner_loop (b2j_get b2j (nth i a zero)) i blo bhi j2len [] best in
      outer_loop n' (S i) blo bhi newj2len best
  end.

(** [while besti > alo and bestj > blo and ok(b[bestj-1]) and
    a[besti-1] == b[bestj-1]] *)
Fixpoint extend_left (ok : ascii -> bool) (alo blo besti bestj bestsize : nat) : Match :=
  match besti, bestj with
  | S i', S j' =>
      if (alo <? besti) && (blo <? bestj) && ok (nth j' b zero)
         && Ascii.eqb (nth i' a zero) (nth j' b zero)
      then extend_left ok alo blo i' j' (S bestsize)
      else (besti, bestj, bestsize)
  | _, _ => (besti, bestj, bestsize)
  end.

(** [while besti+bestsize < ahi and bestj+bestsize < bhi and
    ok(b[bestj+bestsize]) and a[besti+bestsize] == b[bestj+bestsize]];
    [room] is [ahi - (besti+bestsize)]. *)
Fixpoint extend_right (ok : ascii -> bool) (room bhi besti bestj bestsize : nat) : Match :=
  match room with
  | 0 => (besti, bestj, bestsize)
  | S room' =>
      if (bestj + bestsize <? bhi) && ok (nth (bestj + bestsize) b zero)
         && Ascii.eqb (nth (besti + bestsize) a zero) (nth (bestj + bestsize) b zero)
      then extend_right ok room' bhi besti bestj (S bestsize)
      else (besti, bestj, bestsize)
  end.

Definition find_longest_match (alo ahi blo bhi : nat) : Match :=
  let best := outer_loop (ahi - alo) alo blo bhi [] (alo, blo, 0) in
  let notjunk := fun c => negb (isbjunk c) in
  let '(besti, bestj, bestsize) := best in
  let '(besti, bestj, bestsize) := extend_left notjunk alo blo besti bestj bestsize in
  let '(besti, bestj, bestsize) :=
    extend_right notjunk (ahi - (besti + bestsize)) bhi besti bestj bestsize in
  let '(besti, bestj, bestsize) := extend_left isbjunk alo blo besti bestj bestsize in
  extend_right isbjunk (ahi - (besti + bestsize)) bhi besti bestj bestsize.

(** The [while queue:] loop; the head of [queue] is the element [pop()]
    returns. [None] when [fuel] runs out. *)
Fixpoint blocks_loop (fuel : nat) (queue : list (nat * nat * nat * nat))
         (matching_blocks : list Match) : option (list Match) :=
  match queue with
  | [] => Some matching_blocks
  | (alo, ahi, blo, bhi) :: queue =>
      match fuel with
      | 0 => None
      | S fuel' =>
          let '(i, j, k) := find_longest_match alo ahi blo bhi in
          if k =? 0 then blocks_loop fuel' queue matching_blocks
          else
            let matching_blocks := matching_blocks ++ [(i, j, k)] in
            let queue := if (alo <? i) && (blo <? j) then (alo, i, blo, j) :: queue else queue in
            let queue :=
              if (i + k <? ahi) && (j + k <? bhi) then (i + k, ahi, j + k, bhi) :: queue
              else queue in
            blocks_loop fuel' queue matching_blocks
      end
  end.
End Matcher.

(** Tuple order, as [list.sort] uses it. *)
Definition match_leb (x y : Match) : bool :=
  let '(i1, j1, k1) := x in
  let '(i2, j2, k2) := y in
  (i1 <? i2) || ((i1 =? i2) && ((j1 <? j2) || ((j1 =? j2) && (k1 <=? k2)))).

Fixpoint insert_sorted (x : Match) (l : list Match) : list Match :=
  match l with
  | [] => [x]
  | y :: l' => if match_leb x y then x :: l else y :: insert_sorted x l'
  end.

Definition sort (l : list Match) : list Match := fold_right insert_sorted [] l.

(** Collapsing adjacent blocks. *)
Fixpoint collapse (blocks : list Match) (i1 j1 k1 : nat) (non_adjacent : list Match)
  : list Match :=
  match blocks with
  | [] => if k1 =? 0 then non_adjacent else non_adjacent ++ [(i1, j1, k1)]
  | (i2, j2, k2) :: blocks' =>
      if (i1 + k1 =? i2) && (j1 + k1 =? j2) then collapse blocks' i1 j1 (k1 + k2) non_adjacent
      else
        let non_adjacent := if k1 =? 0 then non_adjacent else non_adjacent ++ [(i1, j1, k1)] in
        collapse blocks' i2 j2 k2 non_adjacent
  end.

Definition get_matching_blocks (a b : str) : option (list Match) :=
  let la := length a in
  let lb := length b in
  match blocks_loop a b (chain_b b) (2 * la + 1) [(0, la, 0, lb)] [] with
  | Some matching_blocks =>
      let non_adjacent := collapse (sort matching_blocks) 0 0 0 [] in
      Some (non_adjacent ++ [(la, lb, 0)])
  | None => None
  end.

(** [_calculate_ratio] *)
Definition calculate_ratio (matches length : nat) : Q :=
  if length =? 0 then 1%Q else (Qn 2 * Qn matches / Qn length)%Q.

Definition sum_sizes (blocks : list Match) : nat :=
  fold_left (fun acc (t : Match) => acc + snd t) blocks 0.

(** [ratio()]; the fuel of [get_matching_blocks] always suffices
    ([get_matching_blocks_total]). *)
Definition ratio (a b : str) : Q :=
  match get_matching_blocks a b with
  | Some blocks => calculate_ratio (sum_sizes blocks) (length a + length b)
  | None => 0%Q
  end.

End Difflib.

Definition fuzzy_match_score (text1 text2 : str) : Q :=
  Difflib.ratio (lower text1) (lower text2).

Record SkillMatchResult : Type := {
  matched_skills : list str;
  skill_evidence : dict (list str);
  confidence_scores : dict Q;
  total_jd_skills : nat;
  match_rate : Q
}.

Section FindSkillMatches.
Variable resume_text : str.
Variable resume_skills : list str.

Definition resume_text_lower : str := lower resume_text.

(** The snippet around one match: [resume_text[start:end].strip()]. *)
Definition snippet (m : nat * nat) : str :=
  let start := Nat.max 0 (fst m - 30) in
  let end_ := Nat.min (length resume_text) (snd m + 30) in
  strip (slice resume_text start end_).

(** One pass of [for variant in jd_skill_variants]. *)
Definition text_step (st : Q * list str) (variant : str) : Q * list str :=
  let '(best_match_score, evidence_snippets) := st in
  if contains resume_text_lower variant then
    let best_match_score := Qmax best_match_score 1 in
    let matches := finditer (escape variant) resume_text_lower in
    (best_match_score, evidence_snippets ++ map snippet matches)
  else st.

(** The body of the innermost loop of the cross-matching. *)
Definition variant_step (jd_variant : str) (best_match_score : Q) (resume_variant : str) : Q :=
  if str_eqb jd_variant resume_variant then Qmax best_match_score 1
  else
    let fuzzy_score := fuzzy_match_score jd_variant resume_variant in
    if Qle_bool 0.85 fuzzy_score then Qmax best_match_score fuzzy_score
    else best_match_score.

(** One pass of [for resume_skill in resume_skills]. *)
Definition skill_step (jd_skill_variants : list str) (best_match_score : Q) (resume_skill : str) : Q :=
  let resume_variants := create_skill_variants resume_skill in
  fold_left
    (fun best jd_variant => fold_left (variant_step jd_variant) resume_variants best)
    jd_skill_variants best_match_score.

(** The partial multi-word fallback, [if best_match_score < 0.5: ...]. *)
Definition partial_step (jd_skill : str) (best_match_score : Q) : res Q :=
  if Qltb best_match_score 0.5 then
    let jd_words := set_of (split (lower jd_skill)) in
    let resume_words := set_of (split resume_text_lower) in
    if 1 <? length jd_words then
      let word_matches := intersection jd_words resume_words in
      if Qle_bool (Qn (length jd_words) * 0.6) (Qn (length word_matches)) then
        ratio <- py_div (Qn (length word_matches)) (Qn (length jd_words)) ;;
        let partial_score := (ratio * 0.7)%Q in
        Ok (Qmax best_match_score partial_score)
      else Ok best_match_score
    else Ok best_match_score
  else Ok best_match_score.

(** The final [best_match_score] and the evidence collected for one JD
    skill, before the threshold test. *)
Definition score_skill (jd_skill : str) : res (Q * list str) :=
  let jd_skill_variants := create_skill_variants jd_skill in
  let '(best_match_score, evidence_snippets) :=
    fold_left text_step jd_skill_variants (0%Q, []) in
  let best_match_score :=
    fold_left (skill_step jd_skill_variants) resume_skills best_match_score in
  best_match_score <- partial_step jd_skill best_match_score ;;
  Ok (best_match_score, evidence_snippets).

(** The three accumulators of the main loop. *)
Definition acc_t : Type := (list str * dict (list str) * dict Q)%type.

(** [for jd_skill in jd_skills] *)
Fixpoint match_loop (jd_skills : list str) (acc : acc_t) : res acc_t :=
  match jd_skills with
  | [] => Ok acc
  | jd_skill :: rest =>
      let '(matched_skills, skill_evidence, confidence_scores) := acc in
      r <- score_skill jd_skill ;;
      let '(best_match_score, evidence_snippets) := r in
      if Qle_bool 0.5 best_match_score then
        match_loop rest
          (matched_skills ++ [jd_skill],
           dict_set skill_evidence jd_skill (firstn 3 evidence_snippets),
           dict_set confidence_scores jd_skill best_match_score)
      else match_loop rest acc
  end.

Definition find_skill_matches (jd_skills : list str) : res SkillMatchResult :=
  acc <- match_loop jd_skills ([], [], []) ;;
  let '(matched_skills, skill_evidence, confidence_scores) := acc in
  rate <- py_div (Qn (length matched_skills)) (Qn (Nat.max 1 (length jd_skills))) ;;
  Ok {| matched_skills := matched_skills;
        skill_evidence := skill_evidence;
        confidence_scores := confidence_scores;
        total_jd_skills := length jd_skills;
        match_rate := rate |}.
End FindSkillMatches.

(* ------------------------------------------------------------------ *)
(** ** scoring.py *)

(** The values a component-score dict holds. *)
Inductive pyval : Type :=
| VNum (q : Q)
| VList (l : list str)
| VEvidence (d : dict (list str))
| VConf (d : dict Q)
| VStats (d : dict Q).

Definition Qleb (x y : Q) : bool := Qle_bool x y.

(** [max(seq)] raises [ValueError] on an empty sequence. *)
Definition py_max (l : list Q) : res Q :=
  match l with
  | [] => Raise ValueError
  | x :: l' => Ok (fold_left Qmax l' x)
  end.

(** Rounding to the nearest integer, ties to the even one. *)
Definition round_half_even (x : Q) : Z :=
  let f := Qfloor x in
  match Qcompare (x - inject_Z f)%Q (1 # 2)%Q with
  | Lt => f
  | Gt => (f + 1)%Z
  | Eq => if Z.even f then f else (f + 1)%Z
  end.

(** [round(x, ndigits)] *)
Definition py_round (x : Q) (ndigits : nat) : Q :=
  let scale := inject_Z (10 ^ Z.of_nat ndigits) in
  (inject_Z (round_half_even (x * scale)) / scale)%Q.

(** The number of items of [l] that pass [f]: [sum(1 for x in l if f x)]. *)
Definition count_if {A : Type} (f : A -> bool) (l : list A) : nat := length (filter f l).

Definition experience_keywords : list str :=
  map lit ["experience"; "worked"; "developed"; "built"; "created"; "managed"; "led";
           "implemented"]%string.

(** The curve on [technical_years]. *)
Definition experience_duration_score (technical_years : Q) : Q :=
  if Qleb 5 technical_years then 1.0%Q
  else if Qleb 3 technical_years then (0.8 + (technical_years - 3) * 0.1)%Q
  else if Qleb 1 technical_years then (0.4 + (technical_years - 1) * 0.2)%Q
  else if Qleb 0.5 technical_years then (0.2 + (technical_years - 0.5) * 0.4)%Q
  else (technical_years * 0.4)%Q.

(** The curve as the scorer evaluates it. From 0.5 years on the operand of
    the float arithmetic is below 5. Below 0.5 years the last branch
    multiplies [technical_years] itself by 0.4, which converts an int to a
    float and raises when the int is too large. *)
Definition experience_duration_score_of (technical_years : Q) : res Q :=
  if Qleb 0.5 technical_years then Ok (experience_duration_score technical_years)
  else
    _ <- to_float technical_years ;;
    Ok (experience_duration_score technical_years).

(** A character set under [re.IGNORECASE]. *)
Definition iset (cs : string) (c : ascii) : bool :=
  existsb (fun x => Ascii.eqb (lower_char c) (lower_char x)) (lit cs).
Arguments iset cs%_string c.

Definition pct : ascii := "%"%char.
Definition dollar : ascii := "$"%char.

(** The patterns are compiled with [re.IGNORECASE]. *)
Definition impact_indicators : list regex :=
  [ (* \d+%\s*(?:increase|improvement|reduction|growth|faster|better) *)
    seqs [plus isdigit; chr pct; star isspace;
          alts [iword "increase"; iword "improvement"; iword "reduction"; iword "growth";
                iword "faster"; iword "better"]];
    (* \$\d+[kmb]?\s*(?:saved|revenue|budget|cost) *)
    seqs [chr dollar; plus isdigit; opt (Cls (iset "kmb")); star isspace;
          alts [iword "saved"; iword "revenue"; iword "budget"; iword "cost"]];
    (* \d+\s*(?:users|customers|clients|projects|applications) *)
    seqs [plus isdigit; star isspace;
          alts [iword "users"; iword "customers"; iword "clients"; iword "projects";
                iword "applications"]];
    (* (?:increased|improved|reduced|optimized|enhanced).*?\d+ *)
    seqs [alts [iword "increased"; iword "improved"; iword "reduced"; iword "optimized";
                iword "enhanced"];
          lazy_star dot; plus isdigit];
    (* \d+x\s*(?:faster|improvement|increase) *)
    seqs [plus isdigit; ichr "x"%char; star isspace;
          alts [iword "faster"; iword "improvement"; iword "increase"]];
    (* (?:led|managed)\s+(?:team of\s+)?\d+ *)
    seqs [alts [iword "led"; iword "managed"]; plus isspace;
          opt (seqs [iword "team of"; plus isspace]); plus isdigit]
  ].

Definition action_verbs : list str :=
  map lit ["developed"; "built"; "created"; "designed"; "implemented"; "optimized";
           "improved"; "led"; "managed"]%string.

Definition project_indicators : list regex :=
  [ (* \b(?:project|projects|portfolio|github|personal\s+work)\b *)
    seqs [Wordb;
          alts [iword "project"; iword "projects"; iword "portfolio"; iword "github";
                seqs [iword "personal"; plus isspace; iword "work"]];
          Wordb];
    (* \b(?:built|created|developed).*?(?:application|app|website|system|tool)\b *)
    seqs [Wordb; alts [iword "built"; iword "created"; iword "developed"]; lazy_star dot;
          alts [iword "application"; iword "app"; iword "website"; iword "system";
                iword "tool"];
          Wordb];
    (* \b(?:side\s+project|open\s+source|hackathon|competition)\b *)
    seqs [Wordb;
          alts [seqs [iword "side"; plus isspace; iword "project"];
                seqs [iword "open"; plus isspace; iword "source"];
                iword "hackathon"; iword "competition"];
          Wordb]
  ].

Definition education_indicators : dict Q :=
  map (fun e : string * Q => (lit (fst e), snd e))
  [ ("phd", 1.0); ("ph.d", 1.0); ("doctorate", 1.0); ("master", 0.9); ("m.s", 0.9);
    ("msc", 0.9); ("mba", 0.8); ("bachelor", 0.7); ("b.s", 0.7); ("bsc", 0.7);
    ("associate", 0.5); ("certification", 0.4); ("bootcamp", 0.4); ("diploma", 0.3)
  ]%string%Q.

Definition job_types : dict (list str) :=
  map (fun e : string * list string => (lit (fst e), map lit (snd e)))
  [ ("frontend", ["frontend"; "front-end"; "react"; "vue"; "angular"; "javascript"; "html"; "css"]);
    ("backend", ["backend"; "back-end"; "api"; "server"; "database"; "python"; "java"; "node"]);
    ("fullstack", ["fullstack"; "full-stack"; "full stack"]);
    ("devops", ["devops"; "infrastructure"; "aws"; "docker"; "kubernetes"; "ci/cd"]);
    ("data", ["data science"; "machine learning"; "analytics"; "python"; "sql"; "statistics"]);
    ("mobile", ["mobile"; "ios"; "android"; "react native"; "flutter"; "swift"; "kotlin"])
  ]%string.

(** The evidence of one matched skill mentions experience:
    [any(keyword in snippet.lower() ...)] for some snippet. *)
Definition has_context (evidence : list str) : bool :=
  existsb (fun snippet =>
             let snippet_lower := lower snippet in
             existsb (fun keyword => contains snippet_lower keyword) experience_keywords)
          evidence.

(** [for term, score in education_indicators.items(): ... break] *)
Fixpoint education_scan (tbl : dict Q) (resume_lower : str) (education_score : Q) : Q :=
  match tbl with
  | [] => education_score
  | (term, score) :: tbl' =>
      if contains resume_lower term then Qmax education_score score
      else education_scan tbl' resume_lower education_score
  end.

(** [for job_type, keywords in job_types.items()] *)
Fixpoint job_type_scan (tbl : dict (list str)) (job_desc_lower resume_lower : str)
         (job_type_matches : dict (Q * nat)) : res (dict (Q * nat)) :=
  match tbl with
  | [] => Ok job_type_matches
  | (job_type, keywords) :: tbl' =>
      let job_match_count := count_if (fun keyword => contains job_desc_lower keyword) keywords in
      let resume_match_count := count_if (fun keyword => contains resume_lower keyword) keywords in
      if 0 <? job_match_count then
        r <- py_div (Qn resume_match_count) (Qn (length keywords)) ;;
        job_type_scan tbl' job_desc_lower resume_lower
                      (dict_set job_type_matches job_type (r, job_match_count))
      else job_type_scan tbl' job_desc_lower resume_lower job_type_matches
  end.

Definition impact_score_of (impact_count : nat) (resume_text : str) : Q :=
  if 5 <=? impact_count then 1.0%Q
  else if 3 <=? impact_count then 0.8%Q
  else if 1 <=? impact_count then 0.6%Q
  else
    let action_count := count_if (fun verb => contains (lower resume_text) verb) action_verbs in
    Qmin 0.4 (Qn action_count * 0.05).

(** [impact_count] after the loop over the impact patterns. *)
Definition impact_count_of (resume_text : str) : nat :=
  fold_left (fun n pattern => n + findall_count pattern resume_text) impact_indicators 0.

(** [project_score]: 0.3 for each project pattern found, at most 1.0. *)
Definition project_score_of (resume_text : str) : Q :=
  let project_score :=
    fold_left (fun s pattern => if search pattern resume_text then (s + 0.3)%Q else s)
              project_indicators 0%Q in
  Qmin 1.0 project_score.

(** [d.get(k, 0)] on the experience summary. *)
Definition get_or_zero (d : dict Q) (k : str) : Q :=
  match dict_get d k with Some v => v | None => 0%Q end.

(** The dict that [compute_enhanced_component_scores] returns. *)
Definition component_record
           (skill_analysis : SkillMatchResult)
           (skill_match_score skill_context_score experience_duration_score impact_score
            project_score education_score relevance_score total_years technical_years : Q)
           (total_jd_skills : nat) (average_confidence : Q) (impact_count : nat)
  : dict pyval :=
  [ (lit "skill_match_score", VNum skill_match_score);
    (lit "skill_context_score", VNum skill_context_score);
    (lit "experience_duration_score", VNum experience_duration_score);
    (lit "impact_score", VNum impact_score);
    (lit "project_score", VNum project_score);
    (lit "education_score", VNum education_score);
    (lit "relevance_score", VNum relevance_score);
    (lit "matched_skills", VList (matched_skills skill_analysis));
    (lit "skill_evidence", VEvidence (skill_evidence skill_analysis));
    (lit "confidence_scores", VConf (confidence_scores skill_analysis));
    (lit "years_experience_estimate", VNum total_years);
    (lit "technical_years_estimate", VNum technical_years);
    (lit "total_jd_skills", VNum (Qn total_jd_skills));
    (lit "match_statistics",
     VStats [ (lit "skills_matched", Qn (length (matched_skills skill_analysis)));
              (lit "skills_with_evidence",
               Qn (count_if (fun s : list str => 0 <? length s)
                            (dict_values (skill_evidence skill_analysis))));
              (lit "average_confidence", average_confidence);
              (lit "impact_indicators_found", Qn impact_count) ]) ].

Definition compute_enhanced_component_scores
           (job_desc resume_text : str) (jd_skills resume_skills : list str)
           (experience_data : dict Q) : res (dict pyval) :=
  skill_analysis <- find_skill_matches resume_text resume_skills jd_skills ;;
  let base_match_rate := match_rate skill_analysis in
  confidence_weighted_score <-
    match confidence_scores skill_analysis with
    | [] => Ok 0%Q
    | _ :: _ =>
        let total_weight := Qsum (dict_values (confidence_scores skill_analysis)) in
        if Qltb 0 total_weight then py_div total_weight (Qn (length jd_skills)) else Ok 0%Q
    end ;;
  let skill_match_score := (base_match_rate * 0.7 + confidence_weighted_score * 0.3)%Q in
  let skill_match_score := Qmin 1.0 skill_match_score in

  let total_matched_skills := length (matched_skills skill_analysis) in
  let skills_with_context :=
    if 0 <? total_matched_skills then
      count_if (fun skill =>
                  match dict_get (skill_evidence skill_analysis) skill with
                  | Some evidence => has_context evidence
                  | None => has_context []
                  end)
               (matched_skills skill_analysis)
    else 0 in
  skill_context_score <-
    (if 0 <? total_matched_skills
     then py_div (Qn skills_with_context) (Qn (Nat.max 1 total_matched_skills))
     else Ok 0%Q) ;;

  let total_years := get_or_zero experience_data (lit "total_years_experience") in
  let technical_years := get_or_zero experience_data (lit "technical_years_experience") in
  experience_duration_score <- experience_duration_score_of technical_years ;;

  let impact_count := impact_count_of resume_text in
  let impact_score := impact_score_of impact_count resume_text in

  let project_score := project_score_of resume_text in

  let resume_lower := lower resume_text in
  let education_score := education_scan education_indicators resume_lower 0.3%Q in

  let job_desc_lower := lower job_desc in
  job_type_matches <- job_type_scan job_types job_desc_lower resume_lower [] ;;
  relevance_score <-
    match job_type_matches with
    | [] => Ok 0.5%Q
    | _ :: _ =>
        m <- py_max (map fst (dict_values job_type_matches)) ;;
        Ok (Qmin 1.0 (m + 0.3))%Q
    end ;;
  average_confidence <-
    py_div (Qsum (dict_values (confidence_scores skill_analysis)))
           (Qn (Nat.max 1 (length (confidence_scores skill_analysis)))) ;;
  Ok (component_record skill_analysis skill_match_score skill_context_score
                       experience_duration_score impact_score project_score education_score
                       relevance_score total_years technical_years (length jd_skills)
                       average_confidence impact_count).

Record AggregatedScore : Type := {
  score_0_100 : Q;
  score_0_10 : Q;
  per_component_0_10 : dict Q;
  weights_used : dict Q
}.

Definition weights : dict Q :=
  map (fun e : string * Q => (lit (fst e), snd e))
  [ ("skill_match_score", 0.25); ("skill_context_score", 0.15);
    ("experience_duration_score", 0.20); ("impact_score", 0.10); ("project_score", 0.10);
    ("education_score", 0.10); ("relevance_score", 0.10) ]%string%Q.

Definition endswith (s suffix : str) : bool := startswith (rev suffix) (rev s).

(** [isinstance(v, (int, float))] *)
Definition is_number (v : pyval) : bool :=
  match v with VNum _ => true | _ => false end.

(** The operand [v] of [weight * v] and of [v * 10.0]: the product with a
    float is defined on numbers only, and converts an int to a float. *)
Definition as_number (v : pyval) : res Q :=
  match v with VNum q => to_float q | _ => Raise TypeError end.

(** [for component, weight in weights.items()] *)
Fixpoint weighted_sum (ws : dict Q) (component_scores : dict pyval) (total_score : Q) : res Q :=
  match ws with
  | [] => Ok total_score
  | (component, weight) :: ws' =>
      match dict_get component_scores component with
      | Some v =>
          x <- as_number v ;;
          weighted_sum ws' component_scores (total_score + weight * x)%Q
      | None => weighted_sum ws' component_scores total_score
      end
  end.

(** The comprehension building [per_component_0_10]. *)
Fixpoint per_component (ks : list str) (component_scores : dict pyval) (out : dict Q)
  : res (dict Q) :=
  match ks with
  | [] => Ok out
  | k :: ks' =>
      match dict_get component_scores k with
      | Some v =>
          x <- as_number v ;;
          per_component ks' component_scores (dict_set out k (py_round (x * 10.0) 1))
      | None => per_component ks' component_scores out
      end
  end.

(** [total_score] after the loop over the weights. *)
Definition raw_total (component_scores : dict pyval) : res Q :=
  weighted_sum weights component_scores 0.0%Q.

(** The number of numeric [*_score] entries above 0.3. *)
Definition component_count (component_scores : dict pyval) : nat :=
  let score_components :=
    filter (fun kv : str * pyval => endswith (fst kv) (lit "_score") && is_number (snd kv))
           component_scores in
  count_if (fun v => match v with VNum score => Qltb 0.3 score | _ => false end)
           (dict_values score_components).

(** The density bonus and penalty. *)
Definition density_adjust (component_count : nat) (total_score : Q) : Q :=
  if 5 <=? component_count then (total_score * 1.1)%Q
  else if component_count <=? 2 then (total_score * 0.9)%Q
  else total_score.

Definition aggregate_enhanced_scores (component_scores : dict pyval) : res AggregatedScore :=
  total_score <- raw_total component_scores ;;
  let total_score := density_adjust (component_count component_scores) total_score in
  let final_score_0_100 := Qmin 100.0 (total_score * 100) in
  let final_score_0_10 := py_round (final_score_0_100 / 10.0) 2 in
  per_component_0_10 <- per_component (map fst weights) component_scores [] ;;
  Ok {| score_0_100 := py_round final_score_0_100 1;
        score_0_10 := final_score_0_10;
        per_component_0_10 := per_component_0_10;
        weights_used := weights |}.

(* ------------------------------------------------------------------ *)
(** ** utils.py *)

(** [re.sub(r, repl, s)]: each match gives way to [repl]. The patterns it is
    used with match no empty string. *)
Fixpoint sub_repl (r : regex) (repl : str) (prev : option ascii) (s : str) (skip : nat) : str :=
  match skip with
  | S k =>
      match s with
      | c :: s' => sub_repl r repl (Some c) s' k
      | [] => []
      end
  | 0 =>
      match match_here r prev s with
      | Some rest =>
          repl ++
          match length s - length rest with
          | 0 => match s with c :: s' => c :: sub_repl r repl (Some c) s' 0 | [] => [] end
          | S k => match s with c :: s' => sub_repl r repl (Some c) s' k | [] => [] end
          end
      | None =>
          match s with
          | c :: s' => c :: sub_repl r repl (Some c) s' 0
          | [] => []
          end
      end
  end.

Definition sub (r : regex) (repl : str) (s : str) : str := sub_repl r repl None s 0.

Definition dquote : ascii := ascii_of_nat 34.
Definition backslash : ascii := ascii_of_nat 92.

(** The nine characters that the class of [sanitize_filename] names. *)
Definition reserved : list ascii :=
  ["<"; ">"; ":"; dquote; "/"; backslash; "|"; "?"; "*"]%char.

(** The class of [sanitize_filename]: the nine characters, and the range
    from code 0 to code 31. *)
Definition forbidden (c : ascii) : bool :=
  existsb (Ascii.eqb c) reserved || (nat_of_ascii c <=? 31).

Definition sanitize_filename (name : str) : str :=
  let cleaned := strip (sub_empty (Cls forbidden) name) in
  let cleaned := sub (plus isspace) (lit "_") cleaned in
  if 100 <? length cleaned then firstn 100 cleaned else cleaned.

(* ------------------------------------------------------------------ *)
(** ** llm_utils.py *)

(** An item of the [skills] array of the model's JSON answer: a string, or
    any other JSON value. *)
Inductive json : Type :=
| JStr (s : str)
| JOther.

(** One pass of [for skill in skills] in [extract_skills_with_gemini]. *)
Definition clean_step (clean_skills : list str) (skill : json) : list str :=
  match skill with
  | JStr skill =>
      if 1 <? length (strip skill) then
        let clean_skill := strip skill in
        if existsb (fun existing => str_eqb (lower clean_skill) (lower existing)) clean_skills
        then clean_skills
        else clean_skills ++ [clean_skill]
      else clean_skills
  | JOther => clean_skills
  end.

(** [clean_skills[:max_skills]], what [extract_skills_with_gemini] returns
    when the model answers. *)
Definition clean_skills (skills : list json) (max_skills : nat) : list str :=
  firstn max_skills (fold_left clean_step skills []).

(** [for s in v]: the items of a list, the keys of a dict. *)
Definition py_iter (v : pyval) : res (list str) :=
  match v with
  | VList l => Ok l
  | VEvidence d => Ok (map fst d)
  | VConf d => Ok (map fst d)
  | VStats d => Ok (map fst d)
  | VNum _ => Raise TypeError
  end.

(** [s not in v] *)
Definition py_not_in (s : str) (v : pyval) : res bool :=
  l <- py_iter v ;; Ok (negb (mem s l)).

(** [[s for s in l if s not in v]] *)
Fixpoint not_in_filter (l : list str) (v : pyval) : res (list str) :=
  match l with
  | [] => Ok []
  | s :: l' =>
      b <- py_not_in s v ;;
      rest <- not_in_filter l' v ;;
      Ok (if b then s :: rest else rest)
  end.

(** [d.get(k, default)] *)
Definition get_default (d : dict pyval) (k : str) (default : pyval) : pyval :=
  match dict_get d k with Some v => v | None => default end.

(** The first two lines of [generate_enhanced_llm_justification]. *)
Definition missing_skills (skill_analysis : dict pyval) : res (list str) :=
  let matched_skills := get_default skill_analysis (lit "matched_skills") (VList []) in
  all_jd_skills <- py_iter (get_default skill_analysis (lit "all_jd_skills") (VList [])) ;;
  not_in_filter all_jd_skills matched_skills.

(** The decision of the fallback justification. *)
Definition fallback_decision (final_score_0_10 : Q) : str :=
  if Qleb 7.5 final_score_0_10 then lit "Strong Recommend"
  else if Qleb 6.5 final_score_0_10 then lit "Recommend"
  else if Qleb 5.0 final_score_0_10 then lit "Consider"
  else lit "Not Recommended".

(** Two entries of the fallback justification. *)
Definition areas_for_improvement (missing_skills : list str) : list str :=
  match missing_skills with
  | [] => [lit "Continue skill development"]
  | _ :: _ => firstn 2 missing_skills
  end.

Definition skill_gaps (missing_skills : list str) : list str := firstn 3 missing_skills.

(* ------------------------------------------------------------------ *)
(** ** service.py and app.py *)

(** The [skill_analysis] that [process_single_resume_enhanced] hands to
    [generate_enhanced_llm_justification]. *)
Definition service_skill_analysis (component_scores : dict pyval) (jd_skills_local : list str)
  : dict pyval :=
  [ (lit "matched_skills", get_default component_scores (lit "matched_skills") (VList []));
    (lit "confidence_scores", get_default component_scores (lit "confidence_scores") (VConf []));
    (lit "total_jd_skills", VNum (Qn (length jd_skills_local)));
    (lit "match_statistics", get_default component_scores (lit "match_statistics") (VStats [])) ].

(** The [missing_requirements] of the response. *)
Definition missing_requirements (jd_skills_local : list str) (component_scores : dict pyval)
  : res (list str) :=
  not_in_filter jd_skills_local (get_default component_scores (lit "matched_skills") (VList [])).

(** The test that decides on a feedback report; [recommendation] is the
    lower-cased decision. *)
Definition feedback_report_due (recommendation : str) (score_0_10 : Q) : bool :=
  contains recommendation (lit "not recommended") || Qltb score_0_10 6.0.

(** [should_recommend] of the batch endpoint; [decision] is the lower-cased
    decision. *)
Definition should_recommend (score : Q) (decision : str) : bool :=
  (Qleb 6.5 score
   && existsb (fun keyword => contains decision keyword)
              [lit "strong recommend"; lit "recommend"])
  || Qleb 7.5 score.

(* ------------------------------------------------------------------ *)
(** ** parsing.py *)

Definition bytes := list Byte.byte.

Record UploadFile : Type := {
  filename : option str;
  file : bytes
}.

Record HTTPException : Type := {
  status_code : nat;
  detail : str
}.

Section ParseResumeFile.
(** The two extractors call the PDF and DOCX libraries. Each returns the
    text, or raises; [inr] holds [str(e)] of the exception. *)
Variable extract_text_from_pdf_bytes : bytes -> str + str.
Variable extract_text_from_docx_bytes : bytes -> str + str.

(** The result is the pair of [text] and [filename]. *)
Definition parse_resume_file (upload_file : UploadFile) : (str * str) + HTTPException :=
  let name := match filename upload_file with
              | Some (c :: n) => c :: n
              | _ => lit "uploaded_resume"
              end in
  let fname_low := lower name in
  if negb (endswith fname_low (lit ".pdf") || endswith fname_low (lit ".docx")) then
    inr {| status_code := 400;
           detail := lit "Invalid file type for '" ++ name
                     ++ lit "'. Only PDF and DOCX files are allowed." |}
  else
    let contents := file upload_file in
    if length contents =? 0 then
      inr {| status_code := 400; detail := lit "Empty file uploaded." |}
    else
      match (if endswith fname_low (lit ".pdf")
             then extract_text_from_pdf_bytes contents
             else extract_text_from_docx_bytes contents) with
      | inr e =>
          inr {| status_code := 500; detail := lit "Error processing file: " ++ e |}
      | inl text =>
          if match text with [] => true | _ :: _ => false end
             || (length (strip text) <? 50)
          then inr {| status_code := 400;
                      detail := lit "Could not extract meaningful text from the resume." |}
          else inl (text, name)
      end.
End ParseResumeFile.

(* ================================================================== *)
(** * Part II: the vocabulary of the properties *)
(* ================================================================== *)

Unset Implicit Arguments.

(** ** Component records *)

Section RecordVocabulary.
Local Open Scope Q_scope.


(** The record of the seven weighted components, each 1.0. *)
Definition seven_ones : dict pyval := map (fun kw : str * Q => (fst kw, VNum 1.0)) weights.

(** An experience summary with negative technical years. *)
Definition negative_years : dict Q := [(lit "technical_years_experience", -5)].

(** A component record whose only non-zero entry is a negative experience
    score. *)
Definition negative_experience : dict pyval :=
  map (fun kw : str * Q =>
         (fst kw,
          VNum (if str_eqb (fst kw) (lit "experience_duration_score") then -1 else 0)))
      weights.

(** [x] is a float, or an int that [float] converts. *)
Definition convertible (x : Q) : Prop := - float_limit < x /\ x < float_limit.

(** The entries of [cs] under the keys [ks] are such numbers. *)
Definition float_on (ks : list str) (cs : dict pyval) : Prop :=
  forall k v, In k ks -> dict_get cs k = Some v -> exists q, v = VNum q /\ convertible q.

(** An experience summary whose technical years are a negative int that no
    float holds, -10^400. *)
Definition huge_negative_years : dict Q :=
  [(lit "technical_years_experience", - inject_Z (10 ^ 400))].

(** A component record with an int that no float holds, 10^400. *)
Definition huge_component : dict pyval :=
  [(lit "skill_match_score", VNum (inject_Z (10 ^ 400)))].

(** The entries of [cs] under the keys [ks] are numbers, none negative. *)
Definition nonneg_on (ks : list str) (cs : dict pyval) : Prop :=
  forall k v, In k ks -> dict_get cs k = Some v -> exists q, v = VNum q /\ 0 <= q.

(** [v'] is [v], or a number no smaller than the non-negative number [v]. *)
Definition value_le (v v' : pyval) : Prop :=
  match v, v' with
  | VNum q, VNum q' => 0 <= q /\ q <= q'
  | _, _ => v = v'
  end.

(** [cs'] has the keys of [cs] in the same order, and under each key a value
    that is the same or a larger number. *)
Definition scores_le (cs cs' : dict pyval) : Prop :=
  Forall2 (fun kv kv' : str * pyval => fst kv = fst kv' /\ value_le (snd kv) (snd kv'))
          cs cs'.

(** The record of the seven weighted components, each 0.5. *)
Definition seven_halves : dict pyval := map (fun kw : str * Q => (fst kw, VNum 0.5)) weights.

End RecordVocabulary.

(** ** The alias table *)

(** [x] is listed as an alias under both canonical keys. *)
Definition shared_alias (c1 c2 x : str) : Prop :=
  exists a1 a2,
    dict_get SKILL_ALIASES c1 = Some a1 /\ dict_get SKILL_ALIASES c2 = Some a2 /\
    In x a1 /\ In x a2.

(** Every (key, key, alias) of two different entries with a common alias. *)
Definition shared_aliases (tbl : dict (list str)) : list (str * str * str) :=
  flat_map
    (fun e1 : str * list str =>
       flat_map
         (fun e2 : str * list str =>
            if str_eqb (fst e1) (fst e2) then []
            else map (fun x => (fst e1, fst e2, x)) (intersection (snd e1) (snd e2)))
         tbl)
    tbl.

(** ** The matcher *)

Section MatcherVocabulary.
Variable resume_text : str.
Variable resume_skills : list str.

(** The final best-match confidence of one JD skill. *)
Definition final_confidence (jd_skill : str) : Q :=
  match score_skill resume_text resume_skills jd_skill with
  | Ok (best, _) => best
  | Raise _ => 0%Q
  end.

(** The snippets collected for one JD skill, before truncation. *)
Definition collected_evidence (jd_skill : str) : list str :=
  match score_skill resume_text resume_skills jd_skill with
  | Ok (_, evidence) => evidence
  | Raise _ => []
  end.

(** The snippets that one variant adds. *)
Definition text_evidence (variant : str) : list str :=
  if contains (lower resume_text) variant
  then map (snippet resume_text) (finditer (escape variant) (lower resume_text))
  else [].

(** The best score of one JD skill before the word-overlap fallback. *)
Definition confidence_before_words (jd_skill : str) : Q :=
  fold_left (skill_step (create_skill_variants jd_skill)) resume_skills
            (fst (fold_left (text_step resume_text) (create_skill_variants jd_skill)
                            (0%Q, []))).

(** The distinct words of a JD skill, and those of them that are words of the
    resume text. *)
Definition jd_words (jd_skill : str) : list str := set_of (split (lower jd_skill)).

Definition shared_words (jd_skill : str) : list str :=
  intersection (jd_words jd_skill) (set_of (split (lower resume_text))).

(** The threshold test of the main loop. *)
Definition is_matched (jd_skill : str) : bool := Qleb 0.5 (final_confidence jd_skill).

(** What the accumulators satisfy all along the main loop. *)
Definition acc_ok (acc : acc_t) : Prop :=
  let '(matched, evidence, confidence) := acc in
  (forall s, In s matched ->
             exists ev, dict_get evidence s = Some ev /\
                        dict_get confidence s = Some (final_confidence s)) /\
  (forall s ev, dict_get evidence s = Some ev ->
                ev = firstn 3 (collected_evidence s) /\ In s matched) /\
  (forall s c, dict_get confidence s = Some c -> In s matched).

End MatcherVocabulary.

(** ** Action verbs *)

(** The count the claim words: every occurrence of an action verb in the
    lower-cased text. *)
Definition action_verb_occurrences (resume_text : str) : nat :=
  fold_left (fun n verb => (n + findall_count (escape verb) (lower resume_text))%nat)
            action_verbs 0%nat.

(** The count the code takes: the action verbs that occur at all. *)
Definition action_verbs_present (resume_text : str) : nat :=
  count_if (fun verb => contains (lower resume_text) verb) action_verbs.

(** ** Blank-free ends and lower case *)

(** The character before the current position is a blank. *)
Definition isspace_opt (c : option ascii) : bool :=
  match c with Some x => isspace x | None => false end.

(** The last character of [s] is not blank; for an empty [s], the character
    [prev] before it is not. *)
Definition last_ok (prev : option ascii) (s : str) : Prop :=
  match rev s with
  | c :: _ => isspace c = false
  | [] => isspace_opt prev = false
  end.

(** [s] does not start, does not end, with a blank. *)
Definition no_lead (s : str) : Prop :=
  match s with c :: _ => isspace c = false | [] => True end.

Definition no_trail (s : str) : Prop := no_lead (rev s).

Definition trimmed (s : str) : Prop := no_lead s /\ no_trail s.

(** [lower] leaves every character of [s] as it is. *)
Definition lowered (s : str) : Prop := Forall (fun c => lower_char c = c) s.

(** The string the alias table is asked about. *)
Definition cleaned (skill : str) : str :=
  sub_empty trailing_suffix (sub_empty filler_prefix (strip (lower skill))).

(** ** SequenceMatcher *)

Section DifflibVocabulary.
Import Difflib.

(** The block [(i, j, k)] lies inside [a[alo:ahi]] and [b[blo:bhi]]. *)
Definition box (alo ahi blo bhi : nat) (m : Match) : Prop :=
  let '(i, j, k) := m in alo <= i /\ i + k <= ahi /\ blo <= j /\ j + k <= bhi.

(** Every length recorded in a row fits above and to the left. *)
Definition bounded_row (d : j2len_t) (rows blo : nat) : Prop :=
  forall j, j2len_get d j <= rows /\ j2len_get d j <= j + 1 - blo.

(** A pending entry of the queue: [(alo, ahi, blo, bhi)]. *)
Definition window : Type := (nat * nat * nat * nat)%type.

Definition window_ok (w : window) : Prop :=
  let '(alo, ahi, blo, bhi) := w in alo <= ahi /\ blo <= bhi.

(** Characters of [a], and of [b], still to be examined. *)
Definition a_room (q : list window) : nat :=
  list_sum (map (fun w : window => let '(alo, ahi, _, _) := w in ahi - alo) q).

Definition b_room (q : list window) : nat :=
  list_sum (map (fun w : window => let '(_, _, blo, bhi) := w in bhi - blo) q).

(** Iterations the loop may still need. *)
Definition steps (q : list window) : nat :=
  list_sum (map (fun w : window => let '(alo, ahi, _, _) := w in 2 * (ahi - alo) + 1) q).

(** The sum of the block sizes. *)
Definition total_size (blocks : list Match) : nat := list_sum (map snd blocks).

(** The positions of [c] in [b], counted from [i]. *)
Fixpoint indices (c : ascii) (b : str) (i : nat) : list nat :=
  match b with
  | [] => []
  | x :: b' => if Ascii.eqb x c then i :: indices c b' (S i) else indices c b' (S i)
  end.

(** The block starts at the same index in both strings. *)
Definition diag (m : Match) : Prop := fst (fst m) = snd (fst m).

Variable s : str.

(** The element is indexed, that is, not purged as popular. *)
Definition indexed (c : ascii) : bool :=
  match b2j_get (chain_b s) c with [] => false | _ :: _ => true end.

(** The length of the run of indexed elements of [s] that ends at [x]. *)
Fixpoint run (x : nat) : nat :=
  if indexed (nth x s zero)
  then S (match x with 0 => 0 | S x' => run x' end)
  else 0.

(** The run that ends just before [x]. *)
Definition run_before (x : nat) : nat :=
  match x with 0 => 0 | S x' => run x' end.

End DifflibVocabulary.

(* ================================================================== *)
(** * Part III: properties *)
(* ================================================================== *)

(** ** Booleans on rationals *)

Lemma Qleb_true (x y : Q) : Qleb x y = true <-> (x <= y)%Q.
Proof. apply Qle_bool_iff. Qed.

Lemma Qleb_false (x y : Q) : Qleb x y = false <-> (y < x)%Q.
Proof.
  unfold Qleb. split; intro H.
  - apply Qnot_le_lt. intro Hle. apply Qle_bool_iff in Hle. congruence.
  - destruct (Qle_bool x y) eqn:E; [|reflexivity].
    apply Qle_bool_iff in E. exfalso. exact (Qlt_not_le _ _ H E).
Qed.

Lemma Qltb_true (x y : Q) : Qltb x y = true <-> (x < y)%Q.
Proof.
  unfold Qltb. rewrite negb_true_iff. apply (Qleb_false y x).
Qed.

Lemma Qltb_false (x y : Q) : Qltb x y = false <-> (y <= x)%Q.
Proof.
  unfold Qltb. rewrite negb_false_iff. apply (Qleb_true y x).
Qed.

(** Splits on the next rational test of the goal and records its meaning. *)
Ltac qcase :=
  match goal with
  | |- context [Qleb ?x ?y] =>
      let E := fresh "E" in
      destruct (Qleb x y) eqn:E;
      [apply Qleb_true in E | apply Qleb_false in E]
  end.

(* ------------------------------------------------------------------ *)
(** ** Conversion to float *)

Section ToFloat.
Local Open Scope Q_scope.

Lemma float_limit_large : 100 < float_limit.
Proof. unfold float_limit. vm_compute. reflexivity. Qed.

Lemma to_float_ok (x : Q) : convertible x -> to_float x = Ok x.
Proof.
  intros [H1 H2]. unfold to_float.
  apply Qltb_true in H1, H2. rewrite H1, H2. reflexivity.
Qed.

Lemma to_float_inv (x y : Q) : to_float x = Ok y -> y = x /\ convertible x.
Proof.
  unfold to_float.
  destruct (Qltb (- float_limit) x) eqn:E1; [|discriminate].
  destruct (Qltb x float_limit) eqn:E2; [|discriminate].
  intros [= <-]. apply Qltb_true in E1, E2. split; [reflexivity | split; assumption].
Qed.

Lemma to_float_raise (x : Q) : x <= - float_limit -> to_float x = Raise OverflowError.
Proof.
  intro H. unfold to_float. apply Qltb_false in H. rewrite H. reflexivity.
Qed.


Lemma convertible_between (x lo hi : Q) :
  -100 <= lo -> hi <= 100 -> lo <= x -> x <= hi -> convertible x.
Proof.
  intros Hlo Hhi H1 H2. pose proof float_limit_large. unfold convertible. split; lra.
Qed.

End ToFloat.

(* ------------------------------------------------------------------ *)
(** ** The experience curve *)

Section ExperienceCurve.
Local Open Scope Q_scope.

Lemma eds_top (t : Q) : 5 <= t -> experience_duration_score t == 1.
  Proof. intro H. unfold experience_duration_score. repeat qcase; lra. Qed.




Lemma eds_entry (t : Q) : t < 0.5 -> experience_duration_score t == t * 0.4.
  Proof. intro H. unfold experience_duration_score. repeat qcase; lra. Qed.

Lemma eds_monotone (t1 t2 : Q) :
  t1 <= t2 -> experience_duration_score t1 <= experience_duration_score t2.
  Proof.
  intro H. unfold experience_duration_score.
  repeat qcase; lra.
  Qed.


End ExperienceCurve.

(** The curve in the scorer: it is evaluated unless the technical years are
    an int at or below [- float_limit], and the value is a float. *)
Section ExperienceInScorer.
Local Open Scope Q_scope.

Lemma experience_duration_score_of_ok (t : Q) :
  - float_limit < t -> experience_duration_score_of t = Ok (experience_duration_score t).
Proof.
  intro H. unfold experience_duration_score_of.
  destruct (Qleb 0.5 t) eqn:E; [reflexivity|]. apply Qleb_false in E.
  rewrite to_float_ok; [reflexivity|].
  pose proof float_limit_large. split; [exact H | lra].
Qed.

Lemma experience_duration_score_of_raise (t : Q) :
  t <= - float_limit -> experience_duration_score_of t = Raise OverflowError.
Proof.
  intro H. unfold experience_duration_score_of. pose proof float_limit_large as Hl.
  destruct (Qleb 0.5 t) eqn:E; [apply Qleb_true in E; lra|].
  rewrite (to_float_raise t H). reflexivity.
Qed.

Lemma experience_duration_score_convertible (t : Q) :
  - float_limit < t -> convertible (experience_duration_score t).
Proof.
  intro H. pose proof float_limit_large as Hl. unfold convertible.
  destruct (Qlt_le_dec t 0) as [Hneg|Hpos].
  - rewrite (eds_entry t) by lra. split; lra.
  - pose proof (eds_monotone 0 t Hpos) as H0. pose proof (eds_monotone t (Qmax t 5)
      (Q.le_max_l t 5)) as H1.
    rewrite (eds_top (Qmax t 5) (Q.le_max_r t 5)) in H1.
    assert (E0 : experience_duration_score 0 == 0) by reflexivity.
    rewrite E0 in H0. split; lra.
Qed.

End ExperienceInScorer.

(* ------------------------------------------------------------------ *)
(** ** Strings and dicts *)

Lemma str_eqb_eq (a b : str) : str_eqb a b = true <-> a = b.
Proof.
  revert b. induction a as [|x a IH]; intros [|y b]; simpl; split; try congruence;
    try discriminate.
  - rewrite andb_true_iff, Ascii.eqb_eq, IH. intros [-> ->]. reflexivity.
  - intros [= -> ->]. rewrite Ascii.eqb_refl. simpl. apply IH. reflexivity.
Qed.

Lemma str_eqb_refl (a : str) : str_eqb a a = true.
Proof. apply str_eqb_eq. reflexivity. Qed.

Lemma str_eqb_neq (a b : str) : str_eqb a b = false <-> a <> b.
Proof.
  split.
  - intros H <-. rewrite str_eqb_refl in H. discriminate.
  - intro H. destruct (str_eqb a b) eqn:E; [|reflexivity].
    apply str_eqb_eq in E. contradiction.
Qed.

Lemma mem_In (x : str) (l : list str) : mem x l = true <-> In x l.
Proof.
  induction l as [|y l IH]; simpl.
  - split; [discriminate | tauto].
  - rewrite orb_true_iff, str_eqb_eq, IH. split; intros [H|H]; auto.
Qed.

Lemma dict_get_In {V : Type} (d : dict V) (k : str) (v : V) :
  dict_get d k = Some v -> In (k, v) d.
Proof.
  induction d as [|[k' v'] d IH]; simpl; [discriminate|].
  destruct (str_eqb k k') eqn:E.
  - apply str_eqb_eq in E. subst k'. intros [= ->]. left. reflexivity.
  - intro H. right. apply IH, H.
Qed.

(* ------------------------------------------------------------------ *)
(** ** Rounding *)



(* ------------------------------------------------------------------ *)
(** ** The aggregator *)

Section Aggregator.
Local Open Scope Q_scope.







End Aggregator.

(* ------------------------------------------------------------------ *)
(** ** No clamp from below *)

Section NoLowerClamp.
Local Open Scope Q_scope.

(** The final score is the rounded minimum of 100 and the adjusted total:
    nothing bounds it from below. *)
Lemma aggregate_score_formula (component_scores : dict pyval) (total : Q) (r : AggregatedScore) :
  raw_total component_scores = Ok total ->
  aggregate_enhanced_scores component_scores = Ok r ->
  let adjusted := density_adjust (component_count component_scores) total in
  score_0_100 r = py_round (Qmin 100.0 (adjusted * 100)) 1 /\
  score_0_10 r = py_round (Qmin 100.0 (adjusted * 100) / 10.0) 2.
  Proof.
  intros Htot Hagg. unfold aggregate_enhanced_scores in Hagg.
  rewrite Htot in Hagg. cbn [bind] in Hagg.
  destruct (per_component (map fst weights) component_scores []) as [out|e];
    cbn [bind] in Hagg; [|discriminate].
  injection Hagg as <-. split; reflexivity.
  Qed.

(** C10: the final score is clamped from above only. Scoring an empty resume
    against an empty job description with -5 technical years gives -28.8 out
    of 100 and -2.88 out of 10; aggregating a record whose experience score
    is -1 and whose other components are 0 gives -18.0 and -1.8. *)
Theorem score_is_not_clamped_below :
  (exists cs r,
      compute_enhanced_component_scores [] [] [] [] negative_years = Ok cs /\
      dict_get cs (lit "experience_duration_score") = Some (VNum (-5 * 0.4)) /\
      aggregate_enhanced_scores cs = Ok r /\
      score_0_100 r == -28.8 /\ score_0_10 r == -2.88 /\
      score_0_100 r < 0 /\ score_0_10 r < 0) /\
  (exists r,
      aggregate_enhanced_scores negative_experience = Ok r /\
      score_0_100 r == -18.0 /\ score_0_10 r == -1.8 /\
      score_0_100 r < 0 /\ score_0_10 r < 0).
  Proof.
  split.
  - eexists. eexists.
    split; [vm_compute; reflexivity|].
    split; [reflexivity|].
    split; [vm_compute; reflexivity|].
    repeat split.
  - eexists. split; [vm_compute; reflexivity|]. repeat split.
  Qed.
End NoLowerClamp.

(* ------------------------------------------------------------------ *)
(** ** The alias table *)

Section AliasTable.

Lemma shared_aliases_complete (tbl : dict (list str)) (c1 c2 x : str) (a1 a2 : list str) :
  c1 <> c2 -> In (c1, a1) tbl -> In (c2, a2) tbl -> In x a1 -> In x a2 ->
  In (c1, c2, x) (shared_aliases tbl).
  Proof.
  intros Hne H1 H2 Hx1 Hx2. unfold shared_aliases.
  apply in_flat_map. exists (c1, a1). split; [exact H1|].
  apply in_flat_map. exists (c2, a2). split; [exact H2|].
  cbn [fst snd]. apply str_eqb_neq in Hne. rewrite Hne.
  apply in_map_iff. exists x. split; [reflexivity|].
  unfold intersection. apply filter_In. split; [exact Hx1|].
  apply mem_In, Hx2.
  Qed.

Lemma shared_aliases_table :
  shared_aliases SKILL_ALIASES =
  [ (lit "jenkins", lit "ci/cd", lit "cicd"); (lit "ci/cd", lit "jenkins", lit "cicd") ].
  Proof. vm_compute. reflexivity. Qed.

(** The alias lists of the table are not pairwise disjoint: [cicd] is
    listed under [jenkins] and under [ci/cd]. *)
Lemma alias_cicd_is_shared :
  lit "jenkins" <> lit "ci/cd" /\
  shared_alias (lit "jenkins") (lit "ci/cd") (lit "cicd") /\
  ~ (forall c1 c2 x, c1 <> c2 -> ~ shared_alias c1 c2 x).
  Proof.
  assert (Hne : lit "jenkins" <> lit "ci/cd") by discriminate.
  assert (Hsh : shared_alias (lit "jenkins") (lit "ci/cd") (lit "cicd")).
  { eexists. eexists. split; [reflexivity|]. split; [reflexivity|].
    split; simpl; tauto. }
  split; [exact Hne|]. split; [exact Hsh|].
  intro H. exact (H _ _ _ Hne Hsh).
  Qed.

(** C5, amended: two distinct canonical keys have disjoint alias lists,
    except [jenkins] and [ci/cd], whose only common alias is [cicd]. *)
Theorem aliases_disjoint_except_cicd (c1 c2 x : str) :
  c1 <> c2 -> shared_alias c1 c2 x ->
  x = lit "cicd" /\
  ((c1 = lit "jenkins" /\ c2 = lit "ci/cd") \/ (c1 = lit "ci/cd" /\ c2 = lit "jenkins")).
  Proof.
  intros Hne (a1 & a2 & H1 & H2 & Hx1 & Hx2).
  pose proof (shared_aliases_complete _ _ _ _ _ _ Hne (dict_get_In _ _ _ H1)
                                      (dict_get_In _ _ _ H2) Hx1 Hx2)
    as Hin.
  rewrite shared_aliases_table in Hin.
  destruct Hin as [Hin|[Hin|[]]]; injection Hin as <- <- <-; split; auto.
  Qed.

Lemma aliases_disjoint_except_cicd_witness :
  lit "cicd" = lit "cicd" /\
  ((lit "jenkins" = lit "jenkins" /\ lit "ci/cd" = lit "ci/cd") \/
   (lit "jenkins" = lit "ci/cd" /\ lit "ci/cd" = lit "jenkins")).
  Proof.
  apply (aliases_disjoint_except_cicd (lit "jenkins") (lit "ci/cd") (lit "cicd")).
  - discriminate.
  - eexists. eexists. split; [reflexivity|]. split; [reflexivity|].
    split; simpl; tauto.
  Defined.
End AliasTable.

(* ------------------------------------------------------------------ *)
(** ** Guarded divisions *)

Lemma Qn_nonzero (n : nat) : 0 < n -> ~ (Qn n == 0)%Q.
Proof.
  intros Hn H. unfold Qn, Qeq in H. simpl in H. lia.
Qed.

Lemma py_div_ok (x y : Q) : ~ (y == 0)%Q -> py_div x y = Ok (x / y)%Q.
Proof.
  intro H. unfold py_div.
  destruct (Qeq_bool y 0) eqn:E; [|reflexivity].
  apply Qeq_bool_iff in E. contradiction.
Qed.

Lemma py_div_Qn (x : Q) (n : nat) : 0 < n -> py_div x (Qn n) = Ok (x / Qn n)%Q.
Proof. intro H. apply py_div_ok, Qn_nonzero, H. Qed.

Lemma Qn_le (n m : nat) : n <= m -> (Qn n <= Qn m)%Q.
Proof.
  intro H. unfold Qn. rewrite <- Zle_Qle. lia.
Qed.

Lemma Qn_nonneg (n : nat) : (0 <= Qn n)%Q.
Proof. apply (Qn_le 0 n (Nat.le_0_l n)). Qed.

Lemma Qn_pos (n : nat) : 0 < n -> (0 < Qn n)%Q.
Proof.
  intro H. unfold Qn. change 0%Q with (inject_Z 0). rewrite <- Zlt_Qlt. lia.
Qed.

(** A quotient of counts lies between 0 and 1 when the numerator does not
    exceed the denominator. *)
Lemma Qn_ratio_bounds (n m : nat) :
  n <= m -> 0 < m -> (0 <= Qn n / Qn m)%Q /\ (Qn n / Qn m <= 1)%Q.
Proof.
  intros Hle Hm. pose proof (Qn_pos m Hm) as Hpos. split.
  - apply Qle_shift_div_l; [exact Hpos|]. rewrite Qmult_0_l. apply Qn_nonneg.
  - apply Qle_shift_div_r; [exact Hpos|]. rewrite Qmult_1_l. apply Qn_le, Hle.
Qed.

Lemma dict_get_set {V : Type} (d : dict V) (k k' : str) (v : V) :
  dict_get (dict_set d k v) k' = if str_eqb k' k then Some v else dict_get d k'.
Proof.
  induction d as [|[k0 v0] d IH]; simpl.
  - reflexivity.
  - destruct (str_eqb k k0) eqn:E; simpl.
    + apply str_eqb_eq in E. subst k0.
      destruct (str_eqb k' k); reflexivity.
    + destruct (str_eqb k' k0) eqn:E0.
      * apply str_eqb_eq in E0. subst k0.
        destruct (str_eqb k' k) eqn:E1; [|reflexivity].
        apply str_eqb_eq in E1. subst k'. rewrite str_eqb_refl in E. discriminate.
      * exact IH.
Qed.

(* ------------------------------------------------------------------ *)
(** ** The skill matcher *)

Section MatcherProperties.
Variable resume_text : str.
Variable resume_skills : list str.

Lemma partial_step_total (jd_skill : str) (best : Q) :
  exists best', partial_step resume_text jd_skill best = Ok best'.
  Proof.
  unfold partial_step.
  destruct (Qltb best 0.5); [|eexists; reflexivity].
  destruct (1 <? length (set_of (split (lower jd_skill)))) eqn:E; [|eexists; reflexivity].
  apply Nat.ltb_lt in E.
  destruct (Qle_bool _ _); [|eexists; reflexivity].
  rewrite py_div_Qn by lia. cbn [bind]. eexists. reflexivity.
  Qed.

Lemma score_skill_total (jd_skill : str) :
  exists best evidence, score_skill resume_text resume_skills jd_skill = Ok (best, evidence).
  Proof.
  unfold score_skill.
  destruct (fold_left (text_step resume_text) (create_skill_variants jd_skill) (0%Q, []))
    as [best0 evidence].
  destruct (partial_step_total jd_skill
              (fold_left (skill_step (create_skill_variants jd_skill))
                         resume_skills best0)) as [best' Hp].
  rewrite Hp. cbn [bind]. eexists. eexists. reflexivity.
  Qed.

Lemma score_skill_eq (jd_skill : str) :
  score_skill resume_text resume_skills jd_skill = Ok (final_confidence resume_text resume_skills jd_skill, collected_evidence resume_text resume_skills jd_skill).
  Proof.
  unfold final_confidence, collected_evidence.
  destruct (score_skill_total jd_skill) as (best & ev & H). rewrite H. reflexivity.
  Qed.

Lemma match_loop_spec (jd_skills : list str) :
  forall matched evidence confidence,
    acc_ok resume_text resume_skills (matched, evidence, confidence) ->
    exists evidence' confidence',
      match_loop resume_text resume_skills jd_skills (matched, evidence, confidence)
      = Ok (matched ++ filter (is_matched resume_text resume_skills) jd_skills, evidence', confidence') /\
      acc_ok resume_text resume_skills (matched ++ filter (is_matched resume_text resume_skills) jd_skills, evidence', confidence').
  Proof.
  induction jd_skills as [|jd rest IH]; intros matched evidence confidence Hok.
  - simpl. rewrite app_nil_r. eexists. eexists. split; [reflexivity | exact Hok].
  - cbn [match_loop]. rewrite score_skill_eq. cbn [bind filter].
    change (is_matched resume_text resume_skills jd) with (Qle_bool 0.5 (final_confidence resume_text resume_skills jd)).
    destruct (Qle_bool 0.5 (final_confidence resume_text resume_skills jd)) eqn:E.
    + destruct (IH (matched ++ [jd])
                   (dict_set evidence jd (firstn 3 (collected_evidence resume_text resume_skills jd)))
                   (dict_set confidence jd (final_confidence resume_text resume_skills jd))) as (e' & c' & Hl & Hok').
      { destruct Hok as (H1 & H2 & H3). repeat split.
        - intros s Hs. rewrite !dict_get_set.
          destruct (str_eqb s jd) eqn:Es.
          + apply str_eqb_eq in Es. subst s. eexists. split; reflexivity.
          + apply in_app_or in Hs. destruct Hs as [Hs|[Hs|[]]].
            * exact (H1 s Hs).
            * subst s. rewrite str_eqb_refl in Es. discriminate.
        - rewrite dict_get_set in H. destruct (str_eqb s jd) eqn:Es.
          + apply str_eqb_eq in Es. subst s. injection H as <-. reflexivity.
          + exact (proj1 (H2 s ev H)).
        - rewrite dict_get_set in H. apply in_or_app.
          destruct (str_eqb s jd) eqn:Es.
          + apply str_eqb_eq in Es. subst s. right. left. reflexivity.
          + left. exact (proj2 (H2 s ev H)).
        - intros s c Hc. rewrite dict_get_set in Hc. apply in_or_app.
          destruct (str_eqb s jd) eqn:Es.
          + apply str_eqb_eq in Es. subst s. right. left. reflexivity.
          + left. exact (H3 s c Hc). }
      rewrite <- app_assoc in Hl, Hok'. cbn [app] in Hl, Hok'.
      exists e', c'. split; assumption.
    + apply IH, Hok.
  Qed.

Lemma find_skill_matches_spec (jd_skills : list str) :
  exists evidence confidence,
    find_skill_matches resume_text resume_skills jd_skills
    = Ok {| matched_skills := filter (is_matched resume_text resume_skills) jd_skills;
            skill_evidence := evidence;
            confidence_scores := confidence;
            total_jd_skills := length jd_skills;
            match_rate := (Qn (length (filter (is_matched resume_text resume_skills) jd_skills))
                           / Qn (Nat.max 1 (length jd_skills)))%Q |} /\
    acc_ok resume_text resume_skills (filter (is_matched resume_text resume_skills) jd_skills, evidence, confidence).
  Proof.
  destruct (match_loop_spec jd_skills [] [] []) as (e & c & Hl & Hok).
  { repeat split; simpl; intros; try contradiction; discriminate. }
  cbn [app] in Hl, Hok.
  exists e, c. split; [|exact Hok].
  unfold find_skill_matches.
  match goal with
  | |- context [match_loop ?t ?rs ?l ?acc] =>
      replace (match_loop t rs l acc) with (Ok (filter (is_matched resume_text resume_skills) jd_skills, e, c) : res acc_t)
        by (symmetry; exact Hl)
  end.
  cbn [bind]. rewrite py_div_Qn by lia. reflexivity.
  Qed.

(** C1: a JD skill is reported as matched exactly when its final confidence
    is at least 0.5; the matched skills come in the order of the JD skills;
    and the evidence kept for a skill has at most three snippets. *)
Theorem matched_iff_confident (jd_skills : list str) :
  exists r,
    find_skill_matches resume_text resume_skills jd_skills = Ok r /\
    (forall s, In s (matched_skills r) <->
               In s jd_skills /\ (0.5 <= final_confidence resume_text resume_skills s)%Q) /\
    matched_skills r = filter (fun s => Qleb 0.5 (final_confidence resume_text resume_skills s)) jd_skills /\
    (forall s, In s (matched_skills r) ->
               exists ev, dict_get (skill_evidence r) s = Some ev /\ length ev <= 3) /\
    (forall s ev, dict_get (skill_evidence r) s = Some ev -> length ev <= 3).
  Proof.
  destruct (find_skill_matches_spec jd_skills) as (e & c & Hr & H1 & H2 & H3).
  eexists. split; [exact Hr|]. cbn [matched_skills skill_evidence].
  assert (Hlen : forall s ev, dict_get e s = Some ev -> length ev <= 3).
  { intros s ev Hev. destruct (H2 s ev Hev) as [-> _].
    rewrite length_firstn. apply Nat.le_min_l. }
  repeat split.
  - apply filter_In in H. tauto.
  - apply filter_In in H. apply Qleb_true. tauto.
  - intros [Hin Hc]. apply filter_In. split; [exact Hin|]. apply Qleb_true, Hc.
  - intros s Hs. destruct (H1 s Hs) as (ev & Hev & _).
    exists ev. split; [exact Hev | exact (Hlen s ev Hev)].
  - exact Hlen.
  Qed.

(** C7: the match rate is the matched count over [max(1, total)]; it lies
    between 0 and 1; no call raises, and an empty JD-skill list gives 0. *)
Theorem match_rate_bounds (jd_skills : list str) :
  (exists r,
      find_skill_matches resume_text resume_skills jd_skills = Ok r /\
      match_rate r = (Qn (length (matched_skills r)) / Qn (Nat.max 1 (length jd_skills)))%Q /\
      total_jd_skills r = length jd_skills /\
      (0 <= match_rate r)%Q /\ (match_rate r <= 1)%Q) /\
  (exists r0, find_skill_matches resume_text resume_skills [] = Ok r0 /\ (match_rate r0 == 0)%Q).
  Proof.
  split.
  - destruct (find_skill_matches_spec jd_skills) as (e & c & Hr & _).
    eexists. split; [exact Hr|]. cbn [matched_skills match_rate total_jd_skills].
    split; [reflexivity|]. split; [reflexivity|].
    apply Qn_ratio_bounds; [|lia].
    pose proof (filter_length_le (is_matched resume_text resume_skills) jd_skills). lia.
  - eexists. split; [reflexivity|]. reflexivity.
  Qed.
End MatcherProperties.

(* ------------------------------------------------------------------ *)
(** ** The scorer and the aggregator never raise *)

Section NeverRaises.
Local Open Scope Q_scope.

Lemma count_if_le {A : Type} (f : A -> bool) (l : list A) : (count_if f l <= length l)%nat.
  Proof. unfold count_if. apply filter_length_le. Qed.

Lemma job_type_scan_total (tbl : dict (list str)) (job_desc_lower resume_lower : str) :
  forall acc, exists out, job_type_scan tbl job_desc_lower resume_lower acc = Ok out.
  Proof.
  induction tbl as [|[job_type keywords] tbl IH]; intro acc; cbn [job_type_scan].
  - eexists. reflexivity.
  - destruct (0 <? count_if (fun keyword => contains job_desc_lower keyword) keywords)%nat eqn:E.
    + apply Nat.ltb_lt in E.
      pose proof (count_if_le (fun keyword => contains job_desc_lower keyword) keywords).
      rewrite py_div_Qn by lia. cbn [bind]. apply IH.
    + apply IH.
  Qed.

Lemma float_on_tail (k : str) (ks : list str) (cs : dict pyval) :
  float_on (k :: ks) cs -> float_on ks cs.
Proof. intros H k' v Hk. apply H. right. exact Hk. Qed.

Lemma weighted_sum_float (ws : dict Q) (cs : dict pyval) :
  float_on (map fst ws) cs ->
  forall total, exists total', weighted_sum ws cs total = Ok total'.
Proof.
  induction ws as [|[k w] ws IH]; intros Hnum total; cbn [weighted_sum].
  - eexists. reflexivity.
  - cbn [map fst] in Hnum. pose proof (float_on_tail _ _ _ Hnum) as Hrest.
    destruct (dict_get cs k) as [v|] eqn:E; [|apply IH, Hrest].
    destruct (Hnum k v (or_introl eq_refl) E) as (q & -> & Hq).
    cbn [as_number]. rewrite (to_float_ok q Hq). cbn [bind]. apply IH, Hrest.
Qed.

Lemma per_component_float (ks : list str) (cs : dict pyval) :
  float_on ks cs ->
  forall out, exists out', per_component ks cs out = Ok out'.
Proof.
  induction ks as [|k ks IH]; intros Hnum out; cbn [per_component].
  - eexists. reflexivity.
  - pose proof (float_on_tail _ _ _ Hnum) as Hrest.
    destruct (dict_get cs k) as [v|] eqn:E; [|apply IH, Hrest].
    destruct (Hnum k v (or_introl eq_refl) E) as (q & -> & Hq).
    cbn [as_number]. rewrite (to_float_ok q Hq). cbn [bind]. apply IH, Hrest.
Qed.

(** The aggregator returns on every record whose weighted components are
    floats, or ints that convert to floats, whatever else the record holds. *)
Lemma aggregate_float_total (cs : dict pyval) :
  float_on (map fst weights) cs ->
  exists r, aggregate_enhanced_scores cs = Ok r.
Proof.
  intro Hnum. unfold aggregate_enhanced_scores, raw_total.
  destruct (weighted_sum_float weights cs Hnum 0.0) as [total ->]. cbn [bind].
  destruct (per_component_float (map fst weights) cs Hnum []) as [out ->]. cbn [bind].
  eexists. reflexivity.
Qed.

(** The scorer returns unless the technical years are an int at or below
    [- float_limit], and its seven sub-scores are these. *)
Lemma compute_returns
      (job_desc resume_text : str) (jd_skills resume_skills : list str)
      (experience_data : dict Q) :
  - float_limit < get_or_zero experience_data (lit "technical_years_experience") ->
  exists m skill_match context relevance average,
    find_skill_matches resume_text resume_skills jd_skills = Ok m /\
    compute_enhanced_component_scores job_desc resume_text jd_skills resume_skills
                                      experience_data
    = Ok (component_record
            m skill_match context
            (experience_duration_score
               (get_or_zero experience_data (lit "technical_years_experience")))
            (impact_score_of (impact_count_of resume_text) resume_text)
            (project_score_of resume_text)
            (education_scan education_indicators (lower resume_text) 0.3)
            relevance
            (get_or_zero experience_data (lit "total_years_experience"))
            (get_or_zero experience_data (lit "technical_years_experience"))
            (length jd_skills) average (impact_count_of resume_text)).
Proof.
  intro Hyears.
  destruct (find_skill_matches_spec resume_text resume_skills jd_skills)
    as (e & c & Hm & H1 & H2 & H3).
  remember (compute_enhanced_component_scores job_desc resume_text jd_skills resume_skills
                                              experience_data) as result eqn:Hres.
  unfold compute_enhanced_component_scores in Hres. rewrite Hm in Hres.
  cbn [bind match_rate confidence_scores matched_skills skill_evidence] in Hres.
  (* the confidence-weighted score *)
  assert (Hcw : exists cw,
             match c with
             | [] => Ok 0
             | _ :: _ =>
                 if Qltb 0 (Qsum (dict_values c))
                 then py_div (Qsum (dict_values c)) (Qn (length jd_skills)) else Ok 0
             end = Ok cw).
  { destruct c as [|[k v] c']; [eexists; reflexivity|].
    destruct (Qltb 0 (Qsum (dict_values ((k, v) :: c')))); [|eexists; reflexivity].
    assert (Hin : In k (filter (is_matched resume_text resume_skills) jd_skills)).
    { apply (H3 k v). simpl. rewrite str_eqb_refl. reflexivity. }
    apply filter_In in Hin. destruct Hin as [Hin _].
    destruct jd_skills as [|j js]; [contradiction|].
    rewrite py_div_Qn by (simpl; lia). eexists. reflexivity. }
  destruct Hcw as [cw Hcw]. rewrite Hcw in Hres. cbn [bind] in Hres.
  (* the context score *)
  set (total_matched := length (filter (is_matched resume_text resume_skills) jd_skills))
    in Hres.
  assert (Hctx : forall n, exists x,
             (if (0 <? total_matched)%nat
              then py_div (Qn n) (Qn (Nat.max 1 total_matched)) else Ok 0) = Ok x).
  { intro n. destruct (0 <? total_matched)%nat; [|eexists; reflexivity].
    rewrite py_div_Qn by lia. eexists. reflexivity. }
  match type of Hres with
  | context [py_div (Qn ?n) (Qn (Nat.max 1 total_matched))] =>
      destruct (Hctx n) as [ctx Hc]; rewrite Hc in Hres
  end.
  cbn [bind] in Hres.
  (* the experience curve *)
  rewrite (experience_duration_score_of_ok _ Hyears) in Hres. cbn [bind] in Hres.
  (* the job-type buckets and the relevance score *)
  destruct (job_type_scan_total job_types (lower job_desc) (lower resume_text) [])
    as [jtm Hj].
  rewrite Hj in Hres. cbn [bind] in Hres.
  assert (Hrel : exists rel,
             match jtm with
             | [] => Ok 0.5
             | _ :: _ => m <- py_max (map fst (dict_values jtm)) ;; Ok (Qmin 1.0 (m + 0.3))
             end = Ok rel).
  { destruct jtm as [|[k [q n]] jtm']; eexists; reflexivity. }
  destruct Hrel as [rel Hrel]. rewrite Hrel in Hres. cbn [bind] in Hres.
  rewrite py_div_Qn in Hres by lia. cbn [bind] in Hres.
  eexists. do 4 eexists. split; [exact Hm|]. exact Hres.
Qed.

End NeverRaises.

(* ------------------------------------------------------------------ *)
(** ** The impact score without impact indicators *)

Section ImpactFallback.
Local Open Scope Q_scope.

(** A resume that repeats one action verb: two occurrences, one verb. The
    impact score is 0.05, not min(0.4, 0.05 * 2). *)
Lemma impact_counts_verbs_not_occurrences :
  impact_count_of (lit "built built") = 0%nat /\
  action_verb_occurrences (lit "built built") = 2%nat /\
  exists cs x,
    compute_enhanced_component_scores [] (lit "built built") [] [] [] = Ok cs /\
    dict_get cs (lit "impact_score") = Some (VNum x) /\
    x == 0.05 /\
    ~ x == Qmin 0.4 (0.05 * Qn (action_verb_occurrences (lit "built built"))).
Proof.
  split; [vm_compute; reflexivity|]. split; [vm_compute; reflexivity|].
  eexists. eexists. split; [vm_compute; reflexivity|].
  split; [reflexivity|]. split; [reflexivity|].
  vm_compute. discriminate.
Qed.

(** C6, amended: when none of the six impact patterns matches, the impact
    score is min(0.4, 0.05 * N) where N is the number of the nine action verbs
    that occur in the lower-cased resume text, each verb counted once. This
    holds on every call that returns, that is, unless the technical years are
    an int at or below -(2^1024 - 2^970), for which the scorer raises. *)
Theorem impact_score_fallback
        (job_desc resume_text : str) (jd_skills resume_skills : list str)
        (experience_data : dict Q) :
  impact_count_of resume_text = 0%nat ->
  - float_limit < get_or_zero experience_data (lit "technical_years_experience") ->
  exists cs,
    compute_enhanced_component_scores job_desc resume_text jd_skills resume_skills
                                      experience_data = Ok cs /\
    dict_get cs (lit "impact_score")
    = Some (VNum (Qmin 0.4 (Qn (action_verbs_present resume_text) * 0.05))) /\
    (action_verbs_present resume_text <= 9)%nat.
Proof.
  intros H0 Hyears.
  destruct (compute_returns job_desc resume_text jd_skills resume_skills experience_data
                            Hyears)
    as (m & sm & ctx & rel & avg & _ & Hcs).
  eexists. split; [exact Hcs|]. split.
  - rewrite H0. reflexivity.
  - apply (count_if_le (fun verb => contains (lower resume_text) verb) action_verbs).
Qed.

Lemma impact_score_fallback_witness :
  exists cs,
    compute_enhanced_component_scores [] (lit "led and built; built again") [] [] [] = Ok cs /\
    dict_get cs (lit "impact_score")
    = Some (VNum (Qmin 0.4 (Qn (action_verbs_present (lit "led and built; built again")) * 0.05))) /\
    (action_verbs_present (lit "led and built; built again") <= 9)%nat.
Proof.
  apply (impact_score_fallback [] (lit "led and built; built again") [] [] []).
  - vm_compute. reflexivity.
  - vm_compute. reflexivity.
Defined.
End ImpactFallback.

(* ------------------------------------------------------------------ *)
(** ** Blank-free ends and lower case *)

Section Trimmed.

Lemma lstrip_no_lead (s : str) : no_lead (lstrip s).
Proof.
  induction s as [|c s IH]; simpl; [exact I|].
  destruct (isspace c) eqn:E; [exact IH | exact E].
Qed.

Lemma lstrip_fixed (s : str) : no_lead s -> lstrip s = s.
Proof.
  destruct s as [|c s]; simpl; [reflexivity|]. intros ->. reflexivity.
Qed.

Lemma lstrip_suffix (s : str) : exists w, s = w ++ lstrip s.
Proof.
  induction s as [|c s [w IH]]; simpl.
  - exists []. reflexivity.
  - destruct (isspace c).
    + exists (c :: w). simpl. rewrite <- IH. reflexivity.
    + exists []. reflexivity.
Qed.

Lemma no_lead_prefix (s m : str) : no_lead (s ++ m) -> s <> [] -> no_lead s.
Proof.
  destruct s as [|c s]; simpl; [congruence | auto].
Qed.

Lemma no_trail_suffix (m s : str) : no_trail (m ++ s) -> no_trail s.
Proof.
  unfold no_trail. rewrite rev_app_distr. intro H.
  destruct (rev s) as [|c r] eqn:E; [exact I|].
  simpl in H. exact H.
Qed.

Lemma strip_trimmed (s : str) : trimmed (strip s).
Proof.
  unfold strip, rstrip, trimmed, no_trail. rewrite rev_involutive. split.
  - destruct (lstrip_suffix (rev (lstrip s))) as [w Hw].
    pose proof (lstrip_no_lead s) as Hl.
    assert (Hs : lstrip s = rev (lstrip (rev (lstrip s))) ++ rev w).
    { rewrite <- rev_app_distr, <- Hw, rev_involutive. reflexivity. }
    destruct (rev (lstrip (rev (lstrip s)))) as [|c r] eqn:E; [exact I|].
    rewrite Hs in Hl. exact Hl.
  - apply lstrip_no_lead.
Qed.

Lemma strip_fixed (s : str) : trimmed s -> strip s = s.
Proof.
  intros [H1 H2]. unfold strip, rstrip.
  rewrite (lstrip_fixed s H1), (lstrip_fixed (rev s) H2). apply rev_involutive.
Qed.

Lemma lower_char_idem (c : ascii) : lower_char (lower_char c) = lower_char c.
Proof.
  destruct c as [[] [] [] [] [] [] [] []]; reflexivity.
Qed.

Lemma lower_lowered (s : str) : lowered (lower s).
Proof.
  induction s as [|c s IH]; simpl; constructor; [apply lower_char_idem | exact IH].
Qed.

Lemma lower_fixed (s : str) : lowered s -> lower s = s.
Proof.
  induction 1 as [|c s Hc _ IH]; simpl; [reflexivity|]. rewrite Hc, IH. reflexivity.
Qed.

Lemma lstrip_Forall (P : ascii -> Prop) (s : str) : Forall P s -> Forall P (lstrip s).
Proof.
  induction 1 as [|c s Hc Hs IH]; simpl; [constructor|].
  destruct (isspace c); [exact IH | constructor; assumption].
Qed.

Lemma strip_Forall (P : ascii -> Prop) (s : str) : Forall P s -> Forall P (strip s).
Proof.
  intro H. unfold strip, rstrip.
  apply Forall_rev, lstrip_Forall, Forall_rev, lstrip_Forall, H.
Qed.

Lemma sub_from_Forall (P : ascii -> Prop) (r : regex) (s : str) :
  Forall P s -> forall prev skip, Forall P (sub_from r prev s skip).
Proof.
  induction 1 as [|c s Hc Hs IH]; intros prev skip.
  - destruct skip; cbn [sub_from]; [|constructor].
    destruct (match_here r prev []) as [rest|]; [|constructor].
    destruct (length (@nil ascii) - length rest); constructor.
  - destruct skip; cbn [sub_from]; [|apply IH].
    destruct (match_here r prev (c :: s)) as [rest|].
    + destruct (length (c :: s) - length rest); [constructor; [exact Hc|]|]; apply IH.
    + constructor; [exact Hc | apply IH].
Qed.

End Trimmed.

(* ------------------------------------------------------------------ *)
(** ** The matcher hands a suffix of the input to its continuation *)

Section RegexLemmas.

Lemma rmatch_cont (r : regex) :
  forall prev s k x,
    rmatch r prev s k = Some x ->
    exists prev' s' m, s = m ++ s' /\ k prev' s' = Some x.
Proof.
  induction r as [|p|r1 IH1 r2 IH2|r1 IH1 r2 IH2|greedy p| | |]; intros prev s k x H;
    cbn [rmatch] in H.
  - exists prev, s, []. auto.
  - destruct s as [|c s]; [discriminate|].
    destruct (p c); [|discriminate].
    exists (Some c), s, [c]. auto.
  - apply IH1 in H. destruct H as (p1 & s1 & m1 & -> & H).
    apply IH2 in H. destruct H as (p2 & s2 & m2 & -> & H).
    exists p2, s2, (m1 ++ m2). rewrite app_assoc. auto.
  - destruct (rmatch r1 prev s k) as [y|] eqn:E.
    + injection H as <-. apply IH1 in E. exact E.
    + apply IH2 in H. exact H.
  - revert prev H. induction s as [|c s IHs]; intros prev H.
    + exists prev, [], []. auto.
    + destruct (p c).
      * destruct greedy.
        -- match type of H with
           | match ?e with _ => _ end = _ => destruct e as [y|] eqn:E
           end.
           ++ injection H as <-. apply IHs in E.
              destruct E as (p' & s' & m & -> & E).
              exists p', s', (c :: m). auto.
           ++ exists prev, (c :: s), []. auto.
        -- destruct (k prev (c :: s)) as [y|] eqn:E.
           ++ injection H as <-. exists prev, (c :: s), []. auto.
           ++ apply IHs in H. destruct H as (p' & s' & m & -> & H).
              exists p', s', (c :: m). auto.
      * exists prev, (c :: s), []. auto.
  - destruct prev; [discriminate|]. exists None, s, []. auto.
  - destruct s as [|c [|c' s]].
    + exists prev, [], []. auto.
    + destruct (Ascii.eqb c newline); [|discriminate]. exists prev, [c], []. auto.
    + discriminate.
  - destruct (xorb _ _); [|discriminate]. exists prev, s, []. auto.
Qed.

(** What is left after a match is a suffix of the input. *)
Lemma match_here_suffix (r : regex) (prev : option ascii) (s rest : str) :
  match_here r prev s = Some rest -> exists m, s = m ++ rest.
Proof.
  intro H. apply rmatch_cont in H. destruct H as (p' & s' & m & -> & [= ->]).
  exists m. reflexivity.
Qed.

(** A greedy star that nothing follows eats the whole run. *)
Lemma rmatch_star_all (p : ascii -> bool) (s : str) :
  forall prev, exists s',
      rmatch (Rep true p) prev s (fun _ rest => Some rest) = Some s' /\
      match s' with c :: _ => p c = false | [] => True end.
Proof.
  induction s as [|c s IH]; intro prev.
  - exists []. split; [reflexivity | exact I].
  - cbn [rmatch]. destruct (p c) eqn:E.
    + destruct (IH (Some c)) as (s' & H & Hs). cbn [rmatch] in H.
      rewrite H. exists s'. auto.
    + exists (c :: s). auto.
Qed.

(** Skipping to the end of the text leaves nothing, for a pattern that does
    not match the empty text. *)
Lemma sub_from_skip_all (r : regex) (s : str) :
  (forall prev, match_here r prev [] = None) ->
  forall prev, sub_from r prev s (length s) = [].
Proof.
  intro Hnil. induction s as [|c s IH]; intro prev.
  - cbn [length sub_from]. rewrite Hnil. reflexivity.
  - cbn [length sub_from]. apply IH.
Qed.

End RegexLemmas.

(* ------------------------------------------------------------------ *)
(** ** Stripping the filler prefix and the trailing suffix *)

Section AnchoredSub.
Variable r : regex.
Hypothesis later_none : forall c s, match_here r (Some c) s = None.

Lemma sub_from_no_match (s : str) : forall c, sub_from r (Some c) s 0 = s.
Proof.
  induction s as [|c' s IH]; intro c; cbn [sub_from]; rewrite later_none.
  - reflexivity.
  - rewrite IH. reflexivity.
Qed.

Lemma sub_from_skipn (k : nat) : forall s c, sub_from r (Some c) s k = skipn k s.
Proof.
  induction k as [|k IH]; intros s c.
  - apply sub_from_no_match.
  - destruct s as [|c' s]; cbn [sub_from skipn]; [reflexivity | apply IH].
Qed.

(** A pattern anchored at the start is removed at most once, at the start. *)
Lemma sub_empty_anchored (t : str) :
  sub_empty r t = match match_here r None t with Some rest => rest | None => t end.
Proof.
  unfold sub_empty. destruct t as [|c t]; cbn [sub_from].
  - destruct (match_here r None []) as [rest|] eqn:E; [|reflexivity].
    apply match_here_suffix in E. destruct E as [m E].
    symmetry in E. apply app_eq_nil in E. destruct E as [_ ->]. reflexivity.
  - destruct (match_here r None (c :: t)) as [rest|] eqn:E.
    + apply match_here_suffix in E. destruct E as [m E].
      rewrite E, length_app, Nat.add_sub.
      destruct m as [|c' m]; cbn [length].
      * simpl in E. subst rest. rewrite sub_from_no_match. reflexivity.
      * injection E as -> ->. rewrite sub_from_skipn.
        rewrite skipn_app, skipn_all, Nat.sub_diag. reflexivity.
    + rewrite sub_from_no_match. reflexivity.
Qed.
End AnchoredSub.

Section PrefixSuffix.

Lemma filler_prefix_later_none (c : ascii) (s : str) :
  match_here filler_prefix (Some c) s = None.
Proof. reflexivity. Qed.

Lemma plus_rest_no_lead (prev : option ascii) (s rest : str) :
  rmatch (plus isspace) prev s (fun _ rest => Some rest) = Some rest -> no_lead rest.
Proof.
  unfold plus. cbn [rmatch]. destruct s as [|c s]; [discriminate|].
  destruct (isspace c); [|discriminate].
  intro H. destruct (rmatch_star_all isspace s (Some c)) as (s' & Hs & Hlead).
  cbn [rmatch] in Hs. rewrite Hs in H. injection H as <-.
  destruct s' as [|c' s']; [exact I | exact Hlead].
Qed.

Lemma filler_prefix_rest (t rest : str) :
  match_here filler_prefix None t = Some rest -> no_lead rest /\ exists m, t = m ++ rest.
Proof.
  intro H. split; [|exact (match_here_suffix _ _ _ _ H)].
  unfold match_here, filler_prefix in H. cbn [seqs rmatch] in H.
  apply rmatch_cont in H. destruct H as (p' & s' & m & _ & H).
  exact (plus_rest_no_lead _ _ _ H).
Qed.

Lemma filler_prefix_trimmed (t : str) : trimmed t -> trimmed (sub_empty filler_prefix t).
Proof.
  intros [Hl Ht]. rewrite (sub_empty_anchored _ filler_prefix_later_none).
  destruct (match_here filler_prefix None t) as [rest|] eqn:E; [|split; assumption].
  destruct (filler_prefix_rest _ _ E) as (Hrest & m & ->).
  split; [exact Hrest | exact (no_trail_suffix _ _ Ht)].
Qed.

Lemma last_ok_cons (prev : option ascii) (c : ascii) (s : str) :
  last_ok prev (c :: s) <-> last_ok (Some c) s.
Proof.
  unfold last_ok. cbn [rev]. destruct (rev s) as [|c' r']; simpl; tauto.
Qed.

Section Scan.
Variable R : regex.
Hypothesis ends : forall p s rest,
    match_here R p s = Some rest -> rest = [] \/ rest = [newline].
Hypothesis starts_blank : forall p s rest,
    match_here R p s = Some rest -> exists c s', s = c :: s' /\ isspace c = true.
Hypothesis extends_left : forall p p' c s rest,
    isspace c = true -> match_here R p' s = Some rest ->
    exists rest', match_here R p (c :: s) = Some rest'.

Lemma scan_nil (p : option ascii) : match_here R p [] = None.
Proof.
  destruct (match_here R p []) as [rest|] eqn:E; [|reflexivity].
  apply starts_blank in E. destruct E as (c & s' & E & _). discriminate.
Qed.

(** The text kept by the scan ends with a non-blank character. *)
Lemma sub_from_last_ok (s : str) :
  forall prev,
    (isspace_opt prev = true -> match_here R prev s = None) ->
    last_ok prev s ->
    last_ok prev (sub_from R prev s 0).
Proof.
  induction s as [|c s IH]; intros prev Hinv Hlast; cbn [sub_from].
  - rewrite scan_nil. exact Hlast.
  - destruct (match_here R prev (c :: s)) as [rest|] eqn:E.
    + assert (Hrest : rest = []).
      { destruct (ends _ _ _ E) as [->| ->]; [reflexivity|].
        apply match_here_suffix in E. destruct E as [m E].
        unfold last_ok in Hlast. rewrite E, rev_app_distr in Hlast.
        simpl in Hlast. discriminate. }
      subst rest. cbn [length]. rewrite Nat.sub_0_r.
      rewrite (sub_from_skip_all R s scan_nil).
      unfold last_ok. cbn [rev].
      destruct (isspace_opt prev) eqn:Ep; [|reflexivity].
      specialize (Hinv eq_refl). discriminate.
    + apply last_ok_cons. apply IH.
      * intro Hc. cbn [isspace_opt] in Hc.
        destruct (match_here R (Some c) s) as [rest|] eqn:E2; [|reflexivity].
        destruct (extends_left prev (Some c) c s rest Hc E2) as [rest' E3].
        rewrite E3 in E. discriminate.
      * apply last_ok_cons in Hlast. exact Hlast.
Qed.

Lemma sub_empty_trimmed (u : str) : trimmed u -> trimmed (sub_empty R u).
Proof.
  intros [Hl Ht]. split.
  - unfold sub_empty. destruct u as [|c u]; cbn [sub_from].
    + rewrite scan_nil. exact I.
    + destruct (match_here R None (c :: u)) as [rest|] eqn:E.
      * apply starts_blank in E. destruct E as (c' & s' & [= <- <-] & Hc).
        simpl in Hl. congruence.
      * exact Hl.
  - assert (H : last_ok None (sub_empty R u)).
    { apply sub_from_last_ok; [discriminate|].
      unfold last_ok. unfold no_trail, no_lead in Ht.
      destruct (rev u); [reflexivity | exact Ht]. }
    unfold last_ok in H. unfold no_trail, no_lead.
    destruct (rev (sub_empty R u)); [exact I | exact H].
Qed.
End Scan.

Lemma trailing_suffix_ends (p : option ascii) (s rest : str) :
  match_here trailing_suffix p s = Some rest -> rest = [] \/ rest = [newline].
Proof.
  unfold match_here, trailing_suffix. cbn [seqs rmatch]. intro H.
  apply rmatch_cont in H. destruct H as (p1 & s1 & m1 & _ & H).
  apply rmatch_cont in H. destruct H as (p2 & s2 & m2 & _ & H).
  destruct s2 as [|c [|c' s2]]; try discriminate.
  - injection H as <-. left. reflexivity.
  - destruct (Ascii.eqb c newline) eqn:E; [|discriminate].
    apply Ascii.eqb_eq in E. subst c. injection H as <-. right. reflexivity.
Qed.

Lemma trailing_suffix_starts_blank (p : option ascii) (s rest : str) :
  match_here trailing_suffix p s = Some rest ->
  exists c s', s = c :: s' /\ isspace c = true.
Proof.
  unfold match_here, trailing_suffix, plus. cbn [seqs rmatch]. intro H.
  destruct s as [|c s]; [discriminate|].
  destruct (isspace c) eqn:E; [|discriminate].
  exists c, s. auto.
Qed.

Lemma plus_extends_left (p : ascii -> bool) (K : regex) (p1 p2 : option ascii)
      (c : ascii) (s rest : str) :
  p c = true ->
  match_here (Seq (plus p) K) p1 s = Some rest ->
  match_here (Seq (plus p) K) p2 (c :: s) = Some rest.
Proof.
  unfold match_here, plus. cbn [rmatch]. intros Hc H.
  destruct s as [|c2 s]; [discriminate|].
  destruct (p c2) eqn:E; [|discriminate].
  rewrite Hc, H. reflexivity.
Qed.

Lemma trailing_suffix_extends_left (p p' : option ascii) (c : ascii) (s rest : str) :
  isspace c = true -> match_here trailing_suffix p' s = Some rest ->
  exists rest', match_here trailing_suffix p (c :: s) = Some rest'.
Proof.
  intros Hc H. exists rest. unfold trailing_suffix in *. cbn [seqs] in *.
  exact (plus_extends_left isspace _ p' p c s rest Hc H).
Qed.

Lemma trailing_suffix_trimmed (u : str) : trimmed u -> trimmed (sub_empty trailing_suffix u).
Proof.
  apply sub_empty_trimmed.
  - exact trailing_suffix_ends.
  - exact trailing_suffix_starts_blank.
  - exact trailing_suffix_extends_left.
Qed.

End PrefixSuffix.

(* ------------------------------------------------------------------ *)
(** ** Normalizing twice *)

Section NormalizeTwice.

Lemma normalize_skill_cleaned (skill : str) :
  normalize_skill skill
  = match lookup_alias SKILL_ALIASES (cleaned skill) with
    | Some canonical => canonical
    | None => cleaned skill
    end.
Proof. reflexivity. Qed.

Lemma cleaned_trimmed (skill : str) : trimmed (cleaned skill).
Proof.
  unfold cleaned.
  apply trailing_suffix_trimmed, filler_prefix_trimmed, strip_trimmed.
Qed.

Lemma cleaned_lowered (skill : str) : lowered (cleaned skill).
Proof.
  unfold cleaned, sub_empty, lowered.
  apply sub_from_Forall, sub_from_Forall, strip_Forall, lower_lowered.
Qed.

Lemma lookup_alias_key (tbl : dict (list str)) (s c : str) :
  lookup_alias tbl s = Some c -> In c (map fst tbl).
Proof.
  induction tbl as [|[k al] tbl IH]; cbn [lookup_alias map fst]; [discriminate|].
  destruct (str_eqb s k || mem s al).
  - intros [= ->]. left. reflexivity.
  - intro H. right. exact (IH H).
Qed.

(** Every canonical name but [ci/cd] normalizes to itself; [ci/cd] is also an
    alias of [jenkins], which comes first. *)
Lemma canonical_fixed (c : str) :
  In c (map fst SKILL_ALIASES) -> c <> lit "ci/cd" -> normalize_skill c = c.
Proof.
  intros Hin Hne.
  assert (H : forallb (fun k => str_eqb k (lit "ci/cd") || str_eqb (normalize_skill k) k)
                      (map fst SKILL_ALIASES) = true) by (vm_compute; reflexivity).
  rewrite forallb_forall in H. specialize (H c Hin).
  apply orb_true_iff in H. destruct H as [H|H]; apply str_eqb_eq in H; congruence.
Qed.

Lemma normalize_cicd_chain :
  normalize_skill (lit "continuous integration") = lit "ci/cd" /\
  normalize_skill (lit "ci/cd") = lit "jenkins".
Proof. split; vm_compute; reflexivity. Qed.

(** Only one filler prefix is removed: normalizing "using using python" gives
    "using python", and normalizing that gives "python". *)
Lemma normalize_skill_not_idempotent :
  normalize_skill (lit "using using python") = lit "using python" /\
  normalize_skill (lit "using python") = lit "python" /\
  normalize_skill (normalize_skill (lit "using using python"))
  <> normalize_skill (lit "using using python").
Proof.
  split; [vm_compute; reflexivity|]. split; [vm_compute; reflexivity|].
  vm_compute. discriminate.
Qed.

(** C4, amended: normalizing a normalized skill returns it unchanged whenever
    the normalized skill carries no further filler prefix and no further
    trailing suffix word and is not "ci/cd". *)
Theorem normalize_skill_idempotent_when_clean (skill : str) :
  sub_empty filler_prefix (normalize_skill skill) = normalize_skill skill ->
  sub_empty trailing_suffix (normalize_skill skill) = normalize_skill skill ->
  normalize_skill skill <> lit "ci/cd" ->
  normalize_skill (normalize_skill skill) = normalize_skill skill.
Proof.
  intros Hpre Hsuf Hne.
  rewrite (normalize_skill_cleaned skill) in *.
  destruct (lookup_alias SKILL_ALIASES (cleaned skill)) as [c|] eqn:E.
  - apply canonical_fixed; [exact (lookup_alias_key _ _ _ E) | exact Hne].
  - rewrite normalize_skill_cleaned.
    assert (Hc : cleaned (cleaned skill) = cleaned skill).
    { unfold cleaned at 1.
      rewrite (lower_fixed _ (cleaned_lowered skill)).
      rewrite (strip_fixed _ (cleaned_trimmed skill)).
      rewrite Hpre. exact Hsuf. }
    rewrite Hc, E. reflexivity.
Qed.

Lemma normalize_skill_idempotent_when_clean_witness :
  normalize_skill (normalize_skill (lit "  Using  React.JS Framework "))
  = normalize_skill (lit "  Using  React.JS Framework ").
Proof.
  apply (normalize_skill_idempotent_when_clean (lit "  Using  React.JS Framework ")).
  - vm_compute. reflexivity.
  - vm_compute. reflexivity.
  - vm_compute. discriminate.
Defined.

End NormalizeTwice.

(* ------------------------------------------------------------------ *)
(** ** SequenceMatcher: the longest match stays inside its window *)

Section LongestMatchBox.
Import Difflib.
Variables a b : str.
Variable b2j : b2j_t.

Lemma bounded_row_nil (rows blo : nat) : bounded_row [] rows blo.
Proof. intro j. simpl. lia. Qed.

Lemma j2len_prev_bound (d : j2len_t) (rows blo j : nat) :
  bounded_row d rows blo -> blo <= j ->
  j2len_prev d j + 1 <= rows + 1 /\ j2len_prev d j + 1 <= j + 1 - blo.
Proof.
  intros H Hj. destruct j as [|j']; cbn [j2len_prev].
  - lia.
  - destruct (H j') as [H1 H2]. lia.
Qed.

Lemma inner_loop_box (js : list nat) (i alo blo bhi : nat) (j2len : j2len_t) :
  alo <= i -> bounded_row j2len (i - alo) blo ->
  forall newj2len best,
    bounded_row newj2len (i + 1 - alo) blo ->
    box alo (i + 1) blo bhi best ->
    bounded_row (fst (inner_loop js i blo bhi j2len newj2len best)) (i + 1 - alo) blo /\
    box alo (i + 1) blo bhi (snd (inner_loop js i blo bhi j2len newj2len best)).
Proof.
  intros Hi Hrow. induction js as [|j js IH]; intros newj2len best Hnew Hbest;
    cbn [inner_loop].
  - split; assumption.
  - destruct (j <? blo) eqn:E1; [apply IH; assumption|].
    destruct (bhi <=? j) eqn:E2; [split; assumption|].
    apply Nat.ltb_ge in E1. apply Nat.leb_gt in E2.
    destruct (j2len_prev_bound j2len (i - alo) blo j Hrow E1) as [Hk1 Hk2].
    destruct best as [[bi bj] bk].
    apply IH.
    + intro j'. cbn [j2len_get].
      destruct (j =? j') eqn:Ej; [|apply Hnew].
      apply Nat.eqb_eq in Ej. subst j'. lia.
    + destruct (bk <? j2len_prev j2len j + 1); [|exact Hbest].
      unfold box. lia.
Qed.

Lemma outer_loop_box (n : nat) (alo blo bhi : nat) :
  forall i j2len best,
    alo <= i -> bounded_row j2len (i - alo) blo -> box alo i blo bhi best ->
    box alo (i + n) blo bhi (outer_loop a b2j n i blo bhi j2len best).
Proof.
  induction n as [|n IH]; intros i j2len best Hi Hrow Hbest; cbn [outer_loop].
  - rewrite Nat.add_0_r. exact Hbest.
  - assert (Hbest' : box alo (i + 1) blo bhi best).
    { destruct best as [[bi bj] bk]. unfold box in *. lia. }
    pose proof (inner_loop_box (b2j_get b2j (nth i a zero)) i alo blo bhi j2len Hi Hrow
                               [] best (bounded_row_nil _ _) Hbest') as [H1 H2].
    destruct (inner_loop (b2j_get b2j (nth i a zero)) i blo bhi j2len [] best)
      as [newj2len best'].
    cbn [fst snd] in H1, H2.
    replace (i + S n) with (S i + n) by lia.
    apply IH; [lia | | ].
    + replace (S i - alo) with (i + 1 - alo) by lia. exact H1.
    + replace (S i) with (i + 1) by lia. exact H2.
Qed.

Lemma extend_left_box (ok : ascii -> bool) (alo ahi blo bhi : nat) :
  forall besti bestj bestsize,
    box alo ahi blo bhi (besti, bestj, bestsize) ->
    box alo ahi blo bhi (extend_left a b ok alo blo besti bestj bestsize).
Proof.
  induction besti as [|i' IH]; intros bestj bestsize H; cbn [extend_left]; [exact H|].
  destruct bestj as [|j']; [exact H|].
  destruct (_ && _ && _ && _) eqn:E; [|exact H].
  rewrite !andb_true_iff in E. destruct E as [[[E1 E2] _] _].
  apply Nat.ltb_lt in E1, E2.
  apply IH. unfold box in *. lia.
Qed.

Lemma extend_right_box (ok : ascii -> bool) (alo ahi blo bhi : nat) :
  forall room besti bestj bestsize,
    room + (besti + bestsize) <= ahi ->
    box alo ahi blo bhi (besti, bestj, bestsize) ->
    box alo ahi blo bhi (extend_right a b ok room bhi besti bestj bestsize).
Proof.
  induction room as [|room IH]; intros besti bestj bestsize Hroom H; cbn [extend_right];
    [exact H|].
  destruct (_ && _ && _) eqn:E; [|exact H].
  rewrite !andb_true_iff in E. destruct E as [[E1 _] _].
  apply Nat.ltb_lt in E1.
  apply IH; [lia|]. unfold box in *. lia.
Qed.

Lemma find_longest_match_box (alo ahi blo bhi : nat) :
  alo <= ahi -> blo <= bhi ->
  box alo ahi blo bhi (find_longest_match a b b2j alo ahi blo bhi).
Proof.
  intros Ha Hb. unfold find_longest_match.
  assert (H0 : box alo ahi blo bhi (outer_loop a b2j (ahi - alo) alo blo bhi [] (alo, blo, 0))).
  { replace ahi with (alo + (ahi - alo)) at 1 by lia.
    apply outer_loop_box; [lia | apply bounded_row_nil | unfold box; lia]. }
  destruct (outer_loop a b2j (ahi - alo) alo blo bhi [] (alo, blo, 0)) as [[i0 j0] k0].
  pose proof (extend_left_box (fun c => negb (isbjunk c)) alo ahi blo bhi i0 j0 k0 H0) as H1.
  destruct (extend_left a b (fun c => negb (isbjunk c)) alo blo i0 j0 k0) as [[i1 j1] k1].
  assert (H2 : box alo ahi blo bhi
                   (extend_right a b (fun c => negb (isbjunk c)) (ahi - (i1 + k1)) bhi i1 j1 k1)).
  { apply extend_right_box; [unfold box in H1; lia | exact H1]. }
  destruct (extend_right a b (fun c => negb (isbjunk c)) (ahi - (i1 + k1)) bhi i1 j1 k1)
    as [[i2 j2] k2].
  pose proof (extend_left_box isbjunk alo ahi blo bhi i2 j2 k2 H2) as H3.
  destruct (extend_left a b isbjunk alo blo i2 j2 k2) as [[i3 j3] k3].
  apply extend_right_box; [unfold box in H3; lia | exact H3].
Qed.

End LongestMatchBox.

(* ------------------------------------------------------------------ *)
(** ** SequenceMatcher: the block loop terminates and matches no more
       characters than either string has *)

Section MatchingBlocks.
Import Difflib.
Variables a b : str.
Variable b2j : b2j_t.

Lemma total_size_app (l1 l2 : list Match) :
  total_size (l1 ++ l2) = total_size l1 + total_size l2.
Proof. unfold total_size. rewrite map_app, list_sum_app. reflexivity. Qed.

Lemma sum_sizes_total (blocks : list Match) : sum_sizes blocks = total_size blocks.
Proof.
  unfold sum_sizes, total_size.
  assert (H : forall l n, fold_left (fun acc (t : Match) => acc + snd t) l n
                          = n + list_sum (map snd l)).
  { induction l as [|x l IH]; intro n; simpl; [lia|]. rewrite IH. lia. }
  rewrite H. reflexivity.
Qed.

Lemma steps_cons (alo ahi blo bhi : nat) (q : list window) :
  steps ((alo, ahi, blo, bhi) :: q) = 2 * (ahi - alo) + 1 + steps q.
Proof. reflexivity. Qed.

Lemma a_room_cons (alo ahi blo bhi : nat) (q : list window) :
  a_room ((alo, ahi, blo, bhi) :: q) = ahi - alo + a_room q.
Proof. reflexivity. Qed.

Lemma b_room_cons (alo ahi blo bhi : nat) (q : list window) :
  b_room ((alo, ahi, blo, bhi) :: q) = bhi - blo + b_room q.
Proof. reflexivity. Qed.

Lemma total_size_snoc (acc : list Match) (i j k : nat) :
  total_size (acc ++ [(i, j, k)]) = total_size acc + k.
Proof. rewrite total_size_app. cbn. lia. Qed.

Lemma blocks_loop_spec (fuel : nat) :
  forall queue acc,
    Forall window_ok queue -> steps queue <= fuel ->
    exists out,
      blocks_loop a b b2j fuel queue acc = Some out /\
      total_size out <= total_size acc + a_room queue /\
      total_size out <= total_size acc + b_room queue.
Proof.
  induction fuel as [|fuel IH]; intros queue acc Hq Hsteps.
  - destruct queue as [|[[[alo ahi] blo] bhi] queue].
    + exists acc. cbn. split; [reflexivity | lia].
    + rewrite steps_cons in Hsteps. lia.
  - destruct queue as [|[[[alo ahi] blo] bhi] queue].
    + exists acc. cbn. split; [reflexivity | lia].
    + cbn [blocks_loop].
      inversion Hq as [|w q' Hw Hq']; subst. destruct Hw as [Ha Hb].
      pose proof (find_longest_match_box a b b2j alo ahi blo bhi Ha Hb) as Hbox.
      destruct (find_longest_match a b b2j alo ahi blo bhi) as [[i j] k].
      unfold box in Hbox. destruct Hbox as (B1 & B2 & B3 & B4).
      rewrite steps_cons in Hsteps. rewrite a_room_cons, b_room_cons.
      destruct (k =? 0) eqn:Ek.
      * destruct (IH queue acc Hq') as (out & Ho & H1 & H2); [lia|].
        exists out. split; [exact Ho | lia].
      * apply Nat.eqb_neq in Ek.
        destruct ((alo <? i) && (blo <? j)) eqn:E1;
          destruct ((i + k <? ahi) && (j + k <? bhi)) eqn:E2;
          rewrite ?andb_true_iff, ?Nat.ltb_lt in *.
        -- destruct (IH ((i + k, ahi, j + k, bhi) :: (alo, i, blo, j) :: queue)
                        (acc ++ [(i, j, k)])) as (out & Ho & H1 & H2).
           ++ repeat constructor; try lia. exact Hq'.
           ++ rewrite !steps_cons. lia.
           ++ exists out. split; [exact Ho|].
              rewrite total_size_snoc, !a_room_cons in H1.
              rewrite total_size_snoc, !b_room_cons in H2. lia.
        -- destruct (IH ((alo, i, blo, j) :: queue) (acc ++ [(i, j, k)]))
             as (out & Ho & H1 & H2).
           ++ repeat constructor; try lia. exact Hq'.
           ++ rewrite !steps_cons. lia.
           ++ exists out. split; [exact Ho|].
              rewrite total_size_snoc, !a_room_cons in H1.
              rewrite total_size_snoc, !b_room_cons in H2. lia.
        -- destruct (IH ((i + k, ahi, j + k, bhi) :: queue) (acc ++ [(i, j, k)]))
             as (out & Ho & H1 & H2).
           ++ repeat constructor; try lia. exact Hq'.
           ++ rewrite !steps_cons. lia.
           ++ exists out. split; [exact Ho|].
              rewrite total_size_snoc, !a_room_cons in H1.
              rewrite total_size_snoc, !b_room_cons in H2. lia.
        -- destruct (IH queue (acc ++ [(i, j, k)])) as (out & Ho & H1 & H2).
           ++ exact Hq'.
           ++ lia.
           ++ exists out. split; [exact Ho|].
              rewrite total_size_snoc in H1, H2. lia.
Qed.

Lemma total_size_cons (x : Match) (l : list Match) :
  total_size (x :: l) = snd x + total_size l.
Proof. reflexivity. Qed.

Lemma insert_sorted_size (x : Match) (l : list Match) :
  total_size (insert_sorted x l) = snd x + total_size l.
Proof.
  induction l as [|y l IH]; cbn [insert_sorted]; [reflexivity|].
  destruct (match_leb x y); [reflexivity|].
  rewrite !total_size_cons, IH. lia.
Qed.

Lemma sort_size (l : list Match) : total_size (sort l) = total_size l.
Proof.
  induction l as [|x l IH]; [reflexivity|].
  unfold sort in *. cbn [fold_right]. rewrite insert_sorted_size, IH. reflexivity.
Qed.

Lemma collapse_size (blocks : list Match) :
  forall i1 j1 k1 acc,
    total_size (collapse blocks i1 j1 k1 acc) = total_size acc + k1 + total_size blocks.
Proof.
  induction blocks as [|[[i2 j2] k2] blocks IH]; intros i1 j1 k1 acc; cbn [collapse].
  - destruct (k1 =? 0) eqn:E.
    + apply Nat.eqb_eq in E. subst. cbn. lia.
    + rewrite total_size_snoc. cbn. lia.
  - rewrite total_size_cons. cbn [snd].
    destruct ((i1 + k1 =? i2) && (j1 + k1 =? j2)).
    + rewrite IH. lia.
    + rewrite IH. destruct (k1 =? 0) eqn:E.
      * apply Nat.eqb_eq in E. subst. lia.
      * rewrite total_size_snoc. lia.
Qed.

End MatchingBlocks.

Section RatioBounds.
Import Difflib.
Local Open Scope Q_scope.

(** The fuel of [get_matching_blocks] suffices, and the blocks it returns
    cover no more characters than [a] has, nor than [b] has. *)
Lemma get_matching_blocks_total (a b : str) :
  exists blocks,
    get_matching_blocks a b = Some blocks /\
    (sum_sizes blocks <= length a)%nat /\ (sum_sizes blocks <= length b)%nat.
Proof.
  unfold get_matching_blocks.
  destruct (blocks_loop_spec a b (chain_b b) (2 * length a + 1)
                             [(0, length a, 0, length b)] [])%nat
    as (out & Ho & H1 & H2).
  - repeat constructor; lia.
  - cbn. lia.
  - rewrite Ho. eexists. split; [reflexivity|].
    rewrite sum_sizes_total, total_size_app, collapse_size, sort_size.
    cbn in *. lia.
Qed.

Lemma calculate_ratio_bounds (matches la lb : nat) :
  (matches <= la)%nat -> (matches <= lb)%nat ->
  0 <= calculate_ratio matches (la + lb) /\ calculate_ratio matches (la + lb) <= 1.
Proof.
  intros Ha Hb. unfold calculate_ratio.
  destruct (la + lb =? 0)%nat eqn:E.
  - split; discriminate.
  - apply Nat.eqb_neq in E.
    assert (Hpos : 0 < Qn (la + lb)) by (apply Qn_pos; lia).
    assert (Hmul : Qn 2 * Qn matches == Qn (2 * matches)).
    { unfold Qn. rewrite <- inject_Z_mult. f_equiv. lia. }
    split.
    + apply Qle_shift_div_l; [exact Hpos|]. rewrite Qmult_0_l, Hmul. apply Qn_nonneg.
    + apply Qle_shift_div_r; [exact Hpos|]. rewrite Qmult_1_l, Hmul. apply Qn_le. lia.
Qed.

Lemma ratio_bounds (a b : str) : 0 <= ratio a b /\ ratio a b <= 1.
Proof.
  unfold ratio. destruct (get_matching_blocks_total a b) as (blocks & -> & Ha & Hb).
  apply calculate_ratio_bounds; assumption.
Qed.

End RatioBounds.

(* ------------------------------------------------------------------ *)
(** ** SequenceMatcher: the index of [b] *)

Section ChainB.
Import Difflib.

Lemma b2j_get_append (d : b2j_t) (c' : ascii) (i : nat) (c : ascii) :
  b2j_get (b2j_append d c' i) c
  = if Ascii.eqb c' c then b2j_get d c ++ [i] else b2j_get d c.
Proof.
  induction d as [|[x l] d IH]; cbn [b2j_append b2j_get].
  - destruct (Ascii.eqb c' c); reflexivity.
  - destruct (Ascii.eqb x c') eqn:E1; cbn [b2j_get].
    + apply Ascii.eqb_eq in E1. subst x. destruct (Ascii.eqb c' c); reflexivity.
    + destruct (Ascii.eqb x c) eqn:E2; [|exact IH].
      apply Ascii.eqb_eq in E2. subst x.
      rewrite Ascii.eqb_sym, E1. reflexivity.
Qed.

Lemma chain_loop_get (b : str) (c : ascii) :
  forall i d, b2j_get (chain_loop b i d) c = b2j_get d c ++ indices c b i.
Proof.
  induction b as [|x b IH]; intros i d; cbn [chain_loop indices].
  - rewrite app_nil_r. reflexivity.
  - rewrite IH, b2j_get_append.
    destruct (Ascii.eqb x c); [rewrite <- app_assoc|]; reflexivity.
Qed.

Lemma b2j_append_keys (d : b2j_t) (c : ascii) (i : nat) (k : ascii) :
  In k (map fst (b2j_append d c i)) -> k = c \/ In k (map fst d).
Proof.
  induction d as [|[x l] d IH]; cbn [b2j_append map fst In].
  - intros [H|[]]. left. auto.
  - destruct (Ascii.eqb x c); cbn [map fst In]; [tauto|].
    intros [H|H]; [tauto|]. destruct (IH H); tauto.
Qed.

Lemma b2j_append_NoDup (d : b2j_t) (c : ascii) (i : nat) :
  NoDup (map fst d) -> NoDup (map fst (b2j_append d c i)).
Proof.
  induction d as [|[x l] d IH]; cbn [b2j_append map fst]; intro H.
  - constructor; [intros [] | constructor].
  - destruct (Ascii.eqb x c) eqn:E; cbn [map fst]; [exact H|].
    inversion H as [|y ys Hx Hd]; subst. constructor; [|exact (IH Hd)].
    intro Hin. apply b2j_append_keys in Hin. destruct Hin as [->|Hin]; [|contradiction].
    rewrite Ascii.eqb_refl in E. discriminate.
Qed.

Lemma chain_loop_NoDup (b : str) :
  forall i d, NoDup (map fst d) -> NoDup (map fst (chain_loop b i d)).
Proof.
  induction b as [|x b IH]; intros i d H; cbn [chain_loop]; [exact H|].
  apply IH, b2j_append_NoDup, H.
Qed.

Lemma b2j_get_absent (d : b2j_t) (c : ascii) : ~ In c (map fst d) -> b2j_get d c = [].
Proof.
  induction d as [|[x l] d IH]; cbn [b2j_get map fst In]; intro H; [reflexivity|].
  destruct (Ascii.eqb x c) eqn:E.
  - apply Ascii.eqb_eq in E. tauto.
  - apply IH. tauto.
Qed.

Lemma b2j_get_filter (f : ascii * list nat -> bool) (d : b2j_t) (c : ascii) :
  NoDup (map fst d) ->
  b2j_get (filter f d) c = b2j_get d c \/ b2j_get (filter f d) c = [].
Proof.
  induction d as [|[x l] d IH]; cbn [filter b2j_get map fst]; intro H; [left; reflexivity|].
  inversion H as [|y ys Hx Hd]; subst.
  destruct (f (x, l)); cbn [b2j_get].
  - destruct (Ascii.eqb x c); [left; reflexivity | exact (IH Hd)].
  - destruct (Ascii.eqb x c) eqn:E; [|exact (IH Hd)].
    apply Ascii.eqb_eq in E. subst x. right.
    apply b2j_get_absent. intro Hin. apply Hx.
    apply in_map_iff in Hin. destruct Hin as ([k v] & Hk & Hin).
    apply filter_In in Hin. apply in_map_iff. exists (k, v). tauto.
Qed.

(** An element of [b] is indexed in full or, when popular, not at all. *)
Lemma chain_b_get (b : str) (c : ascii) :
  b2j_get (chain_b b) c = indices c b 0 \/ b2j_get (chain_b b) c = [].
Proof.
  unfold chain_b.
  assert (Hfull : b2j_get (chain_loop b 0 []) c = indices c b 0).
  { rewrite chain_loop_get. reflexivity. }
  destruct (200 <=? length b); [|left; exact Hfull].
  rewrite <- Hfull. apply b2j_get_filter, chain_loop_NoDup. constructor.
Qed.

Lemma indices_In (c : ascii) (b : str) :
  forall i j, In j (indices c b i) <-> i <= j /\ j < i + length b /\ nth (j - i) b zero = c.
Proof.
  induction b as [|x b IH]; intros i j; cbn [indices length].
  - split; [intros [] | lia].
  - assert (Hrec : In j (indices c b (S i)) <->
                   i < j /\ j < i + S (length b) /\ nth (j - i) (x :: b) zero = c).
    { rewrite IH. split.
      - intros (H1 & H2 & H3). repeat split; try lia.
        replace (j - i) with (S (j - S i)) by lia. exact H3.
      - intros (H1 & H2 & H3). repeat split; try lia.
        replace (j - i) with (S (j - S i)) in H3 by lia. exact H3. }
    destruct (Ascii.eqb x c) eqn:E.
    + apply Ascii.eqb_eq in E. subst x. cbn [In]. rewrite Hrec. split.
      * intros [<-|H]; [|repeat split; try lia; tauto].
        repeat split; try lia. rewrite Nat.sub_diag. reflexivity.
      * intros (H1 & H2 & H3).
        destruct (Nat.eq_dec i j) as [->|Hne]; [left; reflexivity|].
        right. repeat split; try lia. exact H3.
    + rewrite Hrec. split.
      * intros (H1 & H2 & H3). repeat split; try lia. exact H3.
      * intros (H1 & H2 & H3).
        destruct (Nat.eq_dec i j) as [->|Hne].
        -- rewrite Nat.sub_diag in H3. cbn in H3. subst x.
           rewrite Ascii.eqb_refl in E. discriminate.
        -- repeat split; try lia. exact H3.
Qed.

(** The index list of an element is strictly increasing. *)
Lemma indices_sorted (c : ascii) (b : str) :
  forall i, StronglySorted lt (indices c b i).
Proof.
  induction b as [|x b IH]; intro i; cbn [indices]; [constructor|].
  destruct (Ascii.eqb x c); [|apply IH].
  constructor; [apply IH|].
  apply Forall_forall. intros j Hj. apply indices_In in Hj. lia.
Qed.

End ChainB.

(* ------------------------------------------------------------------ *)
(** ** SequenceMatcher on two equal strings *)

Section Identical.
Import Difflib.
Variable s : str.

Lemma run_eq (x : nat) :
  run s x = if indexed s (nth x s zero) then S (run_before s x) else 0.
Proof. destruct x; reflexivity. Qed.

Lemma row_cases (i : nat) :
  i < length s ->
  let js := b2j_get (chain_b s) (nth i s zero) in
  (js = [] /\ run s i = 0) \/
  (In i js /\ StronglySorted lt js /\
   (forall j, In j js -> j < length s /\ nth j s zero = nth i s zero) /\
   run s i = S (run_before s i)).
Proof.
  intros Hi js. subst js. rewrite run_eq. unfold indexed.
  destruct (chain_b_get s (nth i s zero)) as [H|H]; rewrite H.
  - right.
    assert (Hin : In i (indices (nth i s zero) s 0)).
    { apply indices_In. rewrite Nat.sub_0_r. repeat split; lia. }
    split; [exact Hin|]. split; [apply indices_sorted|]. split.
    + intros j Hj. apply indices_In in Hj. rewrite Nat.sub_0_r in Hj.
      split; [lia | tauto].
    + destruct (indices (nth i s zero) s 0); [contradiction | reflexivity].
  - left. split; reflexivity.
Qed.

Lemma inner_loop_diag (i : nat) (j2len : j2len_t) :
  (forall j, j2len_prev j2len j <= run_before s (Nat.min i j)) ->
  j2len_prev j2len i = run_before s i ->
  run s i = S (run_before s i) ->
  forall js newj2len best,
    StronglySorted lt js ->
    (forall j, In j js -> j < length s /\ nth j s zero = nth i s zero) ->
    diag best ->
    (forall j, j2len_get newj2len j <= run s (Nat.min i j)) ->
    (forall x, x < i -> run s x <= snd best) ->
    (In i js \/ (run s i <= snd best /\ j2len_get newj2len i = run s i)) ->
    diag (snd (inner_loop js i 0 (length s) j2len newj2len best)) /\
    (forall j, j2len_get (fst (inner_loop js i 0 (length s) j2len newj2len best)) j
               <= run s (Nat.min i j)) /\
    (forall x, x < i -> run s x <= snd (snd (inner_loop js i 0 (length s) j2len newj2len best))) /\
    run s i <= snd (snd (inner_loop js i 0 (length s) j2len newj2len best)) /\
    j2len_get (fst (inner_loop js i 0 (length s) j2len newj2len best)) i = run s i.
Proof.
  intros Hprev Hexact Hrun.
  assert (Hidx : indexed s (nth i s zero) = true).
  { rewrite run_eq in Hrun. destruct (indexed s (nth i s zero)); [reflexivity | discriminate]. }
  induction js as [|j js IH]; intros newj2len best Hsorted Hjs Hdiag Hnew Hbelow Hstate;
    cbn [inner_loop].
  - destruct Hstate as [[]|[H1 H2]]. cbn [fst snd]. auto.
  - destruct (Hjs j (or_introl eq_refl)) as [Hj Hsj].
    inversion Hsorted as [|j' js' Hsorted' Hall]; subst.
    rewrite Forall_forall in Hall.
    assert (E1 : (j <? 0) = false) by (apply Nat.ltb_ge; lia).
    assert (E2 : (length s <=? j) = false) by (apply Nat.leb_gt; exact Hj).
    rewrite E1, E2.
    assert (Hrunm : run s (Nat.min i j) = S (run_before s (Nat.min i j))).
    { rewrite run_eq.
      replace (nth (Nat.min i j) s zero) with (nth i s zero).
      - rewrite Hidx. reflexivity.
      - destruct (Nat.min_spec i j) as [[_ ->]|[_ ->]]; [reflexivity | symmetry; exact Hsj]. }
    pose proof (Hprev j) as Hk.
    destruct best as [[bi bj] bk]. cbn [snd] in Hbelow, Hstate.
    destruct (Nat.eq_dec j i) as [->|Hne].
    + (* the diagonal cell *)
      rewrite Hexact. rewrite Nat.min_id in Hrunm.
      apply IH.
      * exact Hsorted'.
      * intros j' Hj'. apply Hjs. right. exact Hj'.
      * destruct (bk <? run_before s i + 1); [|exact Hdiag].
        unfold diag. cbn [fst snd]. reflexivity.
      * intro j'. cbn [j2len_get]. destruct (i =? j') eqn:E; [|apply Hnew].
        apply Nat.eqb_eq in E. subst j'. rewrite Nat.min_id. lia.
      * intros x Hx. specialize (Hbelow x Hx).
        destruct (bk <? run_before s i + 1) eqn:E; cbn [snd]; [|exact Hbelow].
        apply Nat.ltb_lt in E. lia.
      * right. cbn [j2len_get]. rewrite Nat.eqb_refl.
        split; [|lia].
        destruct (bk <? run_before s i + 1) eqn:E; cbn [snd]; [lia|].
        apply Nat.ltb_ge in E. lia.
    + (* off the diagonal: no longer than what the diagonal gave *)
      assert (Hle : j2len_prev j2len j + 1 <= bk).
      { destruct Hstate as [[Hin|Hin]|[H1 H2]].
        - congruence.
        - specialize (Hall i Hin).
          rewrite Nat.min_r in Hrunm, Hk by lia.
          specialize (Hbelow j Hall). lia.
        - destruct (Nat.min_spec i j) as [[Hlt Hm]|[Hlt Hm]]; rewrite Hm in Hrunm, Hk.
          + lia.
          + assert (j < i) by lia. specialize (Hbelow j H). lia. }
      assert (E : (bk <? j2len_prev j2len j + 1) = false) by (apply Nat.ltb_ge; exact Hle).
      rewrite E.
      apply IH.
      * exact Hsorted'.
      * intros j' Hj'. apply Hjs. right. exact Hj'.
      * exact Hdiag.
      * intro j'. cbn [j2len_get]. destruct (j =? j') eqn:Ej; [|apply Hnew].
        apply Nat.eqb_eq in Ej. subst j'. lia.
      * exact Hbelow.
      * destruct Hstate as [[Hin|Hin]|[H1 H2]].
        -- congruence.
        -- left. exact Hin.
        -- right. cbn [j2len_get snd].
           destruct (j =? i) eqn:Ej; [apply Nat.eqb_eq in Ej; congruence|].
           split; assumption.
Qed.

Lemma outer_loop_diag (m : nat) :
  forall i j2len best,
    i + m = length s ->
    (forall j, j2len_prev j2len j <= run_before s (Nat.min i j)) ->
    j2len_prev j2len i = run_before s i ->
    diag best ->
    (forall x, x < i -> run s x <= snd best) ->
    diag (outer_loop s (chain_b s) m i 0 (length s) j2len best).
Proof.
  induction m as [|m IH]; intros i j2len best Hlen Hprev Hexact Hdiag Hbelow;
    cbn [outer_loop]; [exact Hdiag|].
  assert (Hi : i < length s) by lia.
  destruct (row_cases i Hi) as [[Hnil Hrun]|(Hin & Hsorted & Hjs & Hrun)].
  - rewrite Hnil. cbn [inner_loop].
    apply IH.
    + lia.
    + intros [|j]; cbn; lia.
    + cbn. lia.
    + exact Hdiag.
    + intros x Hx. destruct (Nat.eq_dec x i) as [->|Hne]; [lia|].
      apply Hbelow. lia.
  - pose proof (inner_loop_diag i j2len Hprev Hexact Hrun
                                (b2j_get (chain_b s) (nth i s zero)) [] best
                                Hsorted Hjs Hdiag) as H.
    destruct H as (D1 & D2 & D3 & D4 & D5).
    + intro j. cbn. lia.
    + exact Hbelow.
    + left. exact Hin.
    + destruct (inner_loop (b2j_get (chain_b s) (nth i s zero)) i 0 (length s) j2len [] best)
        as [newj2len best'].
      cbn [fst snd] in *.
      apply IH.
      * lia.
      * intros [|j]; cbn [j2len_prev]; [lia|].
        specialize (D2 j). cbn [Nat.min run_before]. exact D2.
      * cbn [j2len_prev run_before]. exact D5.
      * exact D1.
      * intros x Hx. destruct (Nat.eq_dec x i) as [->|Hne]; [exact D4|].
        apply D3. lia.
Qed.

Lemma extend_left_diag (ok : ascii -> bool) :
  (forall c, ok c = true) ->
  forall d k, extend_left s s ok 0 0 d d k = (0, 0, d + k).
Proof.
  intro Hok. induction d as [|d IH]; intro k; cbn [extend_left]; [reflexivity|].
  rewrite Hok, Ascii.eqb_refl. cbn [Nat.ltb Nat.leb andb].
  rewrite IH. f_equal. lia.
Qed.

Lemma extend_right_diag (ok : ascii -> bool) :
  (forall c, ok c = true) ->
  forall room k,
    k + room <= length s ->
    extend_right s s ok room (length s) 0 0 k = (0, 0, k + room).
Proof.
  intro Hok. induction room as [|room IH]; intros k Hk; cbn [extend_right].
  - f_equal. lia.
  - rewrite Hok, Ascii.eqb_refl. cbn [Nat.add].
    assert (E : (k <? length s) = true) by (apply Nat.ltb_lt; lia).
    rewrite E. cbn [andb]. rewrite IH by lia. f_equal. lia.
Qed.

(** On two equal strings the longest match is the whole string. *)
Lemma find_longest_match_same :
  find_longest_match s s (chain_b s) 0 (length s) 0 (length s) = (0, 0, length s).
Proof.
  unfold find_longest_match.
  pose proof (outer_loop_diag (length s - 0) 0 [] (0, 0, 0)) as Hd.
  pose proof (outer_loop_box s (chain_b s) (length s - 0) 0 0 (length s) 0 [] (0, 0, 0)) as Hb.
  destruct (outer_loop s (chain_b s) (length s - 0) 0 0 (length s) [] (0, 0, 0))
    as [[i0 j0] k0].
  assert (Hdiag : i0 = j0).
  { apply Hd.
    - lia.
    - intros [|j]; cbn; lia.
    - reflexivity.
    - reflexivity.
    - intros x Hx. lia. }
  assert (Hbox : i0 + k0 <= length s).
  { assert (H0 : box 0 0 0 (length s) (0, 0, 0)) by (unfold box; lia).
    specialize (Hb (Nat.le_refl 0) (bounded_row_nil _ _) H0).
    destruct Hb as (_ & H & _). lia. }
  subst j0.
  rewrite (extend_left_diag (fun c => negb (isbjunk c)) (fun c => eq_refl) i0 k0).
  rewrite (extend_right_diag (fun c => negb (isbjunk c)) (fun c => eq_refl)
                             (length s - (0 + (i0 + k0))) (i0 + k0)) by lia.
  replace (i0 + k0 + (length s - (0 + (i0 + k0)))) with (length s) by lia.
  cbn [extend_left]. rewrite Nat.sub_diag. reflexivity.
Qed.

End Identical.

(* ------------------------------------------------------------------ *)
(** ** The fuzzy score *)

Section FuzzyScore.
Import Difflib.
Local Open Scope Q_scope.

Lemma get_matching_blocks_same (s : str) :
  exists blocks, get_matching_blocks s s = Some blocks /\ sum_sizes blocks = length s.
Proof.
  unfold get_matching_blocks.
  replace (2 * length s + 1)%nat with (S (2 * length s)) by lia.
  cbn [blocks_loop]. rewrite find_longest_match_same.
  destruct (length s =? 0)%nat eqn:E.
  - apply Nat.eqb_eq in E.
    assert (Hl : blocks_loop s s (chain_b s) (2 * length s) [] [] = Some []).
    { destruct (2 * length s)%nat; reflexivity. }
    rewrite Hl. eexists. split; [reflexivity|]. rewrite E. reflexivity.
  - cbn [Nat.add]. rewrite !Nat.ltb_irrefl. cbn [andb app].
    assert (Hl : blocks_loop s s (chain_b s) (2 * length s) [] [(0, 0, length s)]%nat
                 = Some [(0, 0, length s)]%nat).
    { destruct (2 * length s)%nat; reflexivity. }
    rewrite Hl. eexists. split; [reflexivity|].
    rewrite sum_sizes_total, total_size_app, collapse_size, sort_size. cbn. lia.
Qed.

Lemma ratio_same (s : str) : ratio s s == 1.
Proof.
  unfold ratio. destruct (get_matching_blocks_same s) as (blocks & -> & ->).
  unfold calculate_ratio. destruct (length s + length s =? 0)%nat eqn:E; [reflexivity|].
  apply Nat.eqb_neq in E.
  assert (Hpos : ~ Qn (length s + length s) == 0) by (apply Qn_nonzero; lia).
  assert (Hmul : Qn 2 * Qn (length s) == Qn (length s + length s)).
  { unfold Qn. rewrite <- inject_Z_mult. f_equiv. lia. }
  rewrite Hmul. apply Qdiv_mult_l with (x := 1) in Hpos. rewrite Qmult_1_l in Hpos.
  exact Hpos.
Qed.

(** [SequenceMatcher] is not symmetric: "tide" against "diet" scores 0.25,
    "diet" against "tide" scores 0.5. *)
Lemma fuzzy_match_score_not_symmetric :
  fuzzy_match_score (lit "tide") (lit "diet") == 0.25 /\
  fuzzy_match_score (lit "diet") (lit "tide") == 0.5 /\
  ~ fuzzy_match_score (lit "tide") (lit "diet") == fuzzy_match_score (lit "diet") (lit "tide").
Proof.
  split; [reflexivity|]. split; [reflexivity|]. vm_compute. discriminate.
Qed.

(** C8, amended: the fuzzy score lies between 0 and 1 for all inputs and is
    1.0 whenever the two strings are identical. *)
Theorem fuzzy_match_score_bounded_reflexive :
  (forall text1 text2 : str,
      0 <= fuzzy_match_score text1 text2 /\ fuzzy_match_score text1 text2 <= 1) /\
  (forall text : str, fuzzy_match_score text text == 1.0).
Proof.
  split.
  - intros text1 text2. apply ratio_bounds.
  - intro text. unfold fuzzy_match_score. rewrite ratio_same. reflexivity.
Qed.

End FuzzyScore.

(* ------------------------------------------------------------------ *)
(** ** Worked examples *)

Section Examples.
Local Open Scope Q_scope.

Example normalize_k8s : normalize_skill (lit "k8s") = lit "kubernetes".
Proof. vm_compute. reflexivity. Qed.

Example normalize_reactjs : normalize_skill (lit " ReactJS ") = lit "react".
Proof. vm_compute. reflexivity. Qed.

Example normalize_strips_once :
  normalize_skill (lit "Using Python Programming") = lit "python".
Proof. vm_compute. reflexivity. Qed.

Example variants_machine_learning :
  create_skill_variants (lit "Machine Learning")
  = map lit ["machine learning"; "ml"; "artificial intelligence"; "ai"; "machinelearning";
             "machine.learning"; "machine-learning"]%string.
Proof. vm_compute. reflexivity. Qed.

(** Both JD skills are found in the text, each with confidence 1.0. *)
Example match_python_kubernetes :
  exists r,
    find_skill_matches
      (lit "Developed services using Python and deployed via Kubernetes (k8s)") []
      [lit "Python"; lit "Kubernetes"] = Ok r /\
    matched_skills r = [lit "Python"; lit "Kubernetes"] /\
    map snd (confidence_scores r) = [1; 1] /\
    match_rate r == 1.
Proof.
  eexists. split; [vm_compute; reflexivity|]. repeat split.
Qed.

(** One character apart: the ratio is 14/15, above the 0.85 threshold. *)
Example fuzzy_reactjs :
  fuzzy_match_score (lit "reactjs") (lit "react.js") == 14 # 15 /\
  Qle_bool 0.85 (fuzzy_match_score (lit "reactjs") (lit "react.js")) = true.
Proof. split; vm_compute; reflexivity. Qed.

Example fuzzy_unrelated :
  fuzzy_match_score (lit "python") (lit "kubernetes") == 0.125.
Proof. vm_compute. reflexivity. Qed.

(** All components at 0: the penalty changes nothing. *)
Example aggregate_all_zero :
  exists r,
    aggregate_enhanced_scores (map (fun kw : str * Q => (fst kw, VNum 0)) weights) = Ok r /\
    score_0_100 r == 0 /\ score_0_10 r == 0.
Proof.
  eexists. split; [vm_compute; reflexivity|]. split; reflexivity.
Qed.

End Examples.

(* ------------------------------------------------------------------ *)
(** ** The matcher: how far a confidence can move *)

Section ConfidenceBounds.
Local Open Scope Q_scope.
Variable resume_text : str.
Variable resume_skills : list str.

Lemma fuzzy_match_score_bounds (a b : str) :
  0 <= fuzzy_match_score a b /\ fuzzy_match_score a b <= 1.
Proof. apply ratio_bounds. Qed.

Lemma text_step_ge (st : Q * list str) (variant : str) :
  fst st <= fst (text_step resume_text st variant).
Proof.
  destruct st as [best ev]. unfold text_step.
  destruct (contains (resume_text_lower resume_text) variant); cbn [fst].
  - apply Q.le_max_l.
  - apply Qle_refl.
Qed.

Lemma text_step_le (st : Q * list str) (variant : str) :
  fst st <= 1 -> fst (text_step resume_text st variant) <= 1.
Proof.
  destruct st as [best ev]. unfold text_step. cbn [fst]. intro H.
  destruct (contains (resume_text_lower resume_text) variant); cbn [fst].
  - apply Q.max_lub; [exact H | apply Qle_refl].
  - exact H.
Qed.

Lemma variant_step_ge (jd_variant : str) (best : Q) (resume_variant : str) :
  best <= variant_step jd_variant best resume_variant.
Proof.
  unfold variant_step. destruct (str_eqb jd_variant resume_variant).
  - apply Q.le_max_l.
  - destruct (Qle_bool 0.85 (fuzzy_match_score jd_variant resume_variant)).
    + apply Q.le_max_l.
    + apply Qle_refl.
Qed.

Lemma variant_step_le (jd_variant : str) (best : Q) (resume_variant : str) :
  best <= 1 -> variant_step jd_variant best resume_variant <= 1.
Proof.
  intro H. unfold variant_step. destruct (str_eqb jd_variant resume_variant).
  - apply Q.max_lub; [exact H | apply Qle_refl].
  - destruct (Qle_bool 0.85 (fuzzy_match_score jd_variant resume_variant)); [|exact H].
    apply Q.max_lub; [exact H | apply fuzzy_match_score_bounds].
Qed.

(** A left fold of steps that never lower the score, nor lift it above 1. *)
Lemma fold_left_ge {A : Type} (f : Q -> A -> Q) (l : list A) :
  (forall b x, b <= f b x) -> forall b, b <= fold_left f l b.
Proof.
  intro Hf. induction l as [|x l IH]; intro b; cbn [fold_left]; [apply Qle_refl|].
  apply Qle_trans with (f b x); [apply Hf | apply IH].
Qed.

Lemma fold_left_le {A : Type} (f : Q -> A -> Q) (l : list A) :
  (forall b x, b <= 1 -> f b x <= 1) -> forall b, b <= 1 -> fold_left f l b <= 1.
Proof.
  intro Hf. induction l as [|x l IH]; intros b Hb; cbn [fold_left]; [exact Hb|].
  apply IH, Hf, Hb.
Qed.

(** One element of the list lifts the score to 1. *)
Lemma fold_left_reaches {A : Type} (f : Q -> A -> Q) (l : list A) (x : A) :
  (forall b y, b <= f b y) -> In x l -> (forall b, 1 <= f b x) ->
  forall b, 1 <= fold_left f l b.
Proof.
  intros Hf Hin Hx. induction l as [|y l IH]; intro b; [contradiction|].
  cbn [fold_left]. destruct Hin as [->|Hin].
  - apply Qle_trans with (f b x); [apply Hx | apply fold_left_ge, Hf].
  - apply IH, Hin.
Qed.

Lemma skill_step_ge (jd_skill_variants : list str) (best : Q) (resume_skill : str) :
  best <= skill_step jd_skill_variants best resume_skill.
Proof.
  unfold skill_step.
  apply (fold_left_ge
           (fun best jd_variant =>
              fold_left (variant_step jd_variant) (create_skill_variants resume_skill) best)).
  intros b jd_variant. apply fold_left_ge. intros b' x. apply variant_step_ge.
Qed.

Lemma skill_step_le (jd_skill_variants : list str) (best : Q) (resume_skill : str) :
  best <= 1 -> skill_step jd_skill_variants best resume_skill <= 1.
Proof.
  unfold skill_step.
  apply (fold_left_le
           (fun best jd_variant =>
              fold_left (variant_step jd_variant) (create_skill_variants resume_skill) best)).
  intros b jd_variant. apply fold_left_le. intros b' x. apply variant_step_le.
Qed.

Lemma partial_step_bounds (jd_skill : str) (best best' : Q) :
  partial_step resume_text jd_skill best = Ok best' ->
  best <= best' /\ (best <= 1 -> best' <= 1).
Proof.
  unfold partial_step.
  destruct (Qltb best 0.5); [|intros [= <-]; split; [apply Qle_refl | auto]].
  set (jd_words := set_of (split (lower jd_skill))).
  set (resume_words := set_of (split (resume_text_lower resume_text))).
  destruct (1 <? length jd_words)%nat eqn:E;
    [|intros [= <-]; split; [apply Qle_refl | auto]].
  apply Nat.ltb_lt in E.
  destruct (Qle_bool _ _); [|intros [= <-]; split; [apply Qle_refl | auto]].
  rewrite py_div_Qn by lia. cbn [bind]. intros [= <-]. split.
  - apply Q.le_max_l.
  - intro Hb. apply Q.max_lub; [exact Hb|].
    assert (Hlen : (length (intersection jd_words resume_words) <= length jd_words)%nat).
    { unfold intersection. apply filter_length_le. }
    destruct (Qn_ratio_bounds _ _ Hlen ltac:(lia)) as [H0 H1].
    apply Qle_trans with (1 * 0.7); [|discriminate].
    apply Qmult_le_compat_r; [exact H1 | discriminate].
Qed.

Lemma text_loop_bounds (variants : list str) :
  forall st, fst st <= fst (fold_left (text_step resume_text) variants st) /\
             (fst st <= 1 -> fst (fold_left (text_step resume_text) variants st) <= 1).
Proof.
  induction variants as [|v variants IH]; intro st; cbn [fold_left].
  - split; [apply Qle_refl | auto].
  - destruct (IH (text_step resume_text st v)) as [H1 H2]. split.
    + apply Qle_trans with (fst (text_step resume_text st v)); [apply text_step_ge | exact H1].
    + intro H. apply H2, text_step_le, H.
Qed.

Lemma text_loop_reaches (variants : list str) (v : str) :
  In v variants -> contains (resume_text_lower resume_text) v = true ->
  forall st, 1 <= fst (fold_left (text_step resume_text) variants st).
Proof.
  intros Hin Hv. induction variants as [|w variants IH]; intro st; [contradiction|].
  cbn [fold_left]. destruct Hin as [->|Hin]; [|apply IH, Hin].
  apply Qle_trans with (fst (text_step resume_text st v)).
  - destruct st as [best ev]. unfold text_step. rewrite Hv. cbn [fst]. apply Q.le_max_r.
  - apply text_loop_bounds.
Qed.

(** The stages of [score_skill]. *)
Lemma score_skill_stages (jd_skill : str) :
  exists after_text evidence,
    fold_left (text_step resume_text) (create_skill_variants jd_skill) (0, [])
    = (after_text, evidence) /\
    partial_step resume_text jd_skill
                 (fold_left (skill_step (create_skill_variants jd_skill)) resume_skills
                            after_text)
    = Ok (final_confidence resume_text resume_skills jd_skill) /\
    collected_evidence resume_text resume_skills jd_skill = evidence.
Proof.
  pose proof (score_skill_eq resume_text resume_skills jd_skill) as Heq.
  unfold score_skill in Heq.
  destruct (fold_left (text_step resume_text) (create_skill_variants jd_skill) (0, []))
    as [b0 ev0].
  exists b0, ev0. split; [reflexivity|].
  destruct (partial_step resume_text jd_skill
              (fold_left (skill_step (create_skill_variants jd_skill)) resume_skills b0))
    as [b'|e]; cbn [bind] in Heq; [|discriminate].
  injection Heq as Hb He. rewrite Hb, He. split; reflexivity.
Qed.

Lemma final_confidence_bounds (jd_skill : str) :
  0 <= final_confidence resume_text resume_skills jd_skill /\
  final_confidence resume_text resume_skills jd_skill <= 1.
Proof.
  destruct (score_skill_stages jd_skill) as (b0 & ev & Ht & Hp & _).
  pose proof (text_loop_bounds (create_skill_variants jd_skill) (0, [])) as [T1 T2].
  rewrite Ht in T1, T2. cbn [fst] in T1, T2.
  destruct (partial_step_bounds _ _ _ Hp) as [P1 P2].
  split.
  - eapply Qle_trans; [exact T1|]. eapply Qle_trans; [|exact P1].
    apply (fold_left_ge (skill_step (create_skill_variants jd_skill))).
    intros b x. apply skill_step_ge.
  - apply P2. apply (fold_left_le (skill_step (create_skill_variants jd_skill))).
    + intros b x. apply skill_step_le.
    + apply T2. discriminate.
Qed.

(** A variant that occurs in the lower-cased text settles the confidence at 1. *)
Lemma final_confidence_text (jd_skill variant : str) :
  In variant (create_skill_variants jd_skill) ->
  contains (lower resume_text) variant = true ->
  final_confidence resume_text resume_skills jd_skill == 1.
Proof.
  intros Hin Hc.
  destruct (score_skill_stages jd_skill) as (b0 & ev & Ht & Hp & _).
  pose proof (text_loop_reaches _ _ Hin Hc (0, [])) as T. rewrite Ht in T. cbn [fst] in T.
  destruct (partial_step_bounds _ _ _ Hp) as [P1 _].
  apply Qle_antisym; [apply final_confidence_bounds|].
  eapply Qle_trans; [exact T|]. eapply Qle_trans; [|exact P1].
  apply (fold_left_ge (skill_step (create_skill_variants jd_skill))).
  intros b x. apply skill_step_ge.
Qed.

(** A variant shared with a resume skill settles the confidence at 1. *)
Lemma final_confidence_shared_variant (jd_skill resume_skill variant : str) :
  In resume_skill resume_skills ->
  In variant (create_skill_variants jd_skill) ->
  In variant (create_skill_variants resume_skill) ->
  final_confidence resume_text resume_skills jd_skill == 1.
Proof.
  intros Hrs Hj Hr.
  destruct (score_skill_stages jd_skill) as (b0 & ev & Ht & Hp & _).
  destruct (partial_step_bounds _ _ _ Hp) as [P1 _].
  apply Qle_antisym; [apply final_confidence_bounds|].
  eapply Qle_trans; [|exact P1].
  apply (fold_left_reaches (skill_step (create_skill_variants jd_skill)) resume_skills
                           resume_skill).
  - intros b x. apply skill_step_ge.
  - exact Hrs.
  - intro b. unfold skill_step.
    apply (fold_left_reaches
             (fun best jd_variant =>
                fold_left (variant_step jd_variant) (create_skill_variants resume_skill) best)
             (create_skill_variants jd_skill) variant).
    + intros b' y. apply fold_left_ge. intros b'' z. apply variant_step_ge.
    + exact Hj.
    + intro b'.
      apply (fold_left_reaches (variant_step variant) (create_skill_variants resume_skill)
                               variant).
      * intros b'' z. apply variant_step_ge.
      * exact Hr.
      * intro b''. unfold variant_step. rewrite str_eqb_refl. apply Q.le_max_r.
Qed.

End ConfidenceBounds.

(* ------------------------------------------------------------------ *)
(** ** Sets of strings and the variants of a skill *)

Section Variants.

Lemma set_add_In (x y : str) (l : list str) : In y (set_add x l) <-> y = x \/ In y l.
Proof.
  unfold set_add. destruct (mem x l) eqn:E.
  - apply mem_In in E. split; [auto|]. intros [->|H]; assumption.
  - rewrite in_app_iff. cbn [In]. split; intros [H|H]; auto.
    destruct H as [H|[]]; auto.
Qed.

Lemma set_add_NoDup (x : str) (l : list str) : NoDup l -> NoDup (set_add x l).
Proof.
  intro H. unfold set_add. destruct (mem x l) eqn:E; [exact H|].
  apply NoDup_app; [exact H | constructor; [intros [] | constructor] |].
  intros y Hy [<-|[]]. apply mem_In in Hy. congruence.
Qed.

Lemma set_update_In (xs : list str) :
  forall l y, In y (set_update l xs) <-> In y xs \/ In y l.
Proof.
  unfold set_update. induction xs as [|x xs IH]; intros l y; cbn [fold_left In].
  - tauto.
  - rewrite IH, set_add_In. split; intros [H|H]; auto; destruct H; auto.
Qed.

Lemma set_update_NoDup (xs : list str) :
  forall l, NoDup l -> NoDup (set_update l xs).
Proof.
  unfold set_update. induction xs as [|x xs IH]; intros l H; cbn [fold_left]; [exact H|].
  apply IH, set_add_NoDup, H.
Qed.

Lemma create_skill_variants_In (skill v : str) :
  v = normalize_skill skill \/ v = strip (lower skill) ->
  In v (create_skill_variants skill).
Proof.
  intro H. unfold create_skill_variants.
  set (n := normalize_skill skill).
  assert (H0 : In v (set_add (strip (lower skill)) (set_add n []))).
  { apply set_add_In. destruct H as [->| ->]; [right; apply set_add_In|]; auto. }
  assert (H1 : In v match dict_get SKILL_ALIASES n with
                    | Some aliases => set_update (set_add (strip (lower skill)) (set_add n []))
                                                 aliases
                    | None => set_add (strip (lower skill)) (set_add n [])
                    end).
  { destruct (dict_get SKILL_ALIASES n); [apply set_update_In; right|]; exact H0. }
  destruct (has_space n); [|exact H1].
  apply set_add_In. right. apply set_add_In. right. apply set_add_In. right. exact H1.
Qed.

Lemma create_skill_variants_NoDup (skill : str) : NoDup (create_skill_variants skill).
Proof.
  unfold create_skill_variants.
  set (n := normalize_skill skill).
  assert (H0 : NoDup (set_add (strip (lower skill)) (set_add n []))).
  { apply set_add_NoDup, set_add_NoDup. constructor. }
  assert (H1 : NoDup match dict_get SKILL_ALIASES n with
                     | Some aliases => set_update (set_add (strip (lower skill)) (set_add n []))
                                                  aliases
                     | None => set_add (strip (lower skill)) (set_add n [])
                     end).
  { destruct (dict_get SKILL_ALIASES n); [apply set_update_NoDup|]; exact H0. }
  destruct (has_space n); [|exact H1].
  apply set_add_NoDup, set_add_NoDup, set_add_NoDup, H1.
Qed.

End Variants.

(* ------------------------------------------------------------------ *)
(** ** More on [normalize_skill] *)

Section NormalizeMore.

Lemma isspace_lower_char (c : ascii) : isspace (lower_char c) = isspace c.
Proof. destruct c as [[] [] [] [] [] [] [] []]; reflexivity. Qed.

Lemma lower_lstrip (s : str) : lower (lstrip s) = lstrip (lower s).
Proof.
  induction s as [|c s IH]; [reflexivity|].
  cbn [lstrip lower map]. rewrite isspace_lower_char.
  destruct (isspace c); [exact IH | reflexivity].
Qed.

Lemma lower_strip (s : str) : lower (strip s) = strip (lower s).
Proof.
  unfold strip, rstrip, lower.
  rewrite map_rev. fold (lower (lstrip (rev (lstrip s)))).
  rewrite lower_lstrip. unfold lower at 1. rewrite map_rev.
  fold (lower (lstrip s)). rewrite lower_lstrip. reflexivity.
Qed.

Lemma strip_idem (s : str) : strip (strip s) = strip s.
Proof. apply strip_fixed, strip_trimmed. Qed.

Lemma lower_idem (s : str) : lower (lower s) = lower s.
Proof. apply lower_fixed, lower_lowered. Qed.

Lemma normalize_skill_same_cleaning (a b : str) :
  strip (lower a) = strip (lower b) -> normalize_skill a = normalize_skill b.
Proof.
  intro H. rewrite !normalize_skill_cleaned. unfold cleaned. rewrite H. reflexivity.
Qed.

(** X1: the normal form of a skill does not depend on its letter case nor on
    blanks around it. *)
Theorem normalize_skill_ignores_case_and_margins (skill : str) :
  normalize_skill (lower skill) = normalize_skill skill /\
  normalize_skill (strip skill) = normalize_skill skill.
Proof.
  split; apply normalize_skill_same_cleaning.
  - rewrite lower_idem. reflexivity.
  - rewrite lower_strip, strip_idem. reflexivity.
Qed.

Lemma canonical_lowered_trimmed (c : str) :
  In c (map fst SKILL_ALIASES) -> lower c = c /\ strip c = c.
Proof.
  intro Hin.
  assert (H : forallb (fun k => str_eqb (lower k) k && str_eqb (strip k) k)
                      (map fst SKILL_ALIASES) = true) by (vm_compute; reflexivity).
  rewrite forallb_forall in H. specialize (H c Hin).
  apply andb_true_iff in H. destruct H as [H1 H2].
  apply str_eqb_eq in H1, H2. auto.
Qed.

(** X2: a normalized skill is in lower case and has no blank at either end. *)
Theorem normalize_skill_lowered_trimmed (skill : str) :
  lower (normalize_skill skill) = normalize_skill skill /\
  strip (normalize_skill skill) = normalize_skill skill.
Proof.
  rewrite normalize_skill_cleaned.
  destruct (lookup_alias SKILL_ALIASES (cleaned skill)) as [c|] eqn:E.
  - apply canonical_lowered_trimmed. exact (lookup_alias_key _ _ _ E).
  - split; [apply lower_fixed, cleaned_lowered | apply strip_fixed, cleaned_trimmed].
Qed.

(** X3: every alias of the table normalizes to the canonical name it is
    listed under, with three exceptions: [cicd] under [ci/cd] goes to
    [jenkins], which lists it first, and "test driven development" and
    "behavior driven development" lose their last word to the suffix rule and
    are returned as "test driven" and "behavior driven". Every canonical name
    but [ci/cd] normalizes to itself. *)
Theorem aliases_resolve (canonical alias : str) (aliases : list str) :
  In (canonical, aliases) SKILL_ALIASES -> In alias aliases ->
  (normalize_skill alias = canonical \/
   In (canonical, alias, normalize_skill alias)
      [ (lit "ci/cd", lit "cicd", lit "jenkins");
        (lit "tdd", lit "test driven development", lit "test driven");
        (lit "bdd", lit "behavior driven development", lit "behavior driven") ]) /\
  (canonical <> lit "ci/cd" -> normalize_skill canonical = canonical).
Proof.
  intros He Ha.
  assert (H : forallb
                (fun e : str * list str =>
                   forallb (fun x =>
                              str_eqb (normalize_skill x) (fst e)
                              || existsb (fun t : str * str * str =>
                                            str_eqb (fst (fst t)) (fst e)
                                            && str_eqb (snd (fst t)) x
                                            && str_eqb (snd t) (normalize_skill x))
                                         [ (lit "ci/cd", lit "cicd", lit "jenkins");
                                           (lit "tdd", lit "test driven development",
                                            lit "test driven");
                                           (lit "bdd", lit "behavior driven development",
                                            lit "behavior driven") ])
                           (snd e))
                SKILL_ALIASES = true) by (vm_compute; reflexivity).
  rewrite forallb_forall in H. specialize (H _ He). cbn [fst snd] in H.
  rewrite forallb_forall in H. specialize (H _ Ha).
  split.
  - apply orb_true_iff in H. destruct H as [H|H].
    + left. apply str_eqb_eq, H.
    + right. apply existsb_exists in H. destruct H as ([[t1 t2] t3] & Hin & Ht).
      cbn [fst snd] in Ht. rewrite !andb_true_iff in Ht. destruct Ht as [[H1 H2] H3].
      apply str_eqb_eq in H1, H2, H3. subst. exact Hin.
  - apply canonical_fixed. apply in_map_iff. exists (canonical, aliases). auto.
Qed.

Lemma aliases_resolve_witness :
  (normalize_skill (lit "k8s") = lit "kubernetes" \/
   In (lit "kubernetes", lit "k8s", normalize_skill (lit "k8s"))
      [ (lit "ci/cd", lit "cicd", lit "jenkins");
        (lit "tdd", lit "test driven development", lit "test driven");
        (lit "bdd", lit "behavior driven development", lit "behavior driven") ]) /\
  (lit "kubernetes" <> lit "ci/cd" -> normalize_skill (lit "kubernetes") = lit "kubernetes").
Proof.
  apply (aliases_resolve (lit "kubernetes") (lit "k8s") [lit "k8s"; lit "k8"]).
  - vm_compute. do 41 right. left. reflexivity.
  - left. reflexivity.
Defined.

(** The suffix rule strips the last word of two aliases before the table is
    consulted. *)
Lemma alias_lost_to_suffix_rule :
  normalize_skill (lit "test driven development") = lit "test driven" /\
  normalize_skill (lit "behavior driven development") = lit "behavior driven".
Proof. split; vm_compute; reflexivity. Qed.

End NormalizeMore.

(* ------------------------------------------------------------------ *)
(** ** The matcher: what a caller can rely on *)

Section MatcherOutcomes.
Local Open Scope Q_scope.
Variable resume_text : str.
Variable resume_skills : list str.

Lemma contains_nil (s : str) : contains s [] = true.
Proof. destruct s; reflexivity. Qed.

(** A JD skill whose final confidence is 1 is reported, with that
    confidence. *)
Lemma confident_is_reported (jd_skills : list str) (s : str) :
  In s jd_skills ->
  final_confidence resume_text resume_skills s == 1 ->
  exists r,
    find_skill_matches resume_text resume_skills jd_skills = Ok r /\
    In s (matched_skills r) /\
    exists c, dict_get (confidence_scores r) s = Some c /\ c == 1.
Proof.
  intros Hin Hc.
  destruct (find_skill_matches_spec resume_text resume_skills jd_skills)
    as (e & c & Hr & H1 & _).
  eexists. split; [exact Hr|]. cbn [matched_skills confidence_scores].
  assert (Hm : In s (filter (is_matched resume_text resume_skills) jd_skills)).
  { apply filter_In. split; [exact Hin|]. unfold is_matched. apply Qleb_true.
    rewrite Hc. discriminate. }
  split; [exact Hm|].
  destruct (H1 s Hm) as (ev & _ & Hconf).
  exists (final_confidence resume_text resume_skills s). split; assumption.
Qed.

(** X4: the confidence dict and the evidence dict have the matched skills as
    their keys, no others; the confidence reported for a skill is its final
    confidence, and it lies between 0.5 and 1. *)
Theorem confidence_scores_report (jd_skills : list str) :
  exists r,
    find_skill_matches resume_text resume_skills jd_skills = Ok r /\
    (forall s, In s (matched_skills r) ->
               dict_get (confidence_scores r) s
               = Some (final_confidence resume_text resume_skills s) /\
               dict_get (skill_evidence r) s <> None) /\
    (forall s c, dict_get (confidence_scores r) s = Some c ->
                 In s (matched_skills r) /\ 0.5 <= c /\ c <= 1) /\
    (forall s ev, dict_get (skill_evidence r) s = Some ev -> In s (matched_skills r)).
Proof.
  destruct (find_skill_matches_spec resume_text resume_skills jd_skills)
    as (e & c & Hr & H1 & H2 & H3).
  eexists. split; [exact Hr|]. cbn [matched_skills confidence_scores skill_evidence].
  split; [|split].
  - intros s Hs. destruct (H1 s Hs) as (ev & Hev & Hc). split; [exact Hc|].
    rewrite Hev. discriminate.
  - intros s q Hq. pose proof (H3 s q Hq) as Hs. split; [exact Hs|].
    destruct (H1 s Hs) as (ev & _ & Hc). rewrite Hc in Hq. injection Hq as <-.
    apply filter_In in Hs. destruct Hs as [_ Hs]. unfold is_matched in Hs.
    apply Qleb_true in Hs. split; [exact Hs|].
    apply final_confidence_bounds.
  - intros s ev Hev. exact (proj2 (H2 s ev Hev)).
Qed.

(** X5: a JD skill that occurs in the resume text, compared in lower case
    and without its margins, or whose normal form occurs there, is matched
    with confidence 1, whatever the resume skills are. *)
Theorem skill_in_text_is_matched (jd_skills : list str) (s : str) :
  In s jd_skills ->
  contains (lower resume_text) (strip (lower s)) = true \/
  contains (lower resume_text) (normalize_skill s) = true ->
  exists r,
    find_skill_matches resume_text resume_skills jd_skills = Ok r /\
    In s (matched_skills r) /\
    exists c, dict_get (confidence_scores r) s = Some c /\ c == 1.
Proof.
  intros Hin Hc. apply confident_is_reported; [exact Hin|].
  destruct Hc as [Hc|Hc].
  - apply (final_confidence_text resume_text resume_skills s (strip (lower s)));
      [apply create_skill_variants_In; right; reflexivity | exact Hc].
  - apply (final_confidence_text resume_text resume_skills s (normalize_skill s));
      [apply create_skill_variants_In; left; reflexivity | exact Hc].
Qed.

(** X6: a JD skill that is empty or blank is matched with confidence 1
    against every resume. *)
Theorem blank_skill_is_matched (jd_skills : list str) (s : str) :
  In s jd_skills -> strip s = [] ->
  exists r,
    find_skill_matches resume_text resume_skills jd_skills = Ok r /\
    In s (matched_skills r) /\
    exists c, dict_get (confidence_scores r) s = Some c /\ c == 1.
Proof.
  intros Hin Hs. apply confident_is_reported; [exact Hin|].
  apply (final_confidence_text resume_text resume_skills s (strip (lower s))).
  - apply create_skill_variants_In. right. reflexivity.
  - rewrite <- lower_strip, Hs. apply contains_nil.
Qed.

(** X7: a JD skill that has the normal form of one of the resume skills, an
    alias of it for instance, is matched with confidence 1, whatever the
    resume text is. *)
Theorem skill_of_resume_is_matched (jd_skills : list str) (s resume_skill : str) :
  In s jd_skills -> In resume_skill resume_skills ->
  normalize_skill s = normalize_skill resume_skill ->
  exists r,
    find_skill_matches resume_text resume_skills jd_skills = Ok r /\
    In s (matched_skills r) /\
    exists c, dict_get (confidence_scores r) s = Some c /\ c == 1.
Proof.
  intros Hin Hrs Hn. apply confident_is_reported; [exact Hin|].
  apply (final_confidence_shared_variant resume_text resume_skills s resume_skill
                                         (normalize_skill s)).
  - exact Hrs.
  - apply create_skill_variants_In. left. reflexivity.
  - apply create_skill_variants_In. left. exact Hn.
Qed.

End MatcherOutcomes.

Lemma skill_in_text_is_matched_witness :
  exists r,
    find_skill_matches (lit "Five years of PYTHON and Go.") [] [lit "Rust"; lit " Python "]
    = Ok r /\
    In (lit " Python ") (matched_skills r) /\
    exists c, dict_get (confidence_scores r) (lit " Python ") = Some c /\ (c == 1)%Q.
Proof.
  apply (skill_in_text_is_matched (lit "Five years of PYTHON and Go.") []
                                  [lit "Rust"; lit " Python "] (lit " Python ")).
  - right. left. reflexivity.
  - left. vm_compute. reflexivity.
Defined.

Lemma blank_skill_is_matched_witness :
  exists r,
    find_skill_matches (lit "Ten years of gardening.") [] [lit "  "] = Ok r /\
    In (lit "  ") (matched_skills r) /\
    exists c, dict_get (confidence_scores r) (lit "  ") = Some c /\ (c == 1)%Q.
Proof.
  apply (blank_skill_is_matched (lit "Ten years of gardening.") [] [lit "  "] (lit "  ")).
  - left. reflexivity.
  - vm_compute. reflexivity.
Defined.

Lemma skill_of_resume_is_matched_witness :
  exists r,
    find_skill_matches (lit "No tools named here.") [lit "Kubernetes"] [lit "k8s"] = Ok r /\
    In (lit "k8s") (matched_skills r) /\
    exists c, dict_get (confidence_scores r) (lit "k8s") = Some c /\ (c == 1)%Q.
Proof.
  apply (skill_of_resume_is_matched (lit "No tools named here.") [lit "Kubernetes"]
                                    [lit "k8s"] (lit "k8s") (lit "Kubernetes")).
  - left. reflexivity.
  - left. reflexivity.
  - vm_compute. reflexivity.
Defined.

(* ------------------------------------------------------------------ *)
(** ** The matcher: where the evidence comes from *)

Section LiteralPattern.

Lemma rmatch_seqs_cons (r : regex) (rs : list regex) (prev : option ascii) (s : str)
      (k : option ascii -> str -> option str) :
  rmatch (seqs (r :: rs)) prev s k
  = rmatch r prev s (fun prev' s' => rmatch (seqs rs) prev' s' k).
Proof. destruct rs; reflexivity. Qed.

(** An escaped literal matches itself and nothing else. *)
Lemma match_here_escape (v : str) :
  forall prev s, match_here (escape v) prev s = strip_prefix v s.
Proof.
  unfold match_here, escape. induction v as [|c v IH]; intros prev s.
  - reflexivity.
  - cbn [map]. rewrite rmatch_seqs_cons. unfold chr at 1. cbn [rmatch strip_prefix].
    destruct s as [|y s]; [reflexivity|].
    destruct (Ascii.eqb c y); [apply IH | reflexivity].
Qed.

Lemma strip_prefix_Some (v s rest : str) : strip_prefix v s = Some rest -> s = v ++ rest.
Proof.
  revert s. induction v as [|c v IH]; intros s H; cbn [strip_prefix] in H.
  - injection H as ->. reflexivity.
  - destruct s as [|y s]; [discriminate|].
    destruct (Ascii.eqb c y) eqn:E; [|discriminate].
    apply Ascii.eqb_eq in E. subst y. cbn [app]. f_equal. apply IH, H.
Qed.

(** Every span that [finditer] reports for a literal holds the literal. *)
Lemma finditer_from_escape (v : str) (s : str) :
  forall pos prev skip a b,
    In (a, b) (finditer_from (escape v) pos prev s skip) ->
    exists pre rest, s = pre ++ v ++ rest /\ a = pos + length pre /\ b = a + length v.
Proof.
  induction s as [|c s IH]; intros pos prev skip a b H.
  - destruct skip as [|k]; cbn [finditer_from] in H; [|contradiction].
    rewrite match_here_escape in H.
    destruct (strip_prefix v []) as [rest|] eqn:E; [|contradiction].
    destruct H as [H|[]]. injection H as <- <-.
    pose proof (strip_prefix_Some _ _ _ E) as Hs.
    symmetry in Hs. apply app_eq_nil in Hs. destruct Hs as [-> ->].
    exists [], []. cbn [app length]. split; [reflexivity|]. lia.
  - assert (Hrec : forall k, In (a, b) (finditer_from (escape v) (S pos) (Some c) s k) ->
                             exists pre rest, c :: s = pre ++ v ++ rest /\
                                              a = pos + length pre /\ b = a + length v).
    { intros k Hk. destruct (IH _ _ _ _ _ Hk) as (pre & rest & -> & -> & ->).
      exists (c :: pre), rest. cbn [app length]. split; [reflexivity|]. lia. }
    destruct skip as [|k]; cbn [finditer_from] in H; [|exact (Hrec _ H)].
    rewrite match_here_escape in H.
    destruct (strip_prefix v (c :: s)) as [rest|] eqn:E; [|exact (Hrec _ H)].
    destruct H as [H|H]; [|exact (Hrec _ H)].
    pose proof (strip_prefix_Some _ _ _ E) as Hs.
    assert (Hn : length (c :: s) - length rest = length v)
      by (rewrite Hs, length_app; lia).
    rewrite Hn in H. injection H as <- <-.
    exists [], rest. cbn [app length]. split; [exact Hs|]. lia.
Qed.

(** A literal that occurs in the text is found. *)
Lemma finditer_from_found (v : str) (s : str) :
  forall pos prev, contains s v = true -> finditer_from (escape v) pos prev s 0 <> [].
Proof.
  induction s as [|c s IH]; intros pos prev H; cbn [finditer_from];
    rewrite match_here_escape; cbn [contains] in H; unfold startswith in H.
  - destruct (strip_prefix v []); [discriminate|]. discriminate.
  - destruct (strip_prefix v (c :: s)); [discriminate|].
    cbn [orb] in H. apply IH, H.
Qed.

Lemma slice_middle (pre v rest : str) :
  slice (pre ++ v ++ rest) (length pre) (length pre + length v) = v.
Proof.
  unfold slice. rewrite app_assoc, firstn_app.
  rewrite length_app, Nat.sub_diag, firstn_O, app_nil_r.
  rewrite <- length_app, firstn_all.
  rewrite skipn_app, skipn_all, Nat.sub_diag. reflexivity.
Qed.

Lemma lstrip_length (s : str) : length (lstrip s) <= length s.
Proof.
  induction s as [|c s IH]; cbn [lstrip]; [lia|].
  destruct (isspace c); cbn [length]; lia.
Qed.

Lemma strip_length (s : str) : length (strip s) <= length s.
Proof.
  unfold strip, rstrip. rewrite length_rev.
  pose proof (lstrip_length (rev (lstrip s))) as H1. rewrite length_rev in H1.
  pose proof (lstrip_length s). lia.
Qed.

Lemma In_firstn {A : Type} (n : nat) (l : list A) (x : A) : In x (firstn n l) -> In x l.
Proof.
  revert l. induction n as [|n IH]; intros l H; [contradiction|].
  destruct l as [|y l]; [contradiction|].
  destruct H as [H|H]; [left; exact H | right; apply IH, H].
Qed.

Lemma slice_length (s : str) (start end_ : nat) : length (slice s start end_) <= end_ - start.
Proof.
  unfold slice. rewrite length_skipn, length_firstn. lia.
Qed.

End LiteralPattern.

Section Evidence.
Variable resume_text : str.
Variable resume_skills : list str.

Lemma text_loop_evidence (variants : list str) :
  forall st, snd (fold_left (text_step resume_text) variants st)
             = snd st ++ flat_map (text_evidence resume_text) variants.
Proof.
  induction variants as [|v variants IH]; intro st; cbn [fold_left flat_map].
  - rewrite app_nil_r. reflexivity.
  - rewrite IH. destruct st as [best ev]. unfold text_step, text_evidence, resume_text_lower.
    destruct (contains (lower resume_text) v); cbn [snd].
    + rewrite app_assoc. reflexivity.
    + reflexivity.
Qed.

Lemma collected_evidence_eq (jd_skill : str) :
  collected_evidence resume_text resume_skills jd_skill
  = flat_map (text_evidence resume_text) (create_skill_variants jd_skill).
Proof.
  destruct (score_skill_stages resume_text resume_skills jd_skill) as (b0 & ev & Ht & _ & ->).
  pose proof (text_loop_evidence (create_skill_variants jd_skill) (0%Q, [])) as H.
  rewrite Ht in H. exact H.
Qed.

(** X8: every evidence snippet is a slice of the resume text as given,
    without its margins. The slice is taken at the positions of one occurrence
    of a variant of the skill in the lower-cased text: from 30 before its
    start to 30 after its end, and no further than the end of the resume
    text. It is at most 60 characters longer than the variant. *)
Theorem evidence_is_text_around_variant (jd_skills : list str) :
  exists r,
    find_skill_matches resume_text resume_skills jd_skills = Ok r /\
    forall s ev e,
      dict_get (skill_evidence r) s = Some ev -> In e ev ->
      exists v p,
        In v (create_skill_variants s) /\
        p + length v <= length (lower resume_text) /\
        slice (lower resume_text) p (p + length v) = v /\
        e = strip (slice resume_text (p - 30)
                         (Nat.min (length resume_text) (p + length v + 30))) /\
        length e <= length v + 60.
Proof.
  destruct (find_skill_matches_spec resume_text resume_skills jd_skills)
    as (ed & c & Hr & _ & H2 & _).
  eexists. split; [exact Hr|]. cbn [skill_evidence].
  intros s ev e Hev He. destruct (H2 s ev Hev) as [-> _].
  apply In_firstn in He. rewrite collected_evidence_eq in He.
  apply in_flat_map in He. destruct He as (v & Hv & He).
  unfold text_evidence in He.
  destruct (contains (lower resume_text) v); [|contradiction].
  apply in_map_iff in He. destruct He as ([a b] & <- & Hm).
  unfold finditer in Hm. apply finditer_from_escape in Hm.
  destruct Hm as (pre & rest & Hs & -> & ->). cbn [Nat.add] in *.
  exists v, (length pre). split; [exact Hv|].
  split; [rewrite Hs, !length_app; lia|].
  split; [rewrite Hs; apply slice_middle|].
  unfold snippet. cbn [fst snd]. rewrite Nat.max_0_l. split; [reflexivity|].
  eapply Nat.le_trans; [apply strip_length|].
  eapply Nat.le_trans; [apply slice_length|]. lia.
Qed.

(** X9: the evidence kept for a matched skill is empty exactly when none of
    its variants occurs in the lower-cased resume text, that is, when the
    skill was matched through the resume skills or through its words. *)
Theorem evidence_empty_iff (jd_skills : list str) :
  exists r,
    find_skill_matches resume_text resume_skills jd_skills = Ok r /\
    forall s,
      In s (matched_skills r) ->
      (dict_get (skill_evidence r) s = Some [] <->
       forall v, In v (create_skill_variants s) -> contains (lower resume_text) v = false).
Proof.
  destruct (find_skill_matches_spec resume_text resume_skills jd_skills)
    as (ed & c & Hr & H1 & H2 & _).
  eexists. split; [exact Hr|]. cbn [skill_evidence matched_skills].
  intros s Hs. destruct (H1 s Hs) as (ev & Hev & _).
  destruct (H2 s ev Hev) as [Hfirst _]. rewrite collected_evidence_eq in Hfirst.
  rewrite Hev. split.
  - intros [= ->] v Hv.
    destruct (contains (lower resume_text) v) eqn:E; [|reflexivity]. exfalso.
    pose proof (finditer_from_found v (lower resume_text) 0 None E) as Hne.
    destruct (flat_map (text_evidence resume_text) (create_skill_variants s)) as [|x l] eqn:Ef;
      [|discriminate].
    assert (Hin : forall x, ~ In x (flat_map (text_evidence resume_text) (create_skill_variants s))).
    { rewrite Ef. intros x []. }
    destruct (finditer_from (escape v) 0 None (lower resume_text) 0) as [|m ms] eqn:Em;
      [congruence|].
    apply (Hin (snippet resume_text m)). apply in_flat_map. exists v. split; [exact Hv|].
    unfold text_evidence, finditer. rewrite E, Em. left. reflexivity.
  - intro Hnone. rewrite Hfirst.
    assert (Hf : forall l, (forall v, In v l -> contains (lower resume_text) v = false) ->
                           flat_map (text_evidence resume_text) l = []).
    { induction l as [|v l IH]; intro Hl; [reflexivity|].
      cbn [flat_map]. unfold text_evidence at 1.
      rewrite (Hl v (or_introl eq_refl)). cbn [app].
      apply IH. intros w Hw. apply Hl. right. exact Hw. }
    rewrite (Hf _ Hnone). reflexivity.
Qed.

End Evidence.

(* ------------------------------------------------------------------ *)
(** ** Rounding *)

Section Rounding.
Local Open Scope Q_scope.

Lemma round_half_even_mono (x y : Q) :
  x <= y -> (round_half_even x <= round_half_even y)%Z.
Proof.
  intro H. unfold round_half_even.
  pose proof (Qfloor_resp_le x y H) as Hf.
  pose proof (Qfloor_le x) as Hx1. pose proof (Qlt_floor x) as Hx2.
  pose proof (Qfloor_le y) as Hy1. pose proof (Qlt_floor y) as Hy2.
  destruct (Z.eq_dec (Qfloor x) (Qfloor y)) as [Heq|Hne].
  - rewrite <- Heq in *.
    destruct (Qcompare (x - inject_Z (Qfloor x)) (1 # 2)) eqn:Ex;
      destruct (Qcompare (y - inject_Z (Qfloor x)) (1 # 2)) eqn:Ey;
      rewrite <- ?Qeq_alt, <- ?Qlt_alt, <- ?Qgt_alt in *;
      try destruct (Z.even (Qfloor x)); try lia; exfalso; lra.
  - assert (Hlt : (Qfloor x + 1 <= Qfloor y)%Z) by lia.
    destruct (Qcompare (x - inject_Z (Qfloor x)) (1 # 2));
      destruct (Qcompare (y - inject_Z (Qfloor y)) (1 # 2));
      try destruct (Z.even (Qfloor x)); try destruct (Z.even (Qfloor y)); lia.
Qed.

Lemma scale_pos (ndigits : nat) : 0 < inject_Z (10 ^ Z.of_nat ndigits).
Proof.
  rewrite <- (Zlt_Qlt 0). apply Z.pow_pos_nonneg; lia.
Qed.

(** Rounding keeps the order. *)
Lemma py_round_mono (x y : Q) (ndigits : nat) :
  x <= y -> py_round x ndigits <= py_round y ndigits.
Proof.
  intro H. unfold py_round.
  pose proof (scale_pos ndigits) as Hs.
  apply Qmult_le_compat_r.
  - rewrite <- Zle_Qle. apply round_half_even_mono.
    apply Qmult_le_compat_r; [exact H | apply Qlt_le_weak, Hs].
  - apply Qlt_le_weak, Qinv_lt_0_compat, Hs.
Qed.

End Rounding.

(* ------------------------------------------------------------------ *)
(** ** The scorer: the range of every component *)

Section ComponentRanges.
Local Open Scope Q_scope.

Lemma experience_duration_score_range (t : Q) :
  experience_duration_score t <= 1 /\ (0 <= t -> 0 <= experience_duration_score t).
Proof.
  unfold experience_duration_score. repeat qcase; (split; [|intro]); lra.
Qed.

Lemma impact_score_of_range (impact_count : nat) (resume_text : str) :
  0 <= impact_score_of impact_count resume_text /\
  impact_score_of impact_count resume_text <= 1.
Proof.
  unfold impact_score_of.
  destruct (5 <=? impact_count)%nat; [split; discriminate|].
  destruct (3 <=? impact_count)%nat; [split; discriminate|].
  destruct (1 <=? impact_count)%nat; [split; discriminate|].
  split.
  - apply Q.min_glb; [discriminate|].
    apply Qmult_le_0_compat; [apply Qn_nonneg | discriminate].
  - eapply Qle_trans; [apply Q.le_min_l | discriminate].
Qed.

Lemma project_score_of_range (resume_text : str) :
  0 <= project_score_of resume_text /\ project_score_of resume_text <= 0.9.
Proof.
  unfold project_score_of, project_indicators. cbn [fold_left].
  repeat match goal with
         | |- context [search ?r resume_text] => destruct (search r resume_text)
         end;
    split; apply Qle_bool_iff; vm_compute; reflexivity.
Qed.

Lemma education_scan_range (tbl : dict Q) (resume_lower : str) (start : Q) :
  Forall (fun e => snd e <= 1) tbl -> start <= 1 ->
  start <= education_scan tbl resume_lower start /\
  education_scan tbl resume_lower start <= 1.
Proof.
  intros Htbl Hstart. induction Htbl as [|[term score] tbl Hs Htbl IH]; cbn [education_scan].
  - split; [apply Qle_refl | exact Hstart].
  - destruct (contains resume_lower term); [|exact IH]. split.
    + apply Q.le_max_l.
    + apply Q.max_lub; [exact Hstart | exact Hs].
Qed.

Lemma education_indicators_le_1 : Forall (fun e : str * Q => snd e <= 1) education_indicators.
Proof. repeat constructor; discriminate. Qed.

Lemma dict_set_values {V : Type} (P : V -> Prop) (d : dict V) (k : str) (v : V) :
  Forall P (dict_values d) -> P v -> Forall P (dict_values (dict_set d k v)).
Proof.
  unfold dict_values. intros Hd Hv. induction d as [|[k' v'] d IH]; cbn [dict_set map].
  - constructor; [exact Hv | constructor].
  - inversion Hd as [|x l Hx Hl]; subst.
    destruct (str_eqb k k'); cbn [map snd]; constructor; auto.
Qed.

Lemma job_type_scan_range (tbl : dict (list str)) (job_desc_lower resume_lower : str) :
  forall acc out,
    Forall (fun v : Q * nat => 0 <= fst v /\ fst v <= 1) (dict_values acc) ->
    job_type_scan tbl job_desc_lower resume_lower acc = Ok out ->
    Forall (fun v : Q * nat => 0 <= fst v /\ fst v <= 1) (dict_values out).
Proof.
  induction tbl as [|[job_type keywords] tbl IH]; intros acc out Hacc H;
    cbn [job_type_scan] in H.
  - injection H as <-. exact Hacc.
  - destruct (0 <? count_if (fun keyword => contains job_desc_lower keyword) keywords)%nat
      eqn:E; [|exact (IH _ _ Hacc H)].
    apply Nat.ltb_lt in E.
    pose proof (count_if_le (fun keyword => contains job_desc_lower keyword) keywords) as Hj.
    pose proof (count_if_le (fun keyword => contains resume_lower keyword) keywords) as Hr.
    rewrite py_div_Qn in H by lia. cbn [bind] in H.
    refine (IH _ _ _ H).
    apply (dict_set_values (fun v : Q * nat => 0 <= fst v /\ fst v <= 1)); [exact Hacc|].
    cbn [fst]. apply Qn_ratio_bounds; lia.
Qed.

Lemma fold_Qmax_range (l : list Q) :
  forall x, 0 <= x /\ x <= 1 -> Forall (fun q => 0 <= q /\ q <= 1) l ->
            0 <= fold_left Qmax l x /\ fold_left Qmax l x <= 1.
Proof.
  induction l as [|y l IH]; intros x Hx Hl; cbn [fold_left]; [exact Hx|].
  inversion Hl as [|z l' Hy Hl']; subst. apply IH; [|exact Hl'].
  split.
  - eapply Qle_trans; [exact (proj1 Hx) | apply Q.le_max_l].
  - apply Q.max_lub; [exact (proj2 Hx) | exact (proj2 Hy)].
Qed.

Lemma Qsum_from (l : list Q) : forall x, fold_left Qplus l x == x + Qsum l.
Proof.
  unfold Qsum. induction l as [|y l IH]; intro x; cbn [fold_left].
  - ring.
  - rewrite IH, (IH (0 + y)). ring.
Qed.

(** The scorer returns; its sub-scores that come from the matcher, the
    context count and the job types are in range. *)
Lemma compute_returns_ranges
      (job_desc resume_text : str) (jd_skills resume_skills : list str)
      (experience_data : dict Q) :
  - float_limit < get_or_zero experience_data (lit "technical_years_experience") ->
  exists m skill_match context relevance average,
    find_skill_matches resume_text resume_skills jd_skills = Ok m /\
    compute_enhanced_component_scores job_desc resume_text jd_skills resume_skills
                                      experience_data
    = Ok (component_record
            m skill_match context
            (experience_duration_score
               (get_or_zero experience_data (lit "technical_years_experience")))
            (impact_score_of (impact_count_of resume_text) resume_text)
            (project_score_of resume_text)
            (education_scan education_indicators (lower resume_text) 0.3)
            relevance
            (get_or_zero experience_data (lit "total_years_experience"))
            (get_or_zero experience_data (lit "technical_years_experience"))
            (length jd_skills) average (impact_count_of resume_text)) /\
    (0 <= skill_match /\ skill_match <= 1) /\
    (0 <= context /\ context <= 1) /\
    (0.3 <= relevance /\ relevance <= 1).
Proof.
  intro Hyears.
  destruct (find_skill_matches_spec resume_text resume_skills jd_skills)
    as (e & c & Hm & H1 & H2 & H3).
  remember (compute_enhanced_component_scores job_desc resume_text jd_skills resume_skills
                                              experience_data) as result eqn:Hres.
  unfold compute_enhanced_component_scores in Hres. rewrite Hm in Hres.
  cbn [bind match_rate confidence_scores matched_skills skill_evidence] in Hres.
  set (matched := filter (is_matched resume_text resume_skills) jd_skills) in *.
  assert (Hrate : 0 <= Qn (length matched) / Qn (Nat.max 1 (length jd_skills))).
  { apply Qn_ratio_bounds; [|lia].
    pose proof (filter_length_le (is_matched resume_text resume_skills) jd_skills).
    unfold matched. lia. }
  (* the confidence-weighted score *)
  assert (Hcw : exists cw,
             match c with
             | [] => Ok 0
             | _ :: _ =>
                 if Qltb 0 (Qsum (dict_values c))
                 then py_div (Qsum (dict_values c)) (Qn (length jd_skills)) else Ok 0
             end = Ok cw /\ 0 <= cw).
  { destruct c as [|[k v] c']; [eexists; split; [reflexivity | discriminate]|].
    destruct (Qltb 0 (Qsum (dict_values ((k, v) :: c')))) eqn:Ew;
      [|eexists; split; [reflexivity | discriminate]].
    assert (Hin : In k matched).
    { apply (H3 k v). simpl. rewrite str_eqb_refl. reflexivity. }
    apply filter_In in Hin. destruct Hin as [Hin _].
    destruct jd_skills as [|j js]; [contradiction|].
    rewrite py_div_Qn by (simpl; lia). eexists. split; [reflexivity|].
    apply Qltb_true in Ew. apply Qlt_le_weak in Ew.
    apply Qle_shift_div_l; [apply Qn_pos; simpl; lia|]. rewrite Qmult_0_l. exact Ew. }
  destruct Hcw as (cw & Hcw & Hcw0). rewrite Hcw in Hres. cbn [bind] in Hres.
  (* the context score *)
  assert (Hctx : forall n, (n <= length matched)%nat -> exists x,
             (if (0 <? length matched)%nat
              then py_div (Qn n) (Qn (Nat.max 1 (length matched))) else Ok 0) = Ok x /\
             0 <= x /\ x <= 1).
  { intros n Hn. destruct (0 <? length matched)%nat;
      [|eexists; split; [reflexivity | split; discriminate]].
    rewrite py_div_Qn by lia. eexists. split; [reflexivity|].
    apply Qn_ratio_bounds; lia. }
  match type of Hres with
  | context [py_div (Qn ?n) (Qn (Nat.max 1 (length matched)))] =>
      destruct (Hctx n) as (ctx & Hc & Hc01);
      [destruct (0 <? length matched)%nat; [apply count_if_le | lia]
      | rewrite Hc in Hres]
  end.
  cbn [bind] in Hres.
  (* the experience curve *)
  rewrite (experience_duration_score_of_ok _ Hyears) in Hres. cbn [bind] in Hres.
  (* the job-type buckets and the relevance score *)
  destruct (job_type_scan_total job_types (lower job_desc) (lower resume_text) [])
    as [jtm Hj].
  pose proof (job_type_scan_range job_types (lower job_desc) (lower resume_text) [] jtm
                                  (Forall_nil _) Hj) as Hjr.
  rewrite Hj in Hres. cbn [bind] in Hres.
  assert (Hrel : exists rel,
             match jtm with
             | [] => Ok 0.5
             | _ :: _ => m <- py_max (map fst (dict_values jtm)) ;; Ok (Qmin 1.0 (m + 0.3))
             end = Ok rel /\ 0.3 <= rel /\ rel <= 1).
  { destruct jtm as [|[k [q n]] jtm'];
      [eexists; split; [reflexivity | split; discriminate]|].
    eexists. split; [reflexivity|].
    cbn [dict_values map snd fst] in *.
    inversion Hjr as [|x l Hq Hl]; subst. cbn [fst] in Hq.
    assert (Hall : Forall (fun q => 0 <= q /\ q <= 1) (map fst (map snd jtm'))).
    { apply Forall_map. apply Forall_map in Hl. apply Forall_map.
      eapply Forall_impl; [|exact Hl]. intros a Ha. exact Ha. }
    destruct (fold_Qmax_range _ q Hq Hall) as [M0 M1].
    split.
    - apply Q.min_glb; [discriminate|].
      apply Qle_trans with (0 + 0.3); [discriminate|].
      apply Qplus_le_compat; [exact M0 | apply Qle_refl].
    - eapply Qle_trans; [apply Q.le_min_l | discriminate]. }
  destruct Hrel as (rel & Hrel & Hrel01). rewrite Hrel in Hres. cbn [bind] in Hres.
  rewrite py_div_Qn in Hres by lia. cbn [bind] in Hres.
  eexists. do 4 eexists. split; [exact Hm|]. split; [exact Hres|].
  split; [|split; [exact Hc01 | exact Hrel01]].
  split.
  - apply Q.min_glb; [discriminate|].
    cbn [match_rate]. fold matched.
    assert (H07 : 0 <= Qn (length matched) / Qn (Nat.max 1 (length jd_skills)) * 0.7)
      by (apply Qmult_le_0_compat; [exact Hrate | discriminate]).
    assert (H03 : 0 <= cw * 0.3)
      by (apply Qmult_le_0_compat; [exact Hcw0 | discriminate]).
    lra.
  - eapply Qle_trans; [apply Q.le_min_l | discriminate].
Qed.

(** The seven weighted entries of the record that the scorer builds. *)
Lemma component_record_range
      (m : SkillMatchResult)
      (skill_match context duration impact project education relevance total technical : Q)
      (n : nat) (average : Q) (impact_count : nat) :
  (0 <= skill_match /\ skill_match <= 1) -> (0 <= context /\ context <= 1) ->
  (0 <= duration /\ duration <= 1) -> (0 <= impact /\ impact <= 1) ->
  (0 <= project /\ project <= 1) -> (0 <= education /\ education <= 1) ->
  (0 <= relevance /\ relevance <= 1) ->
  forall k, In k (map fst weights) ->
            exists q, dict_get (component_record m skill_match context duration impact project
                                                 education relevance total technical n average
                                                 impact_count) k
                      = Some (VNum q) /\ 0 <= q /\ q <= 1.
Proof.
  intros H1 H2 H3 H4 H5 H6 H7 k Hk. cbn in Hk.
  repeat (destruct Hk as [<-|Hk]; [eexists; split; [reflexivity | assumption]|]).
  contradiction.
Qed.

(** The scorer returns a record whose seven weighted entries are in range. *)
Lemma compute_returns_unit
      (job_desc resume_text : str) (jd_skills resume_skills : list str)
      (experience_data : dict Q) :
  0 <= get_or_zero experience_data (lit "technical_years_experience") ->
  exists cs,
    compute_enhanced_component_scores job_desc resume_text jd_skills resume_skills
                                      experience_data = Ok cs /\
    (forall k, In k (map fst weights) ->
               exists q, dict_get cs k = Some (VNum q) /\ 0 <= q /\ q <= 1) /\
    (exists q, dict_get cs (lit "education_score") = Some (VNum q) /\ 0.3 <= q) /\
    (exists q, dict_get cs (lit "relevance_score") = Some (VNum q) /\ 0.3 <= q) /\
    (exists q, dict_get cs (lit "project_score") = Some (VNum q) /\ q <= 0.9).
Proof.
  intro Hyears.
  assert (Hconv : - float_limit
                  < get_or_zero experience_data (lit "technical_years_experience"))
    by (pose proof float_limit_large; lra).
  destruct (compute_returns_ranges job_desc resume_text jd_skills resume_skills
                                   experience_data Hconv)
    as (m & sm & ctx & rel & avg & _ & Hcs & Hsm & Hctx & Hrel).
  eexists. split; [exact Hcs|].
  pose proof (experience_duration_score_range
                (get_or_zero experience_data (lit "technical_years_experience"))) as [E1 E0].
  pose proof (impact_score_of_range (impact_count_of resume_text) resume_text) as Hi.
  pose proof (project_score_of_range resume_text) as [P0 P1].
  pose proof (education_scan_range education_indicators (lower resume_text) 0.3
                                   education_indicators_le_1 ltac:(discriminate)) as [D0 D1].
  split; [|split; [|split]].
  - apply component_record_range; try assumption; split; auto; lra.
  - eexists. split; [reflexivity | exact D0].
  - eexists. split; [reflexivity | exact (proj1 Hrel)].
  - eexists. split; [reflexivity | exact P1].
Qed.

(** X10: with non-negative technical years every one of the seven weighted
    components of the scorer lies between 0 and 1; the education and the
    relevance components are never below 0.3, and the project component never
    above 0.9. *)
Theorem component_scores_in_range
        (job_desc resume_text : str) (jd_skills resume_skills : list str)
        (experience_data : dict Q) :
  0 <= get_or_zero experience_data (lit "technical_years_experience") ->
  exists cs,
    compute_enhanced_component_scores job_desc resume_text jd_skills resume_skills
                                      experience_data = Ok cs /\
    (forall k, In k (map fst weights) ->
               exists q, dict_get cs k = Some (VNum q) /\ 0 <= q /\ q <= 1) /\
    (exists q, dict_get cs (lit "education_score") = Some (VNum q) /\ 0.3 <= q) /\
    (exists q, dict_get cs (lit "relevance_score") = Some (VNum q) /\ 0.3 <= q) /\
    (exists q, dict_get cs (lit "project_score") = Some (VNum q) /\ q <= 0.9).
Proof. apply compute_returns_unit. Qed.

Lemma component_scores_in_range_witness :
  exists cs,
    compute_enhanced_component_scores
      (lit "Backend developer, Python and SQL.")
      (lit "Built a Python API. BSc in computing.")
      [lit "Python"; lit "SQL"] [lit "python"]
      [(lit "technical_years_experience", 2)] = Ok cs /\
    (forall k, In k (map fst weights) ->
               exists q, dict_get cs k = Some (VNum q) /\ 0 <= q /\ q <= 1) /\
    (exists q, dict_get cs (lit "education_score") = Some (VNum q) /\ 0.3 <= q) /\
    (exists q, dict_get cs (lit "relevance_score") = Some (VNum q) /\ 0.3 <= q) /\
    (exists q, dict_get cs (lit "project_score") = Some (VNum q) /\ q <= 0.9).
Proof.
  apply (component_scores_in_range
           (lit "Backend developer, Python and SQL.")
           (lit "Built a Python API. BSc in computing.")
           [lit "Python"; lit "SQL"] [lit "python"]
           [(lit "technical_years_experience", 2)]).
  vm_compute. discriminate.
Defined.

End ComponentRanges.

(* ------------------------------------------------------------------ *)
(** ** The calls that return, and the one that does not *)

Section ScoringReturns.
Local Open Scope Q_scope.

Lemma component_record_float
      (m : SkillMatchResult)
      (skill_match context duration impact project education relevance total technical : Q)
      (n : nat) (average : Q) (impact_count : nat) :
  convertible skill_match -> convertible context -> convertible duration ->
  convertible impact -> convertible project -> convertible education ->
  convertible relevance ->
  float_on (map fst weights)
           (component_record m skill_match context duration impact project education
                             relevance total technical n average impact_count).
Proof.
  intros H1 H2 H3 H4 H5 H6 H7 k v Hk Hget. cbn in Hk.
  repeat (destruct Hk as [<-|Hk];
          [cbn in Hget; injection Hget as <-; eexists; split; [reflexivity | assumption]|]).
  contradiction.
Qed.

(** With technical years that are an int at or below [- float_limit] the
    last branch of the experience curve, [technical_years * 0.4], cannot
    convert its operand, and the scorer raises. *)
Lemma compute_overflows
      (job_desc resume_text : str) (jd_skills resume_skills : list str)
      (experience_data : dict Q) :
  get_or_zero experience_data (lit "technical_years_experience") <= - float_limit ->
  compute_enhanced_component_scores job_desc resume_text jd_skills resume_skills
                                    experience_data = Raise OverflowError.
Proof.
  intro Hyears.
  destruct (find_skill_matches_spec resume_text resume_skills jd_skills)
    as (e & c & Hm & H1 & H2 & H3).
  remember (compute_enhanced_component_scores job_desc resume_text jd_skills resume_skills
                                              experience_data) as result eqn:Hres.
  unfold compute_enhanced_component_scores in Hres. rewrite Hm in Hres.
  cbn [bind match_rate confidence_scores matched_skills skill_evidence] in Hres.
  assert (Hcw : exists cw,
             match c with
             | [] => Ok 0
             | _ :: _ =>
                 if Qltb 0 (Qsum (dict_values c))
                 then py_div (Qsum (dict_values c)) (Qn (length jd_skills)) else Ok 0
             end = Ok cw).
  { destruct c as [|[k v] c']; [eexists; reflexivity|].
    destruct (Qltb 0 (Qsum (dict_values ((k, v) :: c')))); [|eexists; reflexivity].
    assert (Hin : In k (filter (is_matched resume_text resume_skills) jd_skills)).
    { apply (H3 k v). simpl. rewrite str_eqb_refl. reflexivity. }
    apply filter_In in Hin. destruct Hin as [Hin _].
    destruct jd_skills as [|j js]; [contradiction|].
    rewrite py_div_Qn by (simpl; lia). eexists. reflexivity. }
  destruct Hcw as [cw Hcw]. rewrite Hcw in Hres. cbn [bind] in Hres.
  set (total_matched := length (filter (is_matched resume_text resume_skills) jd_skills))
    in Hres.
  assert (Hctx : forall n, exists x,
             (if (0 <? total_matched)%nat
              then py_div (Qn n) (Qn (Nat.max 1 total_matched)) else Ok 0) = Ok x).
  { intro n. destruct (0 <? total_matched)%nat; [|eexists; reflexivity].
    rewrite py_div_Qn by lia. eexists. reflexivity. }
  match type of Hres with
  | context [py_div (Qn ?n) (Qn (Nat.max 1 total_matched))] =>
      destruct (Hctx n) as [ctx Hc]; rewrite Hc in Hres
  end.
  cbn [bind] in Hres.
  rewrite (experience_duration_score_of_raise _ Hyears) in Hres. cbn [bind] in Hres.
  exact Hres.
Qed.

(** The aggregator does the same on a weighted component that is an int
    beyond the range of floats: [weight * component_scores[component]]. *)
Lemma aggregate_overflows :
  aggregate_enhanced_scores huge_component = Raise OverflowError.
Proof. vm_compute. reflexivity. Qed.

(** The claim C9 as it stands is refuted: on empty texts and lists and an
    experience record whose technical years are the int -10^400, a numeric
    value, the component scorer raises OverflowError and returns nothing. *)
Lemma scoring_overflows_on_huge_int :
  dict_get huge_negative_years (lit "technical_years_experience")
  = Some (- inject_Z (10 ^ 400)) /\
  compute_enhanced_component_scores [] [] [] [] huge_negative_years
  = Raise OverflowError /\
  ~ (exists cs, compute_enhanced_component_scores [] [] [] [] huge_negative_years
                = Ok cs).
Proof.
  assert (E : compute_enhanced_component_scores [] [] [] [] huge_negative_years
              = Raise OverflowError) by (vm_compute; reflexivity).
  split; [reflexivity|]. split; [exact E|].
  intros [cs Hcs]. rewrite E in Hcs. discriminate.
Qed.

(** C9, amended: on strings, lists of strings and an experience record with
    numeric values whose technical years are a float, or an int above
    -(2^1024 - 2^970), the matcher, the component scorer and the aggregator
    all return: no division by zero and no other error; a key the experience
    record lacks counts as 0. *)
Theorem scoring_never_raises_in_float_range
        (job_desc resume_text : str) (jd_skills resume_skills : list str)
        (experience_data : dict Q) :
  - float_limit < get_or_zero experience_data (lit "technical_years_experience") ->
  (exists m, find_skill_matches resume_text resume_skills jd_skills = Ok m) /\
  (exists cs r,
      compute_enhanced_component_scores job_desc resume_text jd_skills resume_skills
                                        experience_data = Ok cs /\
      aggregate_enhanced_scores cs = Ok r /\
      dict_get cs (lit "years_experience_estimate")
      = Some (VNum (match dict_get experience_data (lit "total_years_experience") with
                    | Some v => v
                    | None => 0
                    end)) /\
      dict_get cs (lit "technical_years_estimate")
      = Some (VNum (match dict_get experience_data (lit "technical_years_experience") with
                    | Some v => v
                    | None => 0
                    end)) /\
      dict_get cs (lit "experience_duration_score")
      = Some (VNum (experience_duration_score
                      (match dict_get experience_data (lit "technical_years_experience") with
                       | Some v => v
                       | None => 0
                       end)))).
Proof.
  intro Hyears.
  destruct (compute_returns_ranges job_desc resume_text jd_skills resume_skills
                                   experience_data Hyears)
    as (m & sm & ctx & rel & avg & Hm & Hcs & Hsm & Hctx & Hrel).
  split; [exists m; exact Hm|].
  pose proof (impact_score_of_range (impact_count_of resume_text) resume_text) as [I0 I1].
  pose proof (project_score_of_range resume_text) as [P0 P1].
  pose proof (education_scan_range education_indicators (lower resume_text) 0.3
                                   education_indicators_le_1 ltac:(discriminate)) as [D0 D1].
  match type of Hcs with
  | _ = Ok ?d =>
      destruct (aggregate_float_total d) as [r Hr];
      [| exists d, r; split; [exact Hcs|]; split; [exact Hr|] ]
  end.
  - apply component_record_float.
    + apply (convertible_between sm 0 1); try tauto; discriminate.
    + apply (convertible_between ctx 0 1); try tauto; discriminate.
    + apply experience_duration_score_convertible, Hyears.
    + apply (convertible_between _ 0 1); try assumption; discriminate.
    + apply (convertible_between _ 0 1); try assumption; try discriminate. lra.
    + apply (convertible_between _ 0 1); try assumption; try discriminate. lra.
    + apply (convertible_between rel 0 1); try tauto; try discriminate. lra.
  - repeat split.
Qed.

Lemma scoring_never_raises_in_float_range_witness :
  (exists m, find_skill_matches (lit "Built a Python API.") [lit "python"]
                                [lit "Python"; lit "SQL"] = Ok m) /\
  (exists cs r,
      compute_enhanced_component_scores
        (lit "Backend developer, Python and SQL.") (lit "Built a Python API.")
        [lit "Python"; lit "SQL"] [lit "python"]
        [(lit "technical_years_experience", - inject_Z (10 ^ 300))] = Ok cs /\
      aggregate_enhanced_scores cs = Ok r /\
      dict_get cs (lit "years_experience_estimate") = Some (VNum 0) /\
      dict_get cs (lit "technical_years_estimate") = Some (VNum (- inject_Z (10 ^ 300))) /\
      dict_get cs (lit "experience_duration_score")
      = Some (VNum (experience_duration_score (- inject_Z (10 ^ 300))))).
Proof.
  apply (scoring_never_raises_in_float_range
           (lit "Backend developer, Python and SQL.") (lit "Built a Python API.")
           [lit "Python"; lit "SQL"] [lit "python"]
           [(lit "technical_years_experience", - inject_Z (10 ^ 300))]).
  vm_compute. reflexivity.
Defined.

End ScoringReturns.

(* ------------------------------------------------------------------ *)
(** ** The aggregator: bounds and monotonicity *)

Section AggregatorOrder.
Local Open Scope Q_scope.

Lemma weights_nonneg : Forall (fun kw : str * Q => 0 <= snd kw) weights.
Proof. repeat constructor; discriminate. Qed.

Lemma scores_le_get (cs cs' : dict pyval) (k : str) :
  scores_le cs cs' ->
  match dict_get cs k, dict_get cs' k with
  | Some v, Some v' => value_le v v'
  | None, None => True
  | _, _ => False
  end.
Proof.
  intro H. induction H as [|[k1 v1] [k2 v2] cs cs' [Hk Hv] H IH]; cbn [dict_get].
  - exact I.
  - cbn [fst snd] in Hk, Hv. subst k2. destruct (str_eqb k k1); [exact Hv | exact IH].
Qed.

Lemma nonneg_on_tail (k : str) (ks : list str) (cs : dict pyval) :
  nonneg_on (k :: ks) cs -> nonneg_on ks cs.
Proof. intros H k' v Hk. apply H. right. exact Hk. Qed.

Lemma float_on_get (ks : list str) (cs : dict pyval) (k : str) (q : Q) :
  float_on ks cs -> In k ks -> dict_get cs k = Some (VNum q) -> convertible q.
Proof.
  intros H Hk Hget. destruct (H k (VNum q) Hk Hget) as (q0 & [= <-] & Hq). exact Hq.
Qed.

(** Below a record of convertible numbers, a record of non-negative numbers
    is one too. *)
Lemma float_on_below (ks : list str) (cs cs' : dict pyval) :
  nonneg_on ks cs -> scores_le cs cs' -> float_on ks cs' -> float_on ks cs.
Proof.
  intros Hnn Hle Hf k v Hk Hget.
  pose proof (scores_le_get cs cs' k Hle) as Hv. rewrite Hget in Hv.
  destruct (Hnn k v Hk Hget) as (q & -> & Hq0).
  destruct (dict_get cs' k) as [v'|] eqn:E'; [|contradiction].
  destruct v' as [q'| | | |]; cbn [value_le] in Hv; try discriminate.
  pose proof (float_on_get ks cs' k q' Hf Hk E') as [_ Hq'].
  exists q. split; [reflexivity|]. pose proof float_limit_large. split; lra.
Qed.

Lemma weighted_sum_mono (ws : dict Q) (cs cs' : dict pyval) :
  Forall (fun kw : str * Q => 0 <= snd kw) ws ->
  scores_le cs cs' -> nonneg_on (map fst ws) cs ->
  float_on (map fst ws) cs -> float_on (map fst ws) cs' ->
  forall t t', t <= t' ->
    exists s s',
      weighted_sum ws cs t = Ok s /\ weighted_sum ws cs' t' = Ok s' /\
      s <= s' /\ (0 <= t -> 0 <= s).
Proof.
  intros Hws Hle. induction Hws as [|[k w] ws Hw Hws IH]; intros Hnn Hf Hf' t t' Ht;
    cbn [weighted_sum].
  - exists t, t'. auto.
  - cbn [map fst snd] in Hnn, Hf, Hf', Hw.
    pose proof (scores_le_get cs cs' k Hle) as Hk.
    pose proof (Hnn k) as Hv.
    destruct (dict_get cs k) as [v|] eqn:E; destruct (dict_get cs' k) as [v'|] eqn:E';
      try contradiction.
    + destruct (Hv v (or_introl eq_refl) eq_refl) as (q & -> & Hq).
      destruct v' as [q'| | | |]; cbn [value_le] in Hk; try discriminate.
      cbn [as_number].
      rewrite (to_float_ok q (float_on_get _ _ _ _ Hf (or_introl eq_refl) E)).
      rewrite (to_float_ok q' (float_on_get _ _ _ _ Hf' (or_introl eq_refl) E')).
      cbn [bind].
      assert (Hwq : 0 <= w * q) by (apply Qmult_le_0_compat; assumption).
      assert (Hwq' : w * q <= w * q').
      { rewrite (Qmult_comm w q), (Qmult_comm w q').
        apply Qmult_le_compat_r; [exact (proj2 Hk) | exact Hw]. }
      destruct (IH (nonneg_on_tail _ _ _ Hnn) (float_on_tail _ _ _ Hf)
                   (float_on_tail _ _ _ Hf') (t + w * q) (t' + w * q') ltac:(lra))
        as (s & s' & H1 & H2 & H3 & H4).
      exists s, s'. repeat split; auto. intro H0. apply H4. lra.
    + apply IH; [exact (nonneg_on_tail _ _ _ Hnn) | exact (float_on_tail _ _ _ Hf)
                 | exact (float_on_tail _ _ _ Hf') | exact Ht].
Qed.

Lemma per_component_range (ks : list str) (cs : dict pyval) :
  float_on ks cs ->
  forall out, exists out',
      per_component ks cs out = Ok out' /\
      forall k y, dict_get out' k = Some y ->
                  dict_get out k = Some y \/
                  exists x, In k ks /\ dict_get cs k = Some (VNum x) /\
                            y = py_round (x * 10.0) 1.
Proof.
  induction ks as [|k ks IH]; intros Hnn out; cbn [per_component].
  - exists out. auto.
  - pose proof (Hnn k) as Hv.
    destruct (dict_get cs k) as [v|] eqn:E.
    2:{ destruct (IH (float_on_tail _ _ _ Hnn) out) as (out' & Ho & Hget).
        exists out'. split; [exact Ho|]. intros k' y Hy.
        destruct (Hget k' y Hy) as [H|(x & Hin & Hx)]; [left; exact H|].
        right. exists x. split; [right; exact Hin | exact Hx]. }
    destruct (Hv v (or_introl eq_refl) eq_refl) as (q & -> & Hq).
    cbn [as_number]. rewrite (to_float_ok q Hq). cbn [bind].
    destruct (IH (float_on_tail _ _ _ Hnn) (dict_set out k (py_round (q * 10.0) 1)))
      as (out' & Ho & Hget).
    exists out'. split; [exact Ho|].
    intros k' y Hy. destruct (Hget k' y Hy) as [H|(x & Hin & Hx)].
    + rewrite dict_get_set in H. destruct (str_eqb k' k) eqn:Ek; [|left; exact H].
      apply str_eqb_eq in Ek. subst k'. injection H as <-.
      right. exists q. split; [left; reflexivity | auto].
    + right. exists x. split; [right; exact Hin | exact Hx].
Qed.

Lemma component_count_mono (cs cs' : dict pyval) :
  scores_le cs cs' -> (component_count cs <= component_count cs')%nat.
Proof.
  unfold component_count, count_if, dict_values.
  intro H. induction H as [|[k1 v1] [k2 v2] cs cs' [Hk Hv] H IH]; [apply Nat.le_refl|].
  cbn [fst snd] in Hk, Hv. subst k2. cbn [filter fst snd].
  destruct (endswith k1 (lit "_score")); cbn [andb]; [|exact IH].
  destruct v1 as [q| | | |]; destruct v2 as [q'| | | |]; cbn [value_le] in Hv;
    try discriminate; cbn [is_number]; try exact IH.
  cbn [map snd filter].
  destruct (Qltb 0.3 q) eqn:E.
  - apply Qltb_true in E.
    assert (E' : Qltb 0.3 q' = true) by (apply Qltb_true; lra).
    rewrite E'. cbn [length]. lia.
  - destruct (Qltb 0.3 q'); cbn [length]; lia.
Qed.

Lemma density_adjust_mono (n n' : nat) (t t' : Q) :
  (n <= n')%nat -> 0 <= t -> t <= t' -> density_adjust n t <= density_adjust n' t'.
Proof.
  intros Hn H0 Ht. unfold density_adjust.
  destruct (5 <=? n)%nat eqn:E1; destruct (5 <=? n')%nat eqn:E2;
    destruct (n <=? 2)%nat eqn:E3; destruct (n' <=? 2)%nat eqn:E4;
    rewrite ?Nat.leb_le, ?Nat.leb_gt in *; try lia; lra.
Qed.

Lemma density_adjust_nonneg (n : nat) (t : Q) : 0 <= t -> 0 <= density_adjust n t.
Proof.
  intro H. unfold density_adjust.
  destruct (5 <=? n)%nat; [lra|]. destruct (n <=? 2)%nat; lra.
Qed.

Lemma py_round_100 : py_round 100.0 1 <= 100 /\ py_round (100.0 / 10.0) 2 <= 10.
Proof. split; apply Qle_bool_iff; vm_compute; reflexivity. Qed.

Lemma py_round_0 (ndigits : nat) : py_round 0 ndigits == 0.
Proof.
  unfold py_round.
  change (round_half_even (0 * inject_Z (10 ^ Z.of_nat ndigits))) with 0%Z.
  apply Qmult_0_l.
Qed.

Lemma py_round_nonneg (x : Q) (ndigits : nat) : 0 <= x -> 0 <= py_round x ndigits.
Proof.
  intro H. eapply Qle_trans; [|apply py_round_mono, H].
  rewrite py_round_0. apply Qle_refl.
Qed.

Lemma div_10_mono (x y : Q) : x <= y -> x / 10.0 <= y / 10.0.
Proof. intro H. apply Qmult_le_compat_r; [exact H | discriminate]. Qed.

(** X11: whatever the record holds, a score that the aggregator returns is at
    most 100 on the one scale and at most 10 on the other. *)
Theorem score_is_capped (component_scores : dict pyval) (r : AggregatedScore) :
  aggregate_enhanced_scores component_scores = Ok r ->
  score_0_100 r <= 100 /\ score_0_10 r <= 10.
Proof.
  unfold aggregate_enhanced_scores. intro H.
  destruct (raw_total component_scores) as [total|]; cbn [bind] in H; [|discriminate].
  destruct (per_component (map fst weights) component_scores []) as [out|];
    cbn [bind] in H; [|discriminate].
  injection H as <-. cbn [score_0_100 score_0_10].
  destruct py_round_100 as [R1 R2]. split.
  - eapply Qle_trans; [apply py_round_mono, Q.le_min_l | exact R1].
  - eapply Qle_trans; [apply py_round_mono, div_10_mono, Q.le_min_l | exact R2].
Qed.

(** X12: raising components of a record of non-negative numbers never lowers
    either score, and both aggregations return, when the raised components
    are floats or ints that convert to floats. *)
Theorem aggregate_monotone (cs cs' : dict pyval) :
  nonneg_on (map fst weights) cs -> scores_le cs cs' ->
  float_on (map fst weights) cs' ->
  exists r r',
    aggregate_enhanced_scores cs = Ok r /\ aggregate_enhanced_scores cs' = Ok r' /\
    score_0_100 r <= score_0_100 r' /\ score_0_10 r <= score_0_10 r'.
Proof.
  intros Hnn Hle Hf'.
  pose proof (float_on_below _ _ _ Hnn Hle Hf') as Hf.
  destruct (weighted_sum_mono weights cs cs' weights_nonneg Hle Hnn Hf Hf' 0.0 0.0
                              (Qle_refl _))
    as (s & s' & Hs & Hs' & Hss & Hs0).
  destruct (per_component_range (map fst weights) cs Hf []) as (out & Ho & _).
  destruct (per_component_range (map fst weights) cs' Hf' []) as (out' & Ho' & _).
  unfold aggregate_enhanced_scores, raw_total. rewrite Hs, Hs', Ho, Ho'. cbn [bind].
  eexists. eexists. split; [reflexivity|]. split; [reflexivity|].
  cbn [score_0_100 score_0_10].
  assert (Hd : density_adjust (component_count cs) s
               <= density_adjust (component_count cs') s').
  { apply density_adjust_mono; [apply component_count_mono, Hle | | exact Hss].
    apply Hs0. discriminate. }
  assert (Hm : Qmin 100.0 (density_adjust (component_count cs) s * 100)
               <= Qmin 100.0 (density_adjust (component_count cs') s' * 100)).
  { apply Q.min_le_compat_l. apply Qmult_le_compat_r; [exact Hd | discriminate]. }
  split.
  - apply py_round_mono, Hm.
  - apply py_round_mono, div_10_mono, Hm.
Qed.

Lemma weighted_sum_nonneg (ws : dict Q) (cs : dict pyval) :
  Forall (fun kw : str * Q => 0 <= snd kw) ws -> nonneg_on (map fst ws) cs ->
  float_on (map fst ws) cs ->
  forall t, 0 <= t -> exists s, weighted_sum ws cs t = Ok s /\ 0 <= s.
Proof.
  intro Hws. induction Hws as [|[k w] ws Hw Hws IH]; intros Hnn Hf t Ht;
    cbn [weighted_sum].
  - exists t. auto.
  - cbn [map fst snd] in Hnn, Hf, Hw. pose proof (Hnn k) as Hv.
    destruct (dict_get cs k) as [v|] eqn:E;
      [|apply IH; [exact (nonneg_on_tail _ _ _ Hnn) | exact (float_on_tail _ _ _ Hf)
                   | exact Ht]].
    destruct (Hv v (or_introl eq_refl) eq_refl) as (q & -> & Hq).
    cbn [as_number].
    rewrite (to_float_ok q (float_on_get _ _ _ _ Hf (or_introl eq_refl) E)). cbn [bind].
    assert (Hwq : 0 <= w * q) by (apply Qmult_le_0_compat; assumption).
    apply IH; [exact (nonneg_on_tail _ _ _ Hnn) | exact (float_on_tail _ _ _ Hf) | lra].
Qed.

(** X13: with non-negative technical years, scoring a resume and aggregating
    the result gives a score between 0 and 100, its tenth between 0 and 10,
    and per-component values between 0 and 10. *)
Theorem final_score_in_range
        (job_desc resume_text : str) (jd_skills resume_skills : list str)
        (experience_data : dict Q) :
  0 <= get_or_zero experience_data (lit "technical_years_experience") ->
  exists cs r,
    compute_enhanced_component_scores job_desc resume_text jd_skills resume_skills
                                      experience_data = Ok cs /\
    aggregate_enhanced_scores cs = Ok r /\
    (0 <= score_0_100 r /\ score_0_100 r <= 100) /\
    (0 <= score_0_10 r /\ score_0_10 r <= 10) /\
    (forall k y, dict_get (per_component_0_10 r) k = Some y -> 0 <= y /\ y <= 10).
Proof.
  intro Hyears.
  destruct (compute_returns_unit job_desc resume_text jd_skills resume_skills
                                 experience_data Hyears) as (cs & Hcs & Hunit & _).
  assert (Hnn : nonneg_on (map fst weights) cs).
  { intros k v Hk Hget. destruct (Hunit k Hk) as (q & Hq & H0 & _).
    rewrite Hq in Hget. injection Hget as <-. exists q. auto. }
  assert (Hf : float_on (map fst weights) cs).
  { intros k v Hk Hget. destruct (Hunit k Hk) as (q & Hq & H0 & H1).
    rewrite Hq in Hget. injection Hget as <-. exists q. split; [reflexivity|].
    apply (convertible_between q 0 1); [discriminate | discriminate | exact H0 | exact H1]. }
  destruct (weighted_sum_nonneg weights cs weights_nonneg Hnn Hf 0.0 ltac:(discriminate))
    as (s & Hs & Hs0).
  destruct (per_component_range (map fst weights) cs Hf []) as (out & Ho & Hout).
  exists cs. eexists. split; [exact Hcs|].
  unfold aggregate_enhanced_scores, raw_total. rewrite Hs, Ho. cbn [bind].
  split; [reflexivity|]. cbn [score_0_100 score_0_10 per_component_0_10].
  assert (Hm : 0 <= Qmin 100.0 (density_adjust (component_count cs) s * 100)).
  { apply Q.min_glb; [discriminate|].
    apply Qmult_le_0_compat; [apply density_adjust_nonneg, Hs0 | discriminate]. }
  destruct py_round_100 as [R1 R2].
  split; [|split].
  - split; [apply py_round_nonneg, Hm|].
    eapply Qle_trans; [apply py_round_mono, Q.le_min_l | exact R1].
  - split.
    + apply py_round_nonneg. apply Qmult_le_0_compat; [exact Hm | discriminate].
    + eapply Qle_trans; [apply py_round_mono, div_10_mono, Q.le_min_l | exact R2].
  - intros k y Hy. destruct (Hout k y Hy) as [H|(x & Hk & Hx & ->)]; [discriminate|].
    destruct (Hunit k Hk) as (q & Hq & H0 & H1). rewrite Hq in Hx. injection Hx as <-.
    split.
    + apply py_round_nonneg. apply Qmult_le_0_compat; [exact H0 | discriminate].
    + assert (R10 : py_round (1 * 10.0) 1 <= 10)
        by (apply Qle_bool_iff; vm_compute; reflexivity).
      eapply Qle_trans; [|exact R10].
      apply py_round_mono. apply Qmult_le_compat_r; [exact H1 | discriminate].
Qed.

End AggregatorOrder.

Lemma score_is_capped_witness :
  exists r,
    aggregate_enhanced_scores seven_ones = Ok r /\
    (score_0_100 r <= 100)%Q /\ (score_0_10 r <= 10)%Q.
Proof.
  eexists. split; [vm_compute; reflexivity|].
  apply (score_is_capped seven_ones). vm_compute. reflexivity.
Defined.

Lemma aggregate_monotone_witness :
  exists r r',
    aggregate_enhanced_scores seven_halves = Ok r /\
    aggregate_enhanced_scores seven_ones = Ok r' /\
    (score_0_100 r <= score_0_100 r')%Q /\ (score_0_10 r <= score_0_10 r')%Q.
Proof.
  apply (aggregate_monotone seven_halves seven_ones).
  - intros k v Hk Hget. cbn in Hk.
    repeat (destruct Hk as [<-|Hk];
            [cbn in Hget; injection Hget as <-; eexists; split; [reflexivity | discriminate]|]).
    contradiction.
  - unfold seven_halves, seven_ones, weights. cbn [map fst snd].
    repeat constructor; discriminate.
  - intros k v Hk Hget. cbn in Hk.
    repeat (destruct Hk as [<-|Hk];
            [cbn in Hget; injection Hget as <-; eexists; split;
             [reflexivity | split; vm_compute; reflexivity]|]).
    contradiction.
Defined.

Lemma final_score_in_range_witness :
  exists cs r,
    compute_enhanced_component_scores
      (lit "Backend developer, Python and SQL.")
      (lit "Built a Python API. BSc in computing.")
      [lit "Python"; lit "SQL"] [lit "python"]
      [(lit "technical_years_experience", 2%Q)] = Ok cs /\
    aggregate_enhanced_scores cs = Ok r /\
    (0 <= score_0_100 r /\ score_0_100 r <= 100)%Q /\
    (0 <= score_0_10 r /\ score_0_10 r <= 10)%Q /\
    (forall k y, dict_get (per_component_0_10 r) k = Some y -> 0 <= y /\ y <= 10)%Q.
Proof.
  apply (final_score_in_range
           (lit "Backend developer, Python and SQL.")
           (lit "Built a Python API. BSc in computing.")
           [lit "Python"; lit "SQL"] [lit "python"]
           [(lit "technical_years_experience", 2%Q)]).
  vm_compute. discriminate.
Defined.

(* ------------------------------------------------------------------ *)
(** ** The education component *)

Section Education.
Local Open Scope Q_scope.

(** On a table in descending order of score, stopping at the first term
    found gives the best score of the terms present. *)
Lemma education_scan_best (tbl : dict Q) (resume_lower : str) (start : Q) :
  StronglySorted (fun a b : str * Q => snd b <= snd a) tbl ->
  Forall (fun e : str * Q => start <= snd e) tbl ->
  (forall term score, In (term, score) tbl -> contains resume_lower term = true ->
                      score <= education_scan tbl resume_lower start) /\
  (((forall term score, In (term, score) tbl -> contains resume_lower term = false) /\
    education_scan tbl resume_lower start = start) \/
   exists term score, In (term, score) tbl /\ contains resume_lower term = true /\
                      education_scan tbl resume_lower start == score).
Proof.
  intros Hsorted Hstart.
  induction tbl as [|[term score] tbl IH]; cbn [education_scan].
  - split; [intros t s []|]. left. split; [intros t s []|reflexivity].
  - apply StronglySorted_inv in Hsorted. destruct Hsorted as [Hsorted Hhead].
    inversion Hstart as [|x l Hs Hstart']; subst. cbn [snd] in Hs.
    destruct (contains resume_lower term) eqn:E.
    + split.
      * intros t s [Hin|Hin] _.
        -- injection Hin as <- <-. apply Q.le_max_r.
        -- eapply Qle_trans; [|apply Q.le_max_r].
           rewrite Forall_forall in Hhead. exact (Hhead (t, s) Hin).
      * right. exists term, score. split; [left; reflexivity|]. split; [exact E|].
        apply Q.max_r, Hs.
    + destruct (IH Hsorted Hstart') as [IH1 IH2]. split.
      * intros t s [Hin|Hin] Hc.
        -- injection Hin as <- <-. congruence.
        -- exact (IH1 t s Hin Hc).
      * destruct IH2 as [[Hnone Heq]|(t & s & Hin & Hc & Heq)].
        -- left. split; [|exact Heq].
           intros t s [Hin|Hin]; [injection Hin as <- <-; exact E | exact (Hnone t s Hin)].
        -- right. exists t, s. split; [right; exact Hin | split; assumption].
Qed.

Lemma education_indicators_sorted :
  StronglySorted (fun a b : str * Q => snd b <= snd a) education_indicators /\
  Forall (fun e : str * Q => 0.3 <= snd e) education_indicators.
Proof. split; repeat constructor; discriminate. Qed.

(** X14: the education component is the best score among the education
    terms that occur in the lower-cased resume, and 0.3 when none occurs:
    the loop stops at the first term found, and the table lists the terms in
    descending order of score. This holds on every call that returns, that
    is, unless the technical years are an int at or below -(2^1024 - 2^970). *)
Theorem education_score_is_best
        (job_desc resume_text : str) (jd_skills resume_skills : list str)
        (experience_data : dict Q) :
  - float_limit < get_or_zero experience_data (lit "technical_years_experience") ->
  exists cs q,
    compute_enhanced_component_scores job_desc resume_text jd_skills resume_skills
                                      experience_data = Ok cs /\
    dict_get cs (lit "education_score") = Some (VNum q) /\
    (forall term score, In (term, score) education_indicators ->
                        contains (lower resume_text) term = true -> score <= q) /\
    (((forall term score, In (term, score) education_indicators ->
                          contains (lower resume_text) term = false) /\ q = 0.3) \/
     exists term score, In (term, score) education_indicators /\
                        contains (lower resume_text) term = true /\ q == score).
Proof.
  intro Hyears.
  destruct (compute_returns job_desc resume_text jd_skills resume_skills experience_data
                            Hyears)
    as (m & sm & ctx & rel & avg & _ & Hcs).
  eexists. eexists. split; [exact Hcs|]. split; [reflexivity|].
  destruct education_indicators_sorted as [Hs Hf].
  exact (education_scan_best education_indicators (lower resume_text) 0.3 Hs Hf).
Qed.

Lemma education_score_is_best_witness :
  exists cs q,
    compute_enhanced_component_scores
      [] (lit "MBA, and a diploma in design") [] [] [(lit "technical_years_experience", -1)]
    = Ok cs /\
    dict_get cs (lit "education_score") = Some (VNum q) /\
    (forall term score, In (term, score) education_indicators ->
                        contains (lower (lit "MBA, and a diploma in design")) term = true ->
                        score <= q) /\
    (((forall term score, In (term, score) education_indicators ->
                          contains (lower (lit "MBA, and a diploma in design")) term = false)
      /\ q = 0.3) \/
     exists term score, In (term, score) education_indicators /\
                        contains (lower (lit "MBA, and a diploma in design")) term = true /\
                        q == score).
Proof.
  apply (education_score_is_best [] (lit "MBA, and a diploma in design") [] []
                                 [(lit "technical_years_experience", -1)]).
  vm_compute. reflexivity.
Defined.

End Education.

(* ------------------------------------------------------------------ *)
(** ** Fuzzy matching and lengths *)

Section FuzzyLengths.
Local Open Scope Q_scope.

(** X15: two strings whose fuzzy score reaches the 0.85 of the matcher have
    lower-cased forms, the ones that are compared, whose lengths are within a
    factor 23/17 of each other. *)
Theorem fuzzy_match_needs_close_lengths (text1 text2 : str) :
  0.85 <= fuzzy_match_score text1 text2 ->
  (17 * length (lower text1) <= 23 * length (lower text2))%nat /\
  (17 * length (lower text2) <= 23 * length (lower text1))%nat.
Proof.
  unfold fuzzy_match_score, Difflib.ratio. intro H.
  destruct (get_matching_blocks_total (lower text1) (lower text2))
    as (blocks & Hb & Ha1 & Ha2).
  rewrite Hb in H.
  set (n1 := length (lower text1)) in *. set (n2 := length (lower text2)) in *.
  unfold Difflib.calculate_ratio in H.
  destruct (n1 + n2 =? 0)%nat eqn:E.
  - apply Nat.eqb_eq in E. lia.
  - apply Nat.eqb_neq in E.
    assert (Hpos : 0 < Qn (n1 + n2)) by (apply Qn_pos; lia).
    apply (Qmult_le_compat_r _ _ (Qn (n1 + n2))) in H; [|apply Qlt_le_weak, Hpos].
    unfold Qdiv in H.
    rewrite <- Qmult_assoc, (Qmult_comm (/ _)), Qmult_inv_r, Qmult_1_r in H
      by (intro H0; rewrite H0 in Hpos; discriminate).
    unfold Qle, Qmult, Qn, inject_Z in H. cbn [Qnum Qden] in H. lia.
Qed.

Lemma fuzzy_match_needs_close_lengths_witness :
  (17 * length (lower (lit "Postgres")) <= 23 * length (lower (lit "postgress")))%nat /\
  (17 * length (lower (lit "postgress")) <= 23 * length (lower (lit "Postgres")))%nat.
Proof.
  apply (fuzzy_match_needs_close_lengths (lit "Postgres") (lit "postgress")).
  apply Qle_bool_iff. vm_compute. reflexivity.
Defined.

End FuzzyLengths.

(* ------------------------------------------------------------------ *)
(** ** File names *)

Section SanitizeFilename.

Lemma sub_from_class (p : ascii -> bool) (s : str) :
  forall prev, sub_from (Cls p) prev s 0 = filter (fun c => negb (p c)) s.
Proof.
  induction s as [|c s IH]; intro prev; cbn [sub_from filter]; unfold match_here;
    cbn [rmatch].
  - reflexivity.
  - destruct (p c); cbn [negb].
    + replace (length (c :: s) - length s) with 1 by (cbn [length]; lia). apply IH.
    + rewrite IH. reflexivity.
Qed.

(** What [\s+] does at the head of a text. *)
Lemma match_here_spaces (prev : option ascii) (s : str) :
  match s with
  | c :: s' =>
      if isspace c
      then exists m rest, match_here (plus isspace) prev s = Some rest /\ s' = m ++ rest
      else match_here (plus isspace) prev s = None
  | [] => match_here (plus isspace) prev s = None
  end.
Proof.
  destruct s as [|c s]; [reflexivity|].
  unfold match_here, plus. cbn [rmatch]. destruct (isspace c); [|reflexivity].
  destruct (rmatch_star_all isspace s (Some c)) as (rest & H & _).
  destruct (match_here_suffix (Rep true isspace) (Some c) s rest H) as [m Hm].
  exists m, rest. split; [exact H | exact Hm].
Qed.

(** After [re.sub(r"\s+", "_", s)] every character is an underscore or a
    character of [s] that is not blank. *)
Lemma sub_spaces_chars (s : str) :
  forall prev skip,
    Forall (fun c => c = "_"%char \/ (In c s /\ isspace c = false))
           (sub_repl (plus isspace) (lit "_") prev s skip).
Proof.
  induction s as [|c s IH]; intros prev skip.
  - destruct skip; cbn [sub_repl]; constructor.
  - assert (Hrec : forall prev' k,
               Forall (fun x => x = "_"%char \/ (In x (c :: s) /\ isspace x = false))
                      (sub_repl (plus isspace) (lit "_") prev' s k)).
    { intros prev' k. eapply Forall_impl; [|apply (IH prev' k)].
      intros x [Hx|[Hx Hs]]; [left; exact Hx | right; split; [right; exact Hx | exact Hs]]. }
    destruct skip as [|k]; cbn [sub_repl]; [|apply Hrec].
    pose proof (match_here_spaces prev (c :: s)) as Hm. cbn beta iota in Hm.
    destruct (isspace c) eqn:E.
    + destruct Hm as (m & rest & -> & Hs).
      replace (length (c :: s) - length rest) with (S (length m))
        by (rewrite Hs; cbn [length]; rewrite length_app; lia).
      cbn [lit list_ascii_of_string app]. constructor; [left; reflexivity | apply Hrec].
    + rewrite Hm. constructor; [right; split; [left; reflexivity | exact E] | apply Hrec].
Qed.

(** A text without blanks is left as it is. *)
Lemma sub_spaces_fixed (repl : str) (s : str) :
  Forall (fun c => isspace c = false) s ->
  forall prev, sub_repl (plus isspace) repl prev s 0 = s.
Proof.
  induction 1 as [|c s Hc Hs IH]; intro prev; cbn [sub_repl].
  - reflexivity.
  - pose proof (match_here_spaces prev (c :: s)) as Hm. cbn beta iota in Hm.
    rewrite Hc in Hm. rewrite Hm, IH. reflexivity.
Qed.

Lemma filter_fixed {A : Type} (f : A -> bool) (l : list A) :
  Forall (fun x => f x = true) l -> filter f l = l.
Proof.
  induction 1 as [|x l Hx Hl IH]; cbn [filter]; [reflexivity|]. rewrite Hx, IH. reflexivity.
Qed.

Lemma Forall_firstn_keep {A : Type} (P : A -> Prop) (n : nat) (l : list A) :
  Forall P l -> Forall P (firstn n l).
Proof.
  intro H. apply Forall_forall. intros x Hx. rewrite Forall_forall in H.
  apply H. exact (In_firstn n l x Hx).
Qed.

Lemma no_blank_trimmed (s : str) : Forall (fun c => isspace c = false) s -> trimmed s.
Proof.
  intro H. split.
  - destruct H; [exact I | assumption].
  - unfold no_trail. apply Forall_rev in H. destruct H; [exact I | assumption].
Qed.

Lemma sanitize_filename_chars (name : str) :
  Forall (fun c => forbidden c = false /\ isspace c = false) (sanitize_filename name).
Proof.
  unfold sanitize_filename, sub, sub_empty.
  set (cleaned := strip (sub_from (Cls forbidden) None name 0)).
  assert (Hc : Forall (fun c => forbidden c = false) cleaned).
  { unfold cleaned. apply strip_Forall. rewrite sub_from_class.
    apply Forall_forall. intros c Hin. apply filter_In in Hin.
    apply negb_true_iff, Hin. }
  assert (Hs : Forall (fun c => forbidden c = false /\ isspace c = false)
                      (sub_repl (plus isspace) (lit "_") None cleaned 0)).
  { eapply Forall_impl; [|apply sub_spaces_chars].
    intros c [->|[Hin Hsp]]; [split; reflexivity|].
    split; [|exact Hsp]. rewrite Forall_forall in Hc. exact (Hc c Hin). }
  destruct (100 <? _); [apply Forall_firstn_keep|]; exact Hs.
Qed.

Lemma sanitize_filename_length (name : str) : length (sanitize_filename name) <= 100.
Proof.
  unfold sanitize_filename.
  destruct (100 <? _) eqn:E.
  - rewrite length_firstn. apply Nat.le_min_l.
  - apply Nat.ltb_ge in E. exact E.
Qed.

Lemma forbidden_false (c : ascii) :
  forbidden c = false <-> ~ In c reserved /\ 31 < nat_of_ascii c.
Proof.
  unfold forbidden. rewrite orb_false_iff, Nat.leb_gt. split; intros [H1 H2]; split; auto.
  - intro Hin. assert (E : existsb (Ascii.eqb c) reserved = true).
    { apply existsb_exists. exists c. split; [exact Hin | apply Ascii.eqb_refl]. }
    congruence.
  - destruct (existsb (Ascii.eqb c) reserved) eqn:E; [|reflexivity].
    apply existsb_exists in E. destruct E as (x & Hx & Ex).
    apply Ascii.eqb_eq in Ex. subst x. contradiction.
Qed.

(** The class stops at code 31: the control character DEL, code 127, and the
    control characters from code 128 on are kept. *)
Lemma sanitize_filename_keeps_del :
  sanitize_filename (lit "a" ++ [ascii_of_nat 127; ascii_of_nat 129] ++ lit "b")
  = lit "a" ++ [ascii_of_nat 127; ascii_of_nat 129] ++ lit "b".
Proof. vm_compute. reflexivity. Qed.

(** X16: a sanitized name has at most 100 characters; none of them is one of
    the nine reserved characters, has a code from 0 to 31, or is a blank. *)
Theorem sanitize_filename_safe (name : str) :
  length (sanitize_filename name) <= 100 /\
  Forall (fun c => ~ In c reserved /\ 31 < nat_of_ascii c /\ isspace c = false)
         (sanitize_filename name).
Proof.
  split; [apply sanitize_filename_length|].
  eapply Forall_impl; [|apply sanitize_filename_chars].
  intros c [Hf Hs]. apply forbidden_false in Hf. tauto.
Qed.

(** X17: sanitizing a sanitized name changes nothing. *)
Theorem sanitize_filename_idempotent (name : str) :
  sanitize_filename (sanitize_filename name) = sanitize_filename name.
Proof.
  pose proof (sanitize_filename_chars name) as Hc.
  pose proof (sanitize_filename_length name) as Hl.
  set (out := sanitize_filename name) in *.
  assert (Hf : Forall (fun c => negb (forbidden c) = true) out).
  { eapply Forall_impl; [|exact Hc]. intros c [H _]. rewrite H. reflexivity. }
  assert (Hs : Forall (fun c => isspace c = false) out).
  { eapply Forall_impl; [|exact Hc]. intros c [_ H]. exact H. }
  unfold sanitize_filename at 1. unfold sub, sub_empty.
  rewrite sub_from_class, (filter_fixed _ out Hf).
  rewrite (strip_fixed out (no_blank_trimmed out Hs)).
  rewrite (sub_spaces_fixed (lit "_") out Hs).
  destruct (100 <? length out) eqn:E; [|reflexivity].
  apply Nat.ltb_lt in E. lia.
Qed.

End SanitizeFilename.

(* ------------------------------------------------------------------ *)
(** ** The skills taken from the model's answer *)

Section CleanSkills.

Lemma seen_iff (clean_skill : str) (clean_skills : list str) :
  existsb (fun existing => str_eqb (lower clean_skill) (lower existing)) clean_skills = true
  <-> In (lower clean_skill) (map lower clean_skills).
Proof.
  rewrite existsb_exists, in_map_iff. split.
  - intros (x & Hx & He). apply str_eqb_eq in He. exists x. auto.
  - intros (x & He & Hx). exists x. split; [exact Hx|]. apply str_eqb_eq. auto.
Qed.

Lemma NoDup_snoc {A : Type} (l : list A) (x : A) : NoDup l -> ~ In x l -> NoDup (l ++ [x]).
Proof.
  intros Hl Hx. apply NoDup_app; [exact Hl | constructor; [intros [] | constructor] |].
  intros y Hy [<-|[]]. exact (Hx Hy).
Qed.

Lemma NoDup_firstn {A : Type} (n : nat) (l : list A) : NoDup l -> NoDup (firstn n l).
Proof.
  revert l. induction n as [|n IH]; intros l H; [constructor|].
  destruct l as [|x l]; [constructor|]. inversion H as [|y l' Hx Hl]; subst.
  cbn [firstn]. constructor; [|apply IH, Hl].
  intro Hin. apply Hx. exact (In_firstn n l x Hin).
Qed.

(** What the loop keeps true of [clean_skills], and where its items come
    from. *)
Lemma clean_fold (skills : list json) :
  forall acc,
    Forall (fun s => strip s = s /\ 1 < length s) acc -> NoDup (map lower acc) ->
    let out := fold_left clean_step skills acc in
    Forall (fun s => strip s = s /\ 1 < length s) out /\
    NoDup (map lower out) /\
    (forall s, In s out -> In s acc \/ exists raw, In (JStr raw) skills /\ s = strip raw) /\
    (forall x, In x (map lower acc) -> In x (map lower out)) /\
    (forall raw, In (JStr raw) skills -> 1 < length (strip raw) ->
                 In (lower (strip raw)) (map lower out)) /\
    length out <= length acc + length skills.
Proof.
  induction skills as [|skill skills IH]; intros acc Hacc Hnd; cbn [fold_left].
  - cbn zeta. repeat split; auto; try lia. intros raw [].
  - assert (Hstep : Forall (fun s => strip s = s /\ 1 < length s) (clean_step acc skill) /\
                    NoDup (map lower (clean_step acc skill)) /\
                    (forall s, In s (clean_step acc skill) ->
                               In s acc \/ exists raw, skill = JStr raw /\ s = strip raw) /\
                    (forall x, In x (map lower acc) -> In x (map lower (clean_step acc skill))) /\
                    (forall raw, skill = JStr raw -> 1 < length (strip raw) ->
                                 In (lower (strip raw)) (map lower (clean_step acc skill))) /\
                    length (clean_step acc skill) <= S (length acc)).
    { destruct skill as [raw|]; cbn [clean_step].
      2:{ repeat split; auto; try discriminate; lia. }
      destruct (1 <? length (strip raw)) eqn:E.
      2:{ apply Nat.ltb_ge in E. repeat split; auto; try lia.
          intros raw' [= <-] H. lia. }
      apply Nat.ltb_lt in E.
      destruct (existsb _ acc) eqn:Es.
      - apply seen_iff in Es. repeat split; auto; try lia.
        intros raw' [= <-] _. exact Es.
      - assert (Hn : ~ In (lower (strip raw)) (map lower acc)).
        { intro H. apply seen_iff in H. congruence. }
        repeat split.
        + apply Forall_app. split; [exact Hacc|].
          constructor; [|constructor]. split; [apply strip_idem | exact E].
        + rewrite map_app. cbn [map]. apply NoDup_snoc; assumption.
        + intros s Hs. apply in_app_or in Hs. destruct Hs as [Hs|[<-|[]]]; [left; exact Hs|].
          right. exists raw. auto.
        + intros x Hx. rewrite map_app. apply in_or_app. left. exact Hx.
        + intros raw' [= <-] _. rewrite map_app. apply in_or_app. right. left. reflexivity.
        + rewrite length_app. cbn [length]. lia. }
    destruct Hstep as (S1 & S2 & S3 & S4 & S5 & S6).
    destruct (IH (clean_step acc skill) S1 S2) as (I1 & I2 & I3 & I4 & I5 & I6).
    cbn zeta. repeat split.
    + exact I1.
    + exact I2.
    + intros s Hs. destruct (I3 s Hs) as [H|(raw & Hraw & ->)].
      * destruct (S3 s H) as [H'|(raw & -> & ->)]; [left; exact H'|].
        right. exists raw. split; [left; reflexivity | reflexivity].
      * right. exists raw. split; [right; exact Hraw | reflexivity].
    + intros x Hx. apply I4, S4, Hx.
    + intros raw [Hraw|Hraw] Hlen.
      * apply I4. exact (S5 raw Hraw Hlen).
      * exact (I5 raw Hraw Hlen).
    + cbn [length]. lia.
Qed.

(** X18: the skills kept from the model's answer are at most [max_skills];
    each is the trimmed form of a string of the answer and has two characters
    or more; no two of them are equal when case is ignored; and when nothing
    is cut off, that is, when the list before the cut has at most
    [max_skills] items, every string of the answer with two characters or
    more between its margins is there, in some casing. *)
Theorem clean_skills_are_clean (skills : list json) (max_skills : nat) :
  length (clean_skills skills max_skills) <= max_skills /\
  Forall (fun s => strip s = s /\ 1 < length s) (clean_skills skills max_skills) /\
  NoDup (map lower (clean_skills skills max_skills)) /\
  (forall s, In s (clean_skills skills max_skills) ->
             exists raw, In (JStr raw) skills /\ s = strip raw) /\
  (length (fold_left clean_step skills []) <= max_skills ->
   forall raw, In (JStr raw) skills -> 1 < length (strip raw) ->
               In (lower (strip raw)) (map lower (clean_skills skills max_skills))).
Proof.
  unfold clean_skills.
  destruct (clean_fold skills [] (Forall_nil _) (NoDup_nil _)) as (H1 & H2 & H3 & _ & H5 & H6).
  cbn zeta in *. cbn [length] in H6.
  split; [apply firstn_le_length|].
  split; [apply Forall_firstn_keep, H1|].
  split; [rewrite <- firstn_map; apply NoDup_firstn, H2|].
  split.
  - intros s Hs. apply In_firstn in Hs. destruct (H3 s Hs) as [[]|H]. exact H.
  - intros Hmax raw Hraw Hlen. rewrite firstn_all2 by exact Hmax.
    exact (H5 raw Hraw Hlen).
Qed.

End CleanSkills.

(* ------------------------------------------------------------------ *)
(** ** Substrings *)

Section Substrings.

Lemma strip_prefix_app (p rest : str) : strip_prefix p (p ++ rest) = Some rest.
Proof.
  induction p as [|c p IH]; cbn [strip_prefix app]; [reflexivity|].
  rewrite Ascii.eqb_refl. exact IH.
Qed.

(** [p in s] says that [s] is [p] between two texts. *)
Lemma contains_iff (s p : str) :
  contains s p = true <-> exists a b, s = a ++ p ++ b.
Proof.
  induction s as [|c s IH]; cbn [contains]; unfold startswith.
  - rewrite orb_false_r. split.
    + destruct (strip_prefix p []) as [rest|] eqn:E; [|discriminate]. intros _.
      exists [], rest. exact (strip_prefix_Some _ _ _ E).
    + intros (a & b & H). symmetry in H.
      apply app_eq_nil in H. destruct H as [-> H].
      apply app_eq_nil in H. destruct H as [-> ->]. reflexivity.
  - rewrite orb_true_iff, IH. split.
    + intros [H|(a & b & ->)].
      * destruct (strip_prefix p (c :: s)) as [rest|] eqn:E; [|discriminate].
        exists [], rest. exact (strip_prefix_Some _ _ _ E).
      * exists (c :: a), b. reflexivity.
    + intros (a & b & H). destruct a as [|x a].
      * left. cbn [app] in H. rewrite H, strip_prefix_app. reflexivity.
      * right. injection H as _ ->. exists a, b. reflexivity.
Qed.

Lemma contains_trans (s p q : str) :
  contains s p = true -> contains p q = true -> contains s q = true.
Proof.
  rewrite !contains_iff. intros (a & b & ->) (a' & b' & ->).
  exists (a ++ a'), (b' ++ b). rewrite <- !app_assoc. reflexivity.
Qed.

End Substrings.

(* ------------------------------------------------------------------ *)
(** ** Decisions, the recommended list and the feedback report *)

Section Decisions.
Local Open Scope Q_scope.

(** The first keyword of [should_recommend] adds nothing to the second. *)
Lemma should_recommend_keyword (score : Q) (decision : str) :
  should_recommend score decision
  = (Qleb 6.5 score && contains decision (lit "recommend")) || Qleb 7.5 score.
Proof.
  unfold should_recommend. cbn [existsb]. rewrite orb_false_r.
  destruct (contains decision (lit "strong recommend")) eqn:E; [|reflexivity].
  rewrite (contains_trans decision (lit "strong recommend") (lit "recommend") E eq_refl).
  reflexivity.
Qed.

(** X19: a candidate scored 6.5 or more whose decision says "not
    recommended" is put on the recommended list, since that text contains
    "recommend", and is sent a feedback report as well. *)
Theorem not_recommended_is_listed (score : Q) (decision : str) :
  contains decision (lit "not recommended") = true -> 6.5 <= score ->
  should_recommend score decision = true /\ feedback_report_due decision score = true.
Proof.
  intros Hd Hs. split.
  - rewrite should_recommend_keyword.
    rewrite (contains_trans decision (lit "not recommended") (lit "recommend") Hd eq_refl).
    apply Qleb_true in Hs. rewrite Hs. reflexivity.
  - unfold feedback_report_due. rewrite Hd. reflexivity.
Qed.

Lemma not_recommended_is_listed_witness :
  should_recommend 7 (lower (lit "Not Recommended")) = true /\
  feedback_report_due (lower (lit "Not Recommended")) 7 = true.
Proof.
  apply (not_recommended_is_listed 7 (lower (lit "Not Recommended"))).
  - vm_compute. reflexivity.
  - discriminate.
Defined.

Ltac qfacts :=
  repeat match goal with
         | H : Qleb _ _ = true |- _ => apply Qleb_true in H
         | H : Qleb _ _ = false |- _ => apply Qleb_false in H
         | H : Qltb _ _ = true |- _ => apply Qltb_true in H
         | H : Qltb _ _ = false |- _ => apply Qltb_false in H
         end.

(** X20: with the fallback justification a candidate is put on the
    recommended list exactly from 6.5 on and is sent a feedback report
    exactly below 6.0; no candidate gets both, and one scored from 6.0 up to
    6.5 gets neither. *)
Theorem fallback_verdicts (score : Q) :
  (should_recommend score (lower (fallback_decision score)) = true <-> 6.5 <= score) /\
  (feedback_report_due (lower (fallback_decision score)) score = true <-> score < 6.0) /\
  (should_recommend score (lower (fallback_decision score))
   && feedback_report_due (lower (fallback_decision score)) score = false).
Proof.
  unfold should_recommend, feedback_report_due, fallback_decision.
  destruct (Qleb 7.5 score) eqn:E1; destruct (Qleb 6.5 score) eqn:E2;
    destruct (Qleb 5.0 score) eqn:E3; destruct (Qltb score 6.0) eqn:E4; qfacts;
    try (exfalso; lra);
    (split; [|split]);
    try reflexivity;
    (split; intro H; try lra; try reflexivity; try discriminate H).
Qed.

End Decisions.

(* ------------------------------------------------------------------ *)
(** ** What the response reports as missing *)

Section Missing.
Local Open Scope Q_scope.

Lemma not_in_filter_list (l ms : list str) :
  not_in_filter l (VList ms) = Ok (filter (fun s => negb (mem s ms)) l).
Proof.
  induction l as [|s l IH]; cbn [not_in_filter filter]; [reflexivity|].
  unfold py_not_in. cbn [py_iter bind]. rewrite IH. cbn [bind].
  destruct (mem s ms); reflexivity.
Qed.

Lemma mem_filter (f : str -> bool) (l : list str) (s : str) :
  In s l -> mem s (filter f l) = f s.
Proof.
  intro H. destruct (f s) eqn:E.
  - apply mem_In, filter_In. auto.
  - destruct (mem s (filter f l)) eqn:Em; [|reflexivity].
    apply mem_In, filter_In in Em. destruct Em as [_ Em]. congruence.
Qed.

(** X21: the missing requirements of the response are the JD skills whose
    final confidence is below 0.5, in the order of the JD skills; with the
    matched skills they account for every JD skill. This holds on every call
    of the scorer that returns, that is, unless the technical years are an
    int at or below -(2^1024 - 2^970). *)
Theorem missing_requirements_partition
        (job_desc resume_text : str) (jd_skills resume_skills : list str)
        (experience_data : dict Q) :
  - float_limit < get_or_zero experience_data (lit "technical_years_experience") ->
  exists cs matched missing,
    compute_enhanced_component_scores job_desc resume_text jd_skills resume_skills
                                      experience_data = Ok cs /\
    dict_get cs (lit "matched_skills") = Some (VList matched) /\
    missing_requirements jd_skills cs = Ok missing /\
    missing = filter (fun s => Qltb (final_confidence resume_text resume_skills s) 0.5)
                     jd_skills /\
    (forall s, In s jd_skills -> (In s missing <-> ~ In s matched)) /\
    (length matched + length missing = length jd_skills)%nat.
Proof.
  intro Hyears.
  destruct (compute_returns job_desc resume_text jd_skills resume_skills experience_data
                            Hyears)
    as (m & sm & ctx & rel & avg & Hm & Hcs).
  destruct (find_skill_matches_spec resume_text resume_skills jd_skills)
    as (e & c & Hr & _).
  rewrite Hm in Hr. injection Hr as ->.
  set (f := is_matched resume_text resume_skills).
  assert (Hfilter : filter (fun s => negb (mem s (filter f jd_skills))) jd_skills
                    = filter (fun s => negb (f s)) jd_skills).
  { apply filter_ext_in. intros s Hs. rewrite (mem_filter f jd_skills s Hs). reflexivity. }
  eexists. exists (filter f jd_skills), (filter (fun s => negb (f s)) jd_skills).
  split; [exact Hcs|]. split; [reflexivity|].
  split.
  { unfold missing_requirements, get_default.
    cbn [component_record dict_get str_eqb lit list_ascii_of_string Ascii.eqb Bool.eqb andb
         matched_skills].
    rewrite not_in_filter_list. f_equal. exact Hfilter. }
  split; [|split].
  - apply filter_ext_in. intros s _. unfold f, is_matched, Qltb, Qleb. reflexivity.
  - intros s Hs. rewrite !filter_In. split.
    + intros [_ H] [_ H']. rewrite H' in H. discriminate.
    + intro H. split; [exact Hs|]. destruct (f s); [|reflexivity].
      exfalso. apply H. auto.
  - apply filter_length.
Qed.

Lemma missing_requirements_partition_witness :
  exists cs matched missing,
    compute_enhanced_component_scores
      [] (lit "Five years of Python.") [lit "Python"; lit "Rust"] [] [] = Ok cs /\
    dict_get cs (lit "matched_skills") = Some (VList matched) /\
    missing_requirements [lit "Python"; lit "Rust"] cs = Ok missing /\
    missing = filter (fun s => Qltb (final_confidence (lit "Five years of Python.") [] s) 0.5)
                     [lit "Python"; lit "Rust"] /\
    (forall s, In s [lit "Python"; lit "Rust"] -> (In s missing <-> ~ In s matched)) /\
    (length matched + length missing = length [lit "Python"; lit "Rust"])%nat.
Proof.
  apply (missing_requirements_partition [] (lit "Five years of Python.")
                                        [lit "Python"; lit "Rust"] [] []).
  vm_compute. reflexivity.
Defined.

(** X22: the skill analysis that the service hands over has no entry for
    all the JD skills, so the fallback justification finds no missing skill:
    it lists no skill gap and gives the stock area for improvement, whatever
    was matched. *)
Theorem fallback_names_no_gap (component_scores : dict pyval) (jd_skills_local : list str) :
  exists missing,
    missing_skills (service_skill_analysis component_scores jd_skills_local) = Ok missing /\
    skill_gaps missing = [] /\
    areas_for_improvement missing = [lit "Continue skill development"].
Proof.
  exists []. split; [reflexivity|]. split; reflexivity.
Qed.

End Missing.

(* ------------------------------------------------------------------ *)
(** ** Reading an upload *)

Section Upload.
Variable extract_text_from_pdf_bytes : bytes -> str + str.
Variable extract_text_from_docx_bytes : bytes -> str + str.

(** X23: a resume that is read has the name it was uploaded under, ending
    in .pdf or .docx in any casing, a non-empty content, and 50 characters or
    more between the margins of its text. A refusal has status 400, or status
    500, and then the extractor raised and the detail carries its message. An
    upload without a name is refused with 400 as an invalid file type. *)
Theorem parse_resume_file_outcomes (upload_file : UploadFile) :
  match parse_resume_file extract_text_from_pdf_bytes extract_text_from_docx_bytes
                          upload_file with
  | inl (text, name) =>
      filename upload_file = Some name /\
      (endswith (lower name) (lit ".pdf") = true \/
       endswith (lower name) (lit ".docx") = true) /\
      file upload_file <> [] /\
      50 <= length (strip text) /\
      (extract_text_from_pdf_bytes (file upload_file) = inl text \/
       extract_text_from_docx_bytes (file upload_file) = inl text)
  | inr e =>
      status_code e = 400 \/
      (status_code e = 500 /\
       exists message,
         (extract_text_from_pdf_bytes (file upload_file) = inr message \/
          extract_text_from_docx_bytes (file upload_file) = inr message) /\
         detail e = lit "Error processing file: " ++ message)
  end /\
  (filename upload_file = None \/ filename upload_file = Some [] ->
   parse_resume_file extract_text_from_pdf_bytes extract_text_from_docx_bytes upload_file
   = inr {| status_code := 400;
            detail := lit "Invalid file type for 'uploaded_resume'. Only PDF and DOCX files are allowed." |}).
Proof.
  destruct upload_file as [fn contents]. unfold parse_resume_file. cbn [filename file].
  destruct fn as [[|c n]|];
    [split; [left; reflexivity | intros _; reflexivity] | |
     split; [left; reflexivity | intros _; reflexivity]].
  split; [|intros [H|H]; discriminate].
  set (name := c :: n).
  destruct (endswith (lower name) (lit ".pdf") || endswith (lower name) (lit ".docx"))
    eqn:Eext; cbn [negb]; [|left; reflexivity].
  destruct contents as [|b contents]; cbn [length Nat.eqb]; [left; reflexivity|].
  destruct (if endswith (lower name) (lit ".pdf")
            then extract_text_from_pdf_bytes (b :: contents)
            else extract_text_from_docx_bytes (b :: contents)) as [text|message] eqn:Ex.
  - destruct text as [|t text]; cbn [orb]; [left; reflexivity|].
    destruct (length (strip (t :: text)) <? 50) eqn:El; [left; reflexivity|].
    apply Nat.ltb_ge in El. apply orb_true_iff in Eext.
    repeat split; auto; [discriminate|].
    destruct (endswith (lower name) (lit ".pdf")); auto.
  - right. split; [reflexivity|]. exists message. split; [|reflexivity].
    destruct (endswith (lower name) (lit ".pdf")); auto.
Qed.

End Upload.

(* ------------------------------------------------------------------ *)
(** ** The matcher: matching by words *)

Section WordOverlap.
Local Open Scope Q_scope.
Variable resume_text : str.
Variable resume_skills : list str.

Lemma overlap_threshold (k n : nat) :
  (0 < n)%nat -> (0.5 <= Qn k / Qn n * 0.7 <-> (5 * n <= 7 * k)%nat).
Proof.
  intro Hn. pose proof (Qn_pos n Hn) as Hpos.
  assert (Hne : ~ Qn n == 0) by (intro H0; rewrite H0 in Hpos; discriminate).
  assert (Hk : Qn k / Qn n * 0.7 * Qn n == Qn k * 0.7) by (field; exact Hne).
  split.
  - intro H. apply (Qmult_le_compat_r _ _ (Qn n)) in H; [|apply Qlt_le_weak, Hpos].
    rewrite Hk in H. unfold Qle, Qmult, Qn, inject_Z in H. cbn [Qnum Qden] in H. lia.
  - intro H. apply Qmult_le_r with (z := Qn n); [exact Hpos|].
    rewrite Hk. unfold Qle, Qmult, Qn, inject_Z. cbn [Qnum Qden]. lia.
Qed.

Lemma overlap_too_small (k n : nat) :
  Qle_bool (Qn n * 0.6) (Qn k) = false -> (5 * k < 3 * n)%nat.
Proof.
  intro H. apply (Qleb_false (Qn n * 0.6) (Qn k)) in H.
  unfold Qlt, Qmult, Qn, inject_Z in H. cbn [Qnum Qden] in H. lia.
Qed.

(** X24: a JD skill is matched when its score reaches 0.5 through the text
    or the resume skills, or else when it has two distinct words or more and
    at least five sevenths of them are words of the resume; the code's own
    test of 60% lets through overlaps that then score below 0.5. *)
Theorem matched_by_words_threshold (jd_skill : str) :
  is_matched resume_text resume_skills jd_skill = true <->
  0.5 <= confidence_before_words resume_text resume_skills jd_skill \/
  ((1 < length (jd_words jd_skill))%nat /\
   (5 * length (jd_words jd_skill)
    <= 7 * length (shared_words resume_text jd_skill))%nat).
Proof.
  destruct (score_skill_stages resume_text resume_skills jd_skill)
    as (b0 & ev & Ht & Hp & _).
  unfold is_matched. rewrite Qleb_true.
  unfold confidence_before_words, shared_words, jd_words. rewrite Ht. cbn [fst].
  set (pre := fold_left (skill_step (create_skill_variants jd_skill)) resume_skills b0) in *.
  unfold partial_step, resume_text_lower in Hp.
  set (n := length (set_of (split (lower jd_skill)))) in *.
  set (k := length (intersection (set_of (split (lower jd_skill)))
                                 (set_of (split (lower resume_text))))) in *.
  destruct (Qltb pre 0.5) eqn:E0.
  2:{ injection Hp as <-. apply Qltb_false in E0. tauto. }
  apply Qltb_true in E0.
  destruct (1 <? n)%nat eqn:E1.
  2:{ injection Hp as <-. apply Nat.ltb_ge in E1. split; [intro; lra|].
      intros [H|[H _]]; [lra | lia]. }
  apply Nat.ltb_lt in E1.
  destruct (Qle_bool (Qn n * 0.6) (Qn k)) eqn:E2.
  - rewrite py_div_Qn in Hp by lia. cbn [bind] in Hp. injection Hp as <-.
    pose proof (overlap_threshold k n ltac:(lia)) as Hth.
    split.
    + intro H. right. split; [exact E1|]. apply Hth.
      destruct (Q.max_spec pre (Qn k / Qn n * 0.7)) as [[_ Hm]|[_ Hm]];
        rewrite Hm in H; [exact H | lra].
    + intros [H|[_ H]]; [lra|]. apply Hth in H.
      eapply Qle_trans; [exact H | apply Q.le_max_r].
  - injection Hp as <-. apply overlap_too_small in E2.
    split; [intro; lra|]. intros [H|[_ H]]; [lra | lia].
Qed.

End WordOverlap.
